(** * Bicluster-aware kNN recommenders over GreConD formal concepts

    A shallow embedding of the algorithmic core of the repository:
    - [pattern_mining/formal_concept_analysis.py]: concepts, the GreConD
      miner and the factor matrices of a concept list;
    - [recommenders/common.py]: NaN-aware similarities, the user/pattern
      scores, the cached similarity lookup and the bicluster merge;
    - [recommenders/knn_based_recommenders.py] and [recommenders/BBCF.py]:
      the [estimate] operations of the two bicluster-aware estimators.

    Conventions.  Index arrays ([np.int64] arrays of row or column
    numbers) are lists of [nat].  Ratings, means and similarities are
    binary64 floats ([PrimFloat]), so NaN, the infinities and rounding
    behave as in NumPy.  Quotients of two integer counts (the coverage of
    GreConD, the user/pattern overlap ratio) are kept as the exact
    rational they denote ([Q]).  Python exceptions are values of [Py.exn];
    code that can raise returns a [Py.result]. *)

From Stdlib Require Import ZArith QArith Qminmax Floats Lia Lqa.
From stdpp Require Import gmap strings list sorting.

Set Warnings "-inexact-float".

(** ** Python results and exceptions *)

Module Py.

Inductive exn : Type :=
| AssertionError
| ZeroDivisionError
| IndexError
| KeyError
| TypeError
| ValueError (msg : string)
| PredictionImpossible (msg : string).

(** [Timeout] is the only outcome without a Python counterpart: a loop
    of the embedding used up the iteration budget it was given. *)
Inductive result (A : Type) : Type :=
| Ok (a : A)
| Raise (e : exn)
| Timeout.

Arguments Ok {A} a.
Arguments Raise {A} e.
Arguments Timeout {A}.

Definition bind {A B : Type} (m : result A) (k : A → result B) : result B :=
  match m with
  | Ok a => k a
  | Raise e => Raise e
  | Timeout => Timeout
  end.

(** [assert c] *)
Definition assert (c : bool) : result unit :=
  if c then Ok tt else Raise AssertionError.

(** [a[i]] on a Python list or a checked NumPy array. *)
Definition index {A : Type} (l : list A) (i : nat) : result A :=
  match l !! i with
  | Some x => Ok x
  | None => Raise IndexError
  end.

(** [a / b] on Python integers: true division, exact here. *)
Definition int_truediv (a b : nat) : result Q :=
  match b with
  | O => Raise ZeroDivisionError
  | S _ => Ok (Z.of_nat a # Pos.of_nat b)
  end.

(** [a / b] on Python [float] objects. *)
Definition float_truediv (a b : float) : result float :=
  if PrimFloat.eqb b 0 then Raise ZeroDivisionError else Ok (a / b)%float.

(** The exceptions a computation may end in all satisfy [P]. *)
Definition only_raises {A : Type} (P : exn → Prop) (r : result A) : Prop :=
  match r with
  | Raise e => P e
  | _ => True
  end.

End Py.

Export Py (result, Ok, Raise, Timeout).

#[global] Instance result_bind : MBind Py.result :=
  fun A B k m => Py.bind m k.
#[global] Instance result_ret : MRet Py.result := @Py.Ok.

(** ** The NumPy operations the code relies on *)

Module Np.

(** *** Sorted index sets *)

Fixpoint insert_sorted (x : nat) (l : list nat) : list nat :=
  match l with
  | [] => [x]
  | y :: l' =>
      if x <? y then x :: l
      else if x =? y then l
      else y :: insert_sorted x l'
  end.

(** [np.unique]: the distinct values, ascending. *)
Definition unique (l : list nat) : list nat := foldr insert_sorted [] l.

(** [np.union1d(a, b)]: the distinct values of either array, ascending. *)
Definition union1d (a b : list nat) : list nat := unique (a ++ b).

Definition mem (x : nat) (l : list nat) : bool := existsb (Nat.eqb x) l.

(** [np.intersect1d(a, b)]: the distinct values in both arrays, ascending. *)
Definition intersect1d (a b : list nat) : list nat :=
  List.filter (fun x => mem x b) (unique a).

(** [a.any()] on an integer array: some element is nonzero. *)
Definition any_nonzero (a : list nat) : bool := existsb (fun x => negb (x =? 0)) a.

(** [mask.any()] on a boolean array. *)
Definition any (mask : list bool) : bool := existsb id mask.

(** [np.nonzero(a == x)[0]]: the positions holding [x]. *)
Definition positions (x : nat) (a : list nat) : list nat :=
  List.filter (fun p => match a !! p with Some y => y =? x | None => false end)
              (seq 0 (length a)).

(** *** Float vectors and matrices *)

Definition isnan (x : float) : bool := PrimFloat.is_nan x.

(** Positions of a vector that hold a number: [np.nonzero(~np.isnan(u))[0]]. *)
Definition not_null (u : list float) : list nat :=
  List.filter (fun p => negb (isnan (nth p u nan))) (seq 0 (length u)).

(** Unchecked fancy indexing [u[idx]], as compiled by Numba. *)
Definition take (u : list float) (idx : list nat) : list float :=
  map (fun p => nth p u nan) idx.

(** Checked fancy indexing [a[idx]]: NumPy raises [IndexError] out of range. *)
Fixpoint take_checked {A : Type} (a : list A) (idx : list nat) : result (list A) :=
  match idx with
  | [] => Ok []
  | p :: idx' =>
      x ← Py.index a p;
      xs ← take_checked a idx';
      Ok (x :: xs)
  end.

(** [a[mask]]: the entries selected by a boolean mask. *)
Fixpoint compress {A : Type} (mask : list bool) (a : list A) : list A :=
  match mask, a with
  | b :: mask', x :: a' => if b then x :: compress mask' a' else compress mask' a'
  | _, _ => []
  end.

(** [np.dot(a, b)] on two vectors, accumulated left to right. *)
Definition dot (a b : list float) : float :=
  fold_left (fun acc xy => (acc + fst xy * snd xy)%float) (combine a b) 0%float.

(** Elementwise [a - m] with a scalar and [a - b] with a vector. *)
Definition sub_scalar (a : list float) (m : float) : list float :=
  map (fun x => (x - m)%float) a.

Definition sub_vec (a b : list float) : list float :=
  map (fun xy => (fst xy - snd xy)%float) (combine a b).

(** Python's and Numba's [max(a, b)]: [b] when [b > a], else [a]. *)
Definition max (a b : float) : float := if PrimFloat.ltb a b then b else a.

(** [np.full((n, m), x)] *)
Definition full {A : Type} (n m : nat) (x : A) : list (list A) :=
  replicate n (replicate m x).

(** Unchecked read [a[i, j]] of a float matrix. *)
Definition fget (a : list (list float)) (i j : nat) : float :=
  nth j (nth i a []) nan.

(** [a[i, j] = x] *)
Definition set2 {A : Type} (a : list (list A)) (i j : nat) (x : A) : list (list A) :=
  match a !! i with
  | Some row => <[i := <[j := x]> row]> a
  | None => a
  end.

(** [a.T] for a matrix with [m] columns. *)
Definition transpose {A : Type} (d : A) (m : nat) (a : list (list A)) : list (list A) :=
  map (fun c => map (fun row => nth c row d) a) (seq 0 m).

(** Insertion into a list kept ascending by a key; equal keys keep their
    order of arrival (a stable sort). *)
Fixpoint insert_by {A : Type} (le : A → A → bool) (x : A) (l : list A) : list A :=
  match l with
  | [] => [x]
  | y :: l' => if le y x then y :: insert_by le x l' else x :: l
  end.

Definition sort_by {A : Type} (le : A → A → bool) (l : list A) : list A :=
  fold_left (fun acc x => insert_by le x acc) l [].

(** The order [np.argsort] uses on floats: ascending, NaN last. *)
Definition float_le (x y : float) : bool :=
  if isnan y then true else if isnan x then false else PrimFloat.leb x y.

(** [np.argsort(a)], ties kept in index order. *)
Definition argsort (a : list float) : list nat :=
  map fst (sort_by (fun p q => float_le (snd p) (snd q)) (imap (fun i x => (i, x)) a)).

(** [a[-k:]]: the last [k] entries; [a[-0:]] is all of [a]. *)
Definition last_k {A : Type} (k : nat) (a : list A) : list A :=
  if k =? 0 then a else drop (length a - k) a.

End Np.

(** ** pattern_mining/formal_concept_analysis.py *)

Module Fca.

(** A binary dataset: a 2-D boolean array, as its list of rows. *)
Definition bmatrix : Type := list (list bool).

Definition shape0 (M : bmatrix) : nat := length M.
Definition shape1 (M : bmatrix) : nat := length (hd [] M).
Definition size (M : bmatrix) : nat := shape0 M * shape1 M.

(** [M.ndim == 2]: a list of rows is a 2-D array when all rows have the
    same length. *)
Definition ndim2 (M : bmatrix) : bool :=
  forallb (fun row => length row =? shape1 M) M.

(** [M[r][c]] *)
Definition bget (M : bmatrix) (r c : nat) : bool := nth c (nth r M []) false.

(** [M.T] *)
Definition T (M : bmatrix) : bmatrix := Np.transpose false (shape1 M) M.

(** [np.count_nonzero(U)]: a Python [int]. *)
Definition count_nonzero (U : bmatrix) : nat :=
  list_sum (map (fun row => length (List.filter id row)) U).

(** [Concept = namedtuple("Concept", "extent intent")] *)
Record Concept : Type := mkConcept { extent : list nat; intent : list nat }.

Definition create_concept (extent intent : list nat) : Concept :=
  mkConcept extent intent.

Definition concepts_are_equal (concept1 concept2 : Concept) : bool :=
  bool_decide (extent concept1 = extent concept2)
  && bool_decide (intent concept1 = intent concept2).

(** Modelled from the spec: [dataset.binary_dataset._it], the kernel
    behind the closure operators [t] and [i], is not among the sources.
    By the spec [t(Y)] is "rows that are True for every column in Y" and
    [i] is the same on the transposed matrix; the result is ascending.
    An empty [Y] constrains nothing and selects every row. *)
Definition _it (M : bmatrix) (Y : list nat) : list nat :=
  List.filter (fun r => forallb (fun c => bget M r c) Y) (seq 0 (shape0 M)).

Definition submatrix_intersection_size (rows columns : list nat) (U : bmatrix) : nat :=
  fold_left
    (fun intersection_size row =>
       fold_left
         (fun intersection_size column =>
            if bget U row column then S intersection_size else intersection_size)
         columns intersection_size)
    rows 0.

Definition erase_submatrix_values (rows columns : list nat) (U : bmatrix) : bmatrix :=
  fold_left
    (fun U row => fold_left (fun U column => Np.set2 U row column false) columns U)
    rows U.

(** *** GreConD *)

(** One candidate column [j] of the inner [for] loop: the closed extent
    and intent of [D ∪ {j}] and the number of still uncovered cells in
    their rectangle. *)
Definition candidate (binary_dataset transposed_binary_dataset U : bmatrix)
    (D : list nat) (j : nat) : list nat * nat :=
  let D_u_j := D ++ [j] in
  let D_u_j_closed_extent := _it binary_dataset D_u_j in
  let D_u_j_closed_intent := _it transposed_binary_dataset D_u_j_closed_extent in
  (D_u_j_closed_intent,
   submatrix_intersection_size D_u_j_closed_extent D_u_j_closed_intent U).

(** The [for j in js_not_in_D] loop: the first candidate with the
    largest positive [V] wins. *)
Definition best_candidate (binary_dataset transposed_binary_dataset U : bmatrix)
    (D : list nat) (js_not_in_D : list nat) : option (list nat) * nat :=
  fold_left
    (fun best j =>
       let '(D_u_j_closed_intent, D_u_j_V) :=
         candidate binary_dataset transposed_binary_dataset U D j in
       if snd best <? D_u_j_V then (Some D_u_j_closed_intent, D_u_j_V) else best)
    js_not_in_D (None, 0).

(** The [while searching] loop.  [D = best_D_u_j_closed_intent] is only
    reached with [best_D_u_j_V > V >= 0], when the best intent has been
    set; a [None] there would fail in the next [np.append]. *)
Fixpoint search (fuel : nat) (binary_dataset transposed_binary_dataset U : bmatrix)
    (js_not_in_D : list nat) (D : list nat) (V : nat) : result (list nat * nat) :=
  match fuel with
  | O => Timeout
  | S fuel' =>
      let '(best_D_u_j_closed_intent, best_D_u_j_V) :=
        best_candidate binary_dataset transposed_binary_dataset U D js_not_in_D in
      if V <? best_D_u_j_V then
        match best_D_u_j_closed_intent with
        | Some D' =>
            search fuel' binary_dataset transposed_binary_dataset U js_not_in_D
                   D' best_D_u_j_V
        | None => Raise Py.TypeError
        end
      else Ok (D, V)
  end.

(** [1 - np.count_nonzero(U) / initial_number_of_trues] *)
Definition coverage_of (U : bmatrix) (initial_number_of_trues : nat) : result Q :=
  q ← Py.int_truediv (count_nonzero U) initial_number_of_trues;
  Ok (1 - q)%Q.

(** The body of the outer [while]: mine one concept and erase it. *)
Definition mine_one (binary_dataset transposed_binary_dataset : bmatrix)
    (Y : list nat) (initial_number_of_trues : nat)
    (U : bmatrix) (F : list Concept) : result (bmatrix * list Concept * Q) :=
  _ ← coverage_of U initial_number_of_trues;
  let D_u_j : list nat := [] in
  let js_not_in_D := List.filter (fun j => negb (Np.mem j D_u_j)) Y in
  '(D, _) ← search (S (size U)) binary_dataset transposed_binary_dataset U
                   js_not_in_D [] 0;
  let C := _it binary_dataset D in
  let new_concept := create_concept C D in
  let F := F ++ [new_concept] in
  let U := erase_submatrix_values (extent new_concept) (intent new_concept) U in
  current_coverage ← coverage_of U initial_number_of_trues;
  Ok (U, F, current_coverage).

(** The outer [while coverage > current_coverage] loop. *)
Fixpoint mine (fuel : nat) (binary_dataset transposed_binary_dataset : bmatrix)
    (Y : list nat) (initial_number_of_trues : nat) (coverage : Q)
    (U : bmatrix) (F : list Concept) (current_coverage : Q)
    : result (list Concept * Q) :=
  match fuel with
  | O => Timeout
  | S fuel' =>
      if Qle_bool coverage current_coverage then Ok (F, current_coverage)
      else
        '(U, F, current_coverage) ←
          mine_one binary_dataset transposed_binary_dataset Y
                   initial_number_of_trues U F;
        mine fuel' binary_dataset transposed_binary_dataset Y
             initial_number_of_trues coverage U F current_coverage
  end.

(** [grecond(binary_dataset, coverage)].  Every pass of the outer loop
    erases an uncovered cell, so one pass per initially true cell, and
    one more test of the loop condition, is all the loop can use. *)
Definition grecond (binary_dataset : bmatrix) (coverage : Q)
    : result (list Concept * Q) :=
  _ ← Py.assert (ndim2 binary_dataset);
  _ ← Py.assert (0 <? size binary_dataset);
  _ ← Py.assert (negb (Qle_bool coverage 0) && Qle_bool coverage 1);
  let U := binary_dataset in
  let Y := seq 0 (shape1 binary_dataset) in
  let transposed_binary_dataset := T binary_dataset in
  let initial_number_of_trues := count_nonzero U in
  mine (S initial_number_of_trues) binary_dataset transposed_binary_dataset Y
       initial_number_of_trues coverage U [] 0%Q.

(** *** Factor matrices *)

Definition _get_matrices (concepts : list Concept)
    (dataset_number_rows dataset_number_cols : nat) : bmatrix * bmatrix :=
  let Af := Np.full dataset_number_rows (length concepts) false in
  let Bf := Np.full (length concepts) dataset_number_cols false in
  fold_left
    (fun AB ic =>
       let '(concept_index, concept) := ic in
       (fold_left (fun Af item => Np.set2 Af item concept_index true)
                  (extent concept) (fst AB),
        fold_left (fun Bf item => Np.set2 Bf concept_index item true)
                  (intent concept) (snd AB)))
    (imap (fun concept_index concept => (concept_index, concept)) concepts)
    (Af, Bf).

Definition get_factor_matrices_from_concepts (concepts : list Concept)
    (dataset_number_rows dataset_number_cols : nat) : result (bmatrix * bmatrix) :=
  _ ← Py.assert (0 <? length concepts);
  _ ← Py.assert (0 <? dataset_number_rows);
  _ ← Py.assert (0 <? dataset_number_cols);
  Ok (_get_matrices concepts dataset_number_rows dataset_number_cols).

(** [np.matmul(A, B)] on boolean arrays: an OR of ANDs over the inner
    index. *)
Definition matmul (A B : bmatrix) : bmatrix :=
  map (fun row =>
         map (fun c => existsb (fun k => nth k row false && bget B k c)
                               (seq 0 (shape0 B)))
             (seq 0 (shape1 B)))
      A.

(** *** Vocabulary for the properties of GreConD *)

(** Two arrays of the same shape. *)
Definition same_shape (U M : bmatrix) : Prop :=
  length U = length M ∧ ∀ r, length (nth r U []) = length (nth r M []).

(** Every true cell of [U] is a true cell of [M]. *)
Definition below (U M : bmatrix) : Prop :=
  ∀ r c, bget U r c = true → bget M r c = true.

(** The cell [(r, c)] lies in the rectangle of one of the concepts. *)
Definition covered (F : list Concept) (r c : nat) : bool :=
  existsb (fun concept => Np.mem r (extent concept) && Np.mem c (intent concept)) F.

(** A concept of [M]: a rectangle of true cells whose rows and columns
    are rows and columns of [M]. *)
Definition rectangle_of (M : bmatrix) (concept : Concept) : Prop :=
  (∀ r, r ∈ extent concept → r < shape0 M)
  ∧ (∀ c, c ∈ intent concept → c < shape1 M)
  ∧ ∀ r c, r ∈ extent concept → c ∈ intent concept → bget M r c = true.

(** The candidate intent [D] holds columns of [M] only. *)
Definition columns_of (M : bmatrix) (D : list nat) : Prop :=
  ∀ c, c ∈ D → c < shape1 M.

(** Some row of [M] has all the columns of [D] and still an uncovered
    cell in one of them. *)
Definition useful (M U : bmatrix) (D : list nat) : Prop :=
  ∃ r c, c ∈ D ∧ r < shape0 M ∧ (∀ c', c' ∈ D → bget M r c' = true)
         ∧ bget U r c = true.

(** The exact coverage [1 - count / initial]. *)
Definition ratio (U : bmatrix) (initial : nat) : Q :=
  (1 - (Z.of_nat (count_nonzero U) # Pos.of_nat initial))%Q.

(** What the outer loop keeps true: [U] is [M] without the rectangles
    of the concepts mined so far, every concept is a rectangle of [M],
    and [current_coverage] is the share of cells no longer in [U]. *)
Definition mining (M : bmatrix) (initial : nat) (U : bmatrix) (F : list Concept)
    (current_coverage : Q) : Prop :=
  same_shape U M ∧ below U M
  ∧ (∀ r c, bget M r c = bget U r c || covered F r c)
  ∧ Forall (rectangle_of M) F
  ∧ (current_coverage == ratio U initial)%Q.

(** A formal concept of [M]: the extent is all the rows that have every
    column of the intent, and the intent all the columns that every row
    of the extent has. *)
Definition formal_concept (M : bmatrix) (concept : Concept) : Prop :=
  extent concept = _it M (intent concept)
  ∧ intent concept = _it (T M) (extent concept).

(** The true cells of [M] that lie in no rectangle of [F]. *)
Definition uncovered (M : bmatrix) (F : list Concept) : bmatrix :=
  imap (fun r row => imap (fun c b => b && negb (covered F r c)) row) M.

(** The indices of a concept fit a dataset of [rows] rows and [cols]
    columns. *)
Definition indices_in (rows cols : nat) (concept : Concept) : Prop :=
  (∀ r, r ∈ extent concept → r < rows) ∧ (∀ c, c ∈ intent concept → c < cols).

End Fca.

(** ** recommenders/common.py *)

Module Common.

Export Fca (Concept, mkConcept, extent, intent, create_concept).

Definition Bicluster : Type := Fca.Concept.

(** A ratings matrix (NaN = missing) and a similarity cache. *)
Definition fmatrix : Type := list (list float).

(** The default [eps = 1e-08] of the three similarities. *)
Definition eps : float := 1e-08.

Definition cosine_similarity_eps (dataset : fmatrix) (u_id v_id : nat)
    (means : list float) (eps : float) : float :=
  let u := nth u_id dataset [] in
  let v := nth v_id dataset [] in
  let not_null_u := Np.not_null u in
  let not_null_v := Np.not_null v in
  let common_indices_in_uv := Np.intersect1d not_null_u not_null_v in
  if length common_indices_in_uv =? 0 then nan
  else
    let common_u := Np.take u common_indices_in_uv in
    let common_v := Np.take v common_indices_in_uv in
    let numerator := Np.dot common_u common_v in
    let uu := Np.dot common_u common_u in
    let vv := Np.dot common_v common_v in
    let denominator := Np.max (PrimFloat.sqrt (uu * vv)) eps in
    (numerator / denominator)%float.

Definition pearson_similarity_eps (dataset : fmatrix) (u_id v_id : nat)
    (means : list float) (eps : float) : float :=
  let u := nth u_id dataset [] in
  let v := nth v_id dataset [] in
  let mean_u := nth u_id means nan in
  let mean_v := nth v_id means nan in
  let not_null_u := Np.not_null u in
  let not_null_v := Np.not_null v in
  let common_indices_in_uv := Np.intersect1d not_null_u not_null_v in
  if length common_indices_in_uv =? 0 then nan
  else
    let common_u := Np.take u common_indices_in_uv in
    let common_v := Np.take v common_indices_in_uv in
    let common_u := Np.sub_scalar common_u mean_u in
    let common_v := Np.sub_scalar common_v mean_v in
    let numerator := Np.dot common_u common_v in
    let uu := Np.dot common_u common_u in
    let vv := Np.dot common_v common_v in
    let denominator := Np.max (PrimFloat.sqrt (uu * vv)) eps in
    (numerator / denominator)%float.

Definition adjusted_cosine_similarity_eps (dataset : fmatrix) (i_id j_id : nat)
    (means : list float) (eps : float) : float :=
  let i := nth i_id dataset [] in
  let j := nth j_id dataset [] in
  let not_null_i := Np.not_null i in
  let not_null_j := Np.not_null j in
  let common_indices_in_ij := Np.intersect1d not_null_i not_null_j in
  if length common_indices_in_ij =? 0 then nan
  else
    let common_i := Np.take i common_indices_in_ij in
    let common_j := Np.take j common_indices_in_ij in
    let common_i := Np.sub_vec common_i (Np.take means common_indices_in_ij) in
    let common_j := Np.sub_vec common_j (Np.take means common_indices_in_ij) in
    let numerator := Np.dot common_i common_j in
    let ii := Np.dot common_i common_i in
    let jj := Np.dot common_j common_j in
    let denominator := Np.max (PrimFloat.sqrt (ii * jj)) eps in
    (numerator / denominator)%float.

(** The overlap of two rows: the positions where both hold a number. *)
Definition overlap (dataset : fmatrix) (u_id v_id : nat) : list nat :=
  Np.intersect1d (Np.not_null (nth u_id dataset [])) (Np.not_null (nth v_id dataset [])).


(** A similarity strategy as the callers use it, [eps] at its default. *)
Definition strategy : Type := fmatrix → nat → nat → list float → float.

Definition cosine_similarity : strategy :=
  fun dataset u_id v_id means => cosine_similarity_eps dataset u_id v_id means eps.
Definition pearson_similarity : strategy :=
  fun dataset u_id v_id means => pearson_similarity_eps dataset u_id v_id means eps.
Definition adjusted_cosine_similarity : strategy :=
  fun dataset i_id j_id means => adjusted_cosine_similarity_eps dataset i_id j_id means eps.

(** *** User/pattern scores: quotients of counts *)

Definition user_pattern_similarity (user : list nat) (pattern : Bicluster) : Q :=
  let number_of_itens_from_pattern_in_user :=
    length (Np.intersect1d user (intent pattern)) in
  if length (intent pattern) =? 0 then 0%Q
  else (Z.of_nat number_of_itens_from_pattern_in_user
          # Pos.of_nat (length (intent pattern)))%Q.

Definition weight_frequency (user : list nat) (pattern : Bicluster) : Q :=
  let number_of_users_in_pattern := length (extent pattern) in
  (inject_Z (Z.of_nat number_of_users_in_pattern)
   * user_pattern_similarity user pattern)%Q.

Definition double_weight_frequency (user : list nat) (pattern : Bicluster) : Q :=
  let number_of_users_in_pattern := length (extent pattern) in
  let number_of_items_in_pattern := length (intent pattern) in
  (inject_Z (Z.of_nat number_of_users_in_pattern)
   * inject_Z (Z.of_nat number_of_items_in_pattern)
   * user_pattern_similarity user pattern)%Q.

(** *** The cached similarity lookup *)

(** What one call of [get_similarity] does: the value returned, the
    cache after the call ([None] when no cache was passed) and the
    invocations of the strategy, as the index pairs it was called on. *)
Record lookup : Type := mkLookup {
  similarity : float;
  similarity_matrix : option fmatrix;
  strategy_calls : list (nat * nat)
}.

Definition get_similarity (i j : nat) (dataset : fmatrix) (means : list float)
    (similarity_matrix : option fmatrix) (similarity_strategy : strategy) : lookup :=
  let cached :=
    match similarity_matrix with
    | Some m => if negb (Np.isnan (Np.fget m i j)) then Some (Np.fget m i j) else None
    | None => None
    end in
  match cached with
  | Some value => mkLookup value similarity_matrix []
  | None =>
      let '(similarity, calls) :=
        if i =? j then (1%float, [])
        else (similarity_strategy dataset i j means, [(i, j)]) in
      let similarity_matrix :=
        match similarity_matrix with
        | Some m => Some (Np.set2 (Np.set2 m i j similarity) j i similarity)
        | None => None
        end in
      mkLookup similarity similarity_matrix calls
  end.

Definition get_similarity_matrix (dataset : fmatrix) (means : list float)
    (similarity_strategy : strategy) : fmatrix :=
  let n := length dataset in
  let similarity_matrix := Np.full n n nan in
  fold_left
    (fun similarity_matrix i =>
       fold_left
         (fun similarity_matrix j =>
            if i <=? j then
              match Common.similarity_matrix
                      (get_similarity i j dataset means (Some similarity_matrix)
                                      similarity_strategy) with
              | Some m => m
              | None => similarity_matrix
              end
            else similarity_matrix)
         (seq 0 n) similarity_matrix)
    (seq 0 n) similarity_matrix.

(** *** Neighbourhood building *)

Definition get_top_k_biclusters_for_user (biclusters : list Bicluster)
    (user_as_tidset : list nat) (number_of_top_k_patterns : nat)
    (similarity_strategy : list nat → Bicluster → Q) : list Bicluster :=
  let scored :=
    List.filter (fun bs => negb (Qle_bool (snd bs) 0))
      (map (fun bicluster => (bicluster, similarity_strategy user_as_tidset bicluster))
           biclusters) in
  let sorted_similar_patterns :=
    map fst (Np.sort_by (fun p q => Qle_bool (snd p) (snd q)) scored) in
  Np.last_k number_of_top_k_patterns sorted_similar_patterns.

Definition get_indices_above_threshold (subset : list float)
    (binarization_threshold : float) : list nat :=
  List.filter (fun p => PrimFloat.leb binarization_threshold (nth p subset nan))
              (seq 0 (length subset)).

Definition merge_biclusters (biclusters : list Bicluster) : Bicluster :=
  let new_bicluster_extent : list nat := [] in
  let new_bicluster_intent : list nat := [] in
  let '(new_bicluster_extent, new_bicluster_intent) :=
    fold_left
      (fun acc bicluster =>
         (Np.union1d (fst acc) (extent bicluster),
          Np.union1d (snd acc) (intent bicluster)))
      biclusters (new_bicluster_extent, new_bicluster_intent) in
  mkConcept new_bicluster_extent new_bicluster_intent.

(** One side of a merge: the running union of that side of the
    biclusters, from an accumulator. *)
Definition union_of (side : Concept → list nat) (l : list Bicluster)
    (acc : list nat) : list nat :=
  fold_left (fun acc b => Np.union1d acc (side b)) l acc.

(** *** Vocabulary for the properties of the lookups *)

(** The value [get_similarity] computes for the pair [(a, b)]. *)
Definition pair_value (dataset : fmatrix) (means : list float) (f : strategy)
    (a b : nat) : float :=
  if a =? b then 1%float else f dataset a b means.

(** The cache while [get_similarity_matrix] fills it: square, with the
    pairs [a <= b] visited so far holding their value on both sides of
    the diagonal and all the others still NaN. *)
Definition filled (dataset : fmatrix) (means : list float) (f : strategy)
    (V : nat → nat → Prop) (m : fmatrix) : Prop :=
  let n := length dataset in
  length m = n ∧ (∀ r, r < n → length (nth r m []) = n)
  ∧ ∀ a b, a ≤ b → b < n →
      (V a b → Np.fget m a b = pair_value dataset means f a b
               ∧ Np.fget m b a = pair_value dataset means f a b)
      ∧ (¬ V a b → Np.fget m a b = nan ∧ Np.fget m b a = nan).

(** The biclusters [get_top_k_biclusters_for_user] keeps, with their
    scores, the order it sorts them by, and the biclusters alone. *)
Definition scored (biclusters : list Bicluster) (user_as_tidset : list nat)
    (similarity_strategy : list nat → Bicluster → Q) : list (Bicluster * Q) :=
  List.filter (fun bs => negb (Qle_bool (snd bs) 0))
    (map (fun bicluster => (bicluster, similarity_strategy user_as_tidset bicluster))
         biclusters).

Definition by_score (p q : Bicluster * Q) : bool := Qle_bool (snd p) (snd q).

Definition similar (biclusters : list Bicluster) (user_as_tidset : list nat)
    (similarity_strategy : list nat → Bicluster → Q) : list Bicluster :=
  List.filter (fun b => negb (Qle_bool (similarity_strategy user_as_tidset b) 0))
              biclusters.

End Common.

(** ** The Surprise training set, as far as the estimators consult it *)

Module Trainset.

(** Inner user and item ids are [0 .. n_users - 1] and [0 .. n_items - 1];
    [knows_user] and [knows_item] test membership in these ranges. *)
Record t : Type := mk { n_users : nat; n_items : nat }.

Definition knows_user (trainset : t) (uid : nat) : bool := uid <? n_users trainset.
Definition knows_item (trainset : t) (iid : nat) : bool := iid <? n_items trainset.

End Trainset.

(** The two kNN variants: [knn_type in ["user", "item"]]. *)
Inductive knn_type : Type := user_based | item_based.

(** The [details] mapping returned next to a prediction. *)
Definition details : Type := gmap string nat.

(** ** recommenders/knn_based_recommenders.py *)

Module Knn.

Import Common.

Definition merge_biclusters (biclusters : list Concept) : result Concept :=
  _ ← Py.assert (0 <? length biclusters);
  _ ← Py.assert (forallb (fun bicluster => 0 <? length (extent bicluster)) biclusters);
  _ ← Py.assert (forallb (fun bicluster => 0 <? length (intent bicluster)) biclusters);
  let new_bicluster_extent : list nat := [] in
  let new_bicluster_intent : list nat := [] in
  let '(new_bicluster_extent, new_bicluster_intent) :=
    fold_left
      (fun acc bicluster =>
         (Np.union1d (fst acc) (extent bicluster),
          Np.union1d (snd acc) (intent bicluster)))
      biclusters (new_bicluster_extent, new_bicluster_intent) in
  Ok (create_concept new_bicluster_extent new_bicluster_intent).


(** The accumulation loop shared by both estimators: the sums of the
    similarities and of the similarity-weighted rating offsets. *)
Definition weighted_sums (ratings similarities means : list float) : float * float :=
  fold_left
    (fun sums rsm =>
       let '(rating, similarity, item_mean) := rsm in
       ((fst sums + similarity)%float,
        (snd sums + similarity * (rating - item_mean))%float))
    (combine (combine ratings similarities) means) (0%float, 0%float).

(** The operands of the final quotient are [numpy.float64] scalars, so
    it is the IEEE 754 quotient. *)
Definition calculate_weighted_rating (target_mean : float)
    (neighbors_ratings neighbors_similarities neighbors_means : list float)
    : result float :=
  _ ← Py.assert (forallb (fun similarity => PrimFloat.ltb 0 similarity
                                            && PrimFloat.leb similarity 1)
                         neighbors_similarities);
  _ ← Py.assert ((length neighbors_ratings =? length neighbors_similarities)
                 && (length neighbors_similarities =? length neighbors_means));
  _ ← Py.assert (0 <? length neighbors_ratings);
  let prediction := target_mean in
  let '(sum_similarities, sum_ratings) :=
    weighted_sums neighbors_ratings neighbors_similarities neighbors_means in
  let prediction := (prediction + sum_ratings / sum_similarities)%float in
  Ok prediction.

Definition get_k_top_neighbors (x y : nat) (dataset : fmatrix)
    (users_neighborhood : list nat) (similarity_matrix : fmatrix)
    (means : list float) (knn_k : nat)
    : result (list float * list float * list float) :=
  (* validate_inputs *)
  _ ← Py.assert (forallb (fun row => length row =? length (hd [] dataset)) dataset);
  _ ← Py.assert (0 <? length users_neighborhood);
  _ ← Py.assert (forallb (fun row => length row =? length similarity_matrix)
                         similarity_matrix);
  _ ← Py.assert (length similarity_matrix =? length dataset);
  _ ← Py.assert (length means =? length dataset);
  _ ← Py.assert (0 <? knn_k);
  row_x ← Py.index similarity_matrix x;
  neighborhood_similarity ← Np.take_checked row_x users_neighborhood;
  neighborhood_rows ← Np.take_checked dataset users_neighborhood;
  neighborhood_ratings ← mapM (fun row => Py.index row y) neighborhood_rows;
  neighborhood_means ← Np.take_checked means users_neighborhood;
  let valid_mask :=
    zip_with (fun rating similarity =>
                negb (Np.isnan rating) && negb (PrimFloat.eqb similarity 0))
             neighborhood_ratings neighborhood_similarity in
  if negb (Np.any valid_mask) then Ok ([], [], [])
  else
    let valid_neighborhood_similarity := Np.compress valid_mask neighborhood_similarity in
    let valid_neighborhood_ratings := Np.compress valid_mask neighborhood_ratings in
    let valid_neighborhood_means := Np.compress valid_mask neighborhood_means in
    let k_top_neighbors_indices_asc :=
      Np.last_k (Nat.min knn_k (length valid_neighborhood_similarity))
                (Np.argsort valid_neighborhood_similarity) in
    let k_top_neighbors_indices_desc := rev k_top_neighbors_indices_asc in
    k_top_neighbors_ratings ←
      Np.take_checked valid_neighborhood_ratings k_top_neighbors_indices_desc;
    k_top_neighbors_similarity ←
      Np.take_checked valid_neighborhood_similarity k_top_neighbors_indices_desc;
    k_top_means ←
      Np.take_checked valid_neighborhood_means k_top_neighbors_indices_desc;
    Ok (k_top_neighbors_ratings, k_top_neighbors_similarity, k_top_means).

(** The state of a fitted [BiAKNN]. *)
Record BiAKNN : Type := mkBiAKNN {
  trainset : Trainset.t;
  dataset : fmatrix;
  neighborhood : gmap nat (list nat);
  similarity_matrix : fmatrix;
  means : list float;
  knn_type_ : knn_type;
  knn_k : nat
}.

Section Estimate.

(** [compute_neighborhood_cosine_similarity] is imported from
    [recommenders.common] but not defined in the sources at hand: it is
    taken as given.  It fills the similarity matrix in place for the
    target [x] and its neighbourhood. *)
Variable compute_neighborhood_cosine_similarity :
  fmatrix → fmatrix → nat → list nat → result fmatrix.

(** [BiAKNN.estimate]: the outcome of the call and the estimator after it. *)
Definition estimate (self : BiAKNN) (user item : nat)
    : result (float * details) * BiAKNN :=
  if negb (Trainset.knows_user (trainset self) user
           && Trainset.knows_item (trainset self) item)
  then (Raise (Py.PredictionImpossible "User and/or item is unknown."), self)
  else
    let '(x, y, dataset) :=
      match knn_type_ self with
      | user_based => (user, item, dataset self)
      | item_based =>
          (item, user, Np.transpose nan (Trainset.n_items (trainset self)) (dataset self))
      end in
    match neighborhood self !! user with
    | None => (Raise Py.KeyError, self)
    | Some user_neighborhood =>
        if length user_neighborhood =? 0 then
          (mean ← Py.index (means self) x; Ok (mean, {[ "actual_k" := 0 ]}), self)
        else
          match compute_neighborhood_cosine_similarity
                  dataset (similarity_matrix self) x user_neighborhood with
          | Raise e => (Raise e, self)
          | Timeout => (Timeout, self)
          | Ok similarity_matrix' =>
              let self' :=
                mkBiAKNN (trainset self) (Knn.dataset self) (neighborhood self)
                         similarity_matrix' (means self) (knn_type_ self) (knn_k self) in
              (top ← get_k_top_neighbors x y dataset user_neighborhood
                                         similarity_matrix' (means self) (knn_k self);
               let '(k_top_neighbors_ratings, k_top_neighbors_similarity, k_top_means) :=
                 top in
               if length k_top_neighbors_ratings =? 0 then
                 mean ← Py.index (means self) x; Ok (mean, {[ "actual_k" := 0 ]})
               else
                 mean ← Py.index (means self) x;
                 _ ← calculate_weighted_rating mean k_top_neighbors_ratings
                       k_top_neighbors_similarity k_top_means;
                 (* [prediction, actual_k = <a float>]: a float does not unpack *)
                 Raise Py.TypeError,
               self')
          end
    end.

End Estimate.

End Knn.

(** ** recommenders/BBCF.py *)

Module Bbcf.

Import Common.

(** The state of a fitted [BBCF]: the training set, the dense ratings
    matrix, the per-user merged bicluster, the lazily filled per-user
    similarity matrices, the means and the kNN parameters. *)
Record BBCF : Type := mkBBCF {
  trainset : Trainset.t;
  dataset : fmatrix;
  neighborhood : gmap nat Concept;
  similarity_matrix : gmap nat fmatrix;
  user_means : list float;
  item_means : list float;
  knn_type_ : knn_type;
  knn_k : nat;
  force_knn_similarity_strategy : option strategy
}.

Definition with_similarity_matrix (self : BBCF) (m : gmap nat fmatrix) : BBCF :=
  mkBBCF (trainset self) (dataset self) (neighborhood self) m (user_means self)
         (item_means self) (knn_type_ self) (knn_k self)
         (force_knn_similarity_strategy self).

(** The "main" and "secondary" roles [estimate] assigns: an item based
    problem is the user based problem on the transposed matrix. *)
Record roles : Type := mkRoles {
  main_index : nat;
  secondary_index : nat;
  main_slice : list nat;
  secondary_slice : list nat;
  role_dataset : fmatrix;
  means : list float;
  similarity_strategy : strategy;
  similarity_strategy_slice : list nat
}.

Definition estimate_roles (self : BBCF) (user item : nat) (neighborhood : Concept)
    : roles :=
  match knn_type_ self with
  | user_based =>
      let main_slice := extent neighborhood in
      let secondary_slice := intent neighborhood in
      mkRoles user item main_slice secondary_slice (dataset self) (user_means self)
              (default pearson_similarity (force_knn_similarity_strategy self))
              main_slice
  | item_based =>
      let main_slice := intent neighborhood in
      let secondary_slice := extent neighborhood in
      mkRoles item user main_slice secondary_slice
              (Np.transpose nan (Trainset.n_items (trainset self)) (dataset self))
              (item_means self)
              (default adjusted_cosine_similarity (force_knn_similarity_strategy self))
              secondary_slice
  end.

(** The local variables of [estimate] once the neighbourhood has been
    accepted and the ratings matrix sliced. *)
Record slices : Type := mkSlices {
  slice_roles : roles;
  similarity_strategy_means : list float;
  main_index_in_submatrix : nat;
  secondary_index_in_submatrix : nat;
  submatrix : fmatrix
}.

(** [estimate], up to [submatrix = dataset[main_slice][:, secondary_slice]]. *)
Definition estimate_slices (self : BBCF) (user item : nat) : result slices :=
  if negb (Trainset.knows_user (trainset self) user
           && Trainset.knows_item (trainset self) item)
  then Raise (Py.PredictionImpossible "User and/or item is unknown.")
  else
    match neighborhood self !! user with
    | None => Raise Py.KeyError
    | Some neighborhood =>
        if negb (Np.any_nonzero (extent neighborhood))
           || negb (Np.any_nonzero (intent neighborhood))
        then Raise (Py.PredictionImpossible "Not enough neighbors.")
        else if negb (Np.mem user (extent neighborhood))
                || negb (Np.mem item (intent neighborhood))
        then Raise (Py.PredictionImpossible
                      "User and/or item is not in the neighborhood.")
        else
          let r := estimate_roles self user item neighborhood in
          similarity_strategy_means ←
            Np.take_checked (user_means self) (similarity_strategy_slice r);
          main_index_in_submatrix ←
            Py.index (Np.positions (main_index r) (main_slice r)) 0;
          secondary_index_in_submatrix ←
            Py.index (Np.positions (secondary_index r) (secondary_slice r)) 0;
          rows ← Np.take_checked (role_dataset r) (main_slice r);
          submatrix ← mapM (fun row => Np.take_checked row (secondary_slice r)) rows;
          Ok (mkSlices r similarity_strategy_means main_index_in_submatrix
                       secondary_index_in_submatrix submatrix)
    end.

(** The lazy computation of the user's similarity matrix. *)
Definition estimate_similarity (self : BBCF) (user : nat) (s : slices) : BBCF :=
  match similarity_matrix self !! user with
  | Some _ => self
  | None =>
      with_similarity_matrix self
        (<[user := get_similarity_matrix (submatrix s) (similarity_strategy_means s)
                                         (similarity_strategy (slice_roles s))]>
           (similarity_matrix self))
  end.

(** [sum_ratings / sum_similarities].  Both sums are [numpy.float64]
    scalars: they accumulate elements of float64 arrays, and adding a
    [numpy.float64] to the Python float [0.0] yields a [numpy.float64].
    Their quotient is therefore NumPy's: IEEE 754 division, which for a
    zero divisor gives an infinity or NaN under a [RuntimeWarning] and
    raises nothing. *)
Definition float64_truediv (a b : float) : result float := Ok (a / b)%float.

(** The failures of [estimate] for a neighbourhood taken for empty and
    for a zero sum of similarities. *)
Definition not_enough_neighbors : Py.exn :=
  Py.PredictionImpossible "Not enough neighbors.".
Definition zero_sum_failure : Py.exn :=
  Py.PredictionImpossible "Sum of similarities is zero.".

(** [estimate], from the cached similarities to the valid neighbours:
    their ratings, similarities and means, or "No valid neighbors.". *)
Definition estimate_valid_neighbors (self : BBCF) (user : nat) (s : slices)
    : result (list float * list float * list float) :=
  user_similarity_matrix ←
    match similarity_matrix self !! user return result fmatrix with
    | Some m => Ok m
    | None => Raise Py.KeyError
    end;
  neighborhood_similarity ←
    Py.index (user_similarity_matrix : fmatrix) (main_index_in_submatrix s);
  neighborhood_ratings ←
    mapM (fun row => Py.index row (secondary_index_in_submatrix s)) (submatrix s);
  neighborhood_means ←
    Np.take_checked (means (slice_roles s)) (main_slice (slice_roles s));
  let validity_mask :=
    zip_with (fun rating similarity =>
                negb (Np.isnan rating) && negb (Np.isnan similarity)
                && negb (PrimFloat.eqb similarity 0))
             neighborhood_ratings neighborhood_similarity in
  if negb (Np.any validity_mask)
  then Raise (Py.PredictionImpossible "No valid neighbors.")
  else
    Ok (Np.compress validity_mask neighborhood_ratings,
        Np.compress validity_mask neighborhood_similarity,
        Np.compress validity_mask neighborhood_means).

(** [estimate], from the valid neighbours to the prediction: the top
    [knn_k] by similarity and their weighted rating. *)
Definition estimate_weighted (self : BBCF) (s : slices)
    (valid_neighborhood_ratings valid_neighborhood_similarity
     valid_neighborhood_means : list float) : result (float * details) :=
  let ordered_neighbors_indices := Np.argsort valid_neighborhood_similarity in
  let top_k_neighbors_indices :=
    Np.last_k (Nat.min (knn_k self) (length valid_neighborhood_similarity))
              ordered_neighbors_indices in
  top_k_neighbors_ratings ←
    Np.take_checked valid_neighborhood_ratings top_k_neighbors_indices;
  top_k_neighbors_similarity ←
    Np.take_checked valid_neighborhood_similarity top_k_neighbors_indices;
  top_k_means ← Np.take_checked valid_neighborhood_means top_k_neighbors_indices;
  prediction ← Py.index (means (slice_roles s)) (main_index (slice_roles s));
  let sums :=
    Knn.weighted_sums top_k_neighbors_ratings top_k_neighbors_similarity top_k_means in
  let sum_similarities := fst sums in
  let sum_ratings := snd sums in
  quotient ←
    match float64_truediv sum_ratings sum_similarities with
    | Raise Py.ZeroDivisionError =>
        Raise (Py.PredictionImpossible "Sum of similarities is zero.")
    | r => r
    end;
  Ok ((prediction + quotient)%float, (∅ : details)).

Definition estimate_prediction (self : BBCF) (user : nat) (s : slices)
    : result (float * details) :=
  valid ← estimate_valid_neighbors self user s;
  estimate_weighted self s (fst (fst valid)) (snd (fst valid)) (snd valid).

(** [BBCF.estimate]: the outcome of the call and the estimator after it
    (only the similarity cache can have changed). *)
Definition estimate (self : BBCF) (user item : nat) : result (float * details) * BBCF :=
  match estimate_slices self user item with
  | Raise e => (Raise e, self)
  | Timeout => (Timeout, self)
  | Ok s =>
      let self := estimate_similarity self user s in
      (estimate_prediction self user s, self)
  end.

(** *** Building the neighbourhoods at [fit] time *)

(** [_generate_neighborhood] for one user: the merged bicluster that
    becomes [self.neighborhood[user_id]]. *)
Definition generate_neighborhood_for (dataset : fmatrix) (biclusters : list Concept)
    (number_of_top_k_biclusters : nat) (binarization_threshold : float)
    (bicluster_similarity_strategy : list nat → Bicluster → Q)
    (force_inclusion_of_user : bool) (user_id : nat) : Concept :=
  let user_as_tidset :=
    get_indices_above_threshold (nth user_id dataset []) binarization_threshold in
  let merged_bicluster := mkConcept [] [] in
  if negb (number_of_top_k_biclusters =? 0) && negb (length biclusters =? 0) then
    let top_k_biclusters :=
      get_top_k_biclusters_for_user biclusters user_as_tidset
        number_of_top_k_biclusters bicluster_similarity_strategy in
    if negb (length top_k_biclusters =? 0) then
      let top_k_biclusters :=
        if negb (Np.mem user_id (extent merged_bicluster)) && force_inclusion_of_user
        then top_k_biclusters ++ [mkConcept [user_id] []]
        else top_k_biclusters in
      merge_biclusters top_k_biclusters
    else merged_bicluster
  else merged_bicluster.

Definition generate_neighborhood (dataset : fmatrix) (biclusters : list Concept)
    (number_of_top_k_biclusters : nat) (binarization_threshold : float)
    (bicluster_similarity_strategy : list nat → Bicluster → Q)
    (force_inclusion_of_user : bool) : gmap nat Concept :=
  fold_left
    (fun neighborhood user_id =>
       <[user_id := generate_neighborhood_for dataset biclusters
                      number_of_top_k_biclusters binarization_threshold
                      bicluster_similarity_strategy force_inclusion_of_user user_id]>
         neighborhood)
    (seq 0 (length dataset)) ∅.

End Bbcf.

(** ** Fixtures: inputs of the repository's tests and of the examples below *)

Module Data.

Import Common.

(** [TestGetSimilarity]: the dataset and the two caches. *)
Definition similarity_dataset : fmatrix :=
  [[1; 2; 3]; [3; 4; 6]; [7; 8; 9]]%float.

Definition computed_cache : fmatrix :=
  [[0.1; 0.2; 0.3]; [0.4; 0.5; 0.6]; [0.7; 0.8; 0.9]]%float.

Definition diagonal_missing_cache : fmatrix :=
  [[nan; 0.2; 0.3]; [0.4; nan; 0.6]; [0.7; 0.8; nan]]%float.

Definition empty_cache : fmatrix := Np.full 3 3 nan.


(** Three users and three items, ratings in 1..5; user 0 has not rated
    item 0.  The means are the users' and the items' rating means. *)
Definition ratings : fmatrix := [[nan; 1; 3]; [5; 1; 3]; [1; 5; 3]]%float.
Definition ratings_user_means : list float := [2; 3; 3]%float.
Definition ratings_item_means : list float := [3; 7 / 3; 3]%float.

(** A fitted user-based [BBCF] over [ratings] whose user 0 has the whole
    matrix as neighbourhood. *)
Definition cancelling_model : Bbcf.BBCF :=
  Bbcf.mkBBCF (Trainset.mk 3 3) ratings {[ 0 := mkConcept [0; 1; 2] [0; 1; 2] ]} ∅
              ratings_user_means ratings_item_means user_based 5 None.

(** A fitted [BBCF] over [ratings] from the single bicluster
    [({0}, {1, 2})]: its neighbourhoods are those [_generate_neighborhood]
    builds. *)
Definition single_bicluster_model : Bbcf.BBCF :=
  Bbcf.mkBBCF (Trainset.mk 3 3) ratings
              (Bbcf.generate_neighborhood ratings [mkConcept [0] [1; 2]] 1 1%float
                                          weight_frequency false)
              ∅ ratings_user_means ratings_item_means user_based 5 None.



(** The 3x3 matrix of the reconstruction scenario. *)
Definition scenario : Fca.bmatrix :=
  [[true; true; false]; [true; true; true]; [false; true; true]].

(** The two concepts GreConD mines from [scenario]. *)
Definition scenario_concepts : list Fca.Concept :=
  [mkConcept [0; 1] [0; 1]; mkConcept [1; 2] [1; 2]].

(** A user-to-user similarity matrix over [ratings]; the similarity of
    users 1 and 2 could not be computed. *)
Definition ratings_similarity : fmatrix :=
  [[1; 0.5; 0.25]; [0.5; 1; nan]; [0.25; nan; 1]]%float.

(** A [BBCF] whose user 0 was given the neighbourhood of the others. *)
Definition outsider_model : Bbcf.BBCF :=
  Bbcf.mkBBCF (Trainset.mk 3 3) ratings {[ 0 := mkConcept [1; 2] [1; 2] ]} ∅
              ratings_user_means ratings_item_means user_based 5 None.

End Data.

(** ** Proof automation *)

(** Runs a computation one step further, once that step is known to
    succeed. *)
Ltac step_ok H := rewrite H; cbn [Py.assert mbind result_bind Py.bind].

(** Settles a goal by cases on the members of a list literal, from a
    membership hypothesis [H]. *)
Ltac by_members H :=
  repeat (apply elem_of_cons in H as [?|H]; [subst; simpl; first [lia|done]|]);
  by apply elem_of_nil in H.

(** * Properties *)

(** ** Sorted index sets *)

Section IndexSets.

Implicit Types (x y : nat) (l a b c : list nat).

Lemma elem_of_insert_sorted x y l : y ∈ Np.insert_sorted x l ↔ y = x ∨ y ∈ l.
Proof.
  induction l as [|z l IH]; simpl.
  - rewrite list_elem_of_singleton, elem_of_nil. tauto.
  - destruct (x <? z) eqn:Hlt; [by rewrite elem_of_cons|].
    destruct (x =? z) eqn:Heq.
    + apply Nat.eqb_eq in Heq. subst. rewrite elem_of_cons. tauto.
    + rewrite !elem_of_cons, IH. tauto.
Qed.

Lemma insert_sorted_sorted x l :
  StronglySorted lt l → StronglySorted lt (Np.insert_sorted x l).
Proof.
  induction 1 as [|z l Hs IH Hall]; simpl.
  - repeat constructor.
  - destruct (x <? z) eqn:Hlt.
    + apply Nat.ltb_lt in Hlt. constructor; [by constructor|].
      constructor; [done|]. eapply Forall_impl; [exact Hall|]. simpl. lia.
    + destruct (x =? z) eqn:Heq; [by constructor|].
      apply Nat.ltb_ge in Hlt. apply Nat.eqb_neq in Heq.
      constructor; [done|]. apply Forall_forall. intros y Hy.
      apply elem_of_insert_sorted in Hy as [->|Hy]; [lia|].
      by eapply Forall_forall in Hall.
Qed.

Lemma elem_of_unique x l : x ∈ Np.unique l ↔ x ∈ l.
Proof.
  unfold Np.unique. induction l as [|z l IH]; simpl; [done|].
  rewrite elem_of_insert_sorted, IH, elem_of_cons. tauto.
Qed.

Lemma unique_sorted l : StronglySorted lt (Np.unique l).
Proof.
  unfold Np.unique. induction l; simpl; [constructor|by apply insert_sorted_sorted].
Qed.

Lemma sorted_ext l1 l2 :
  StronglySorted lt l1 → StronglySorted lt l2 → (∀ x, x ∈ l1 ↔ x ∈ l2) → l1 = l2.
Proof.
  intros H1. revert l2. induction H1 as [|x l1 Hs1 IH Hall1]; intros l2 H2 Hext.
  - destruct l2 as [|y l2]; [done|].
    destruct (proj1 (elem_of_nil y) (proj2 (Hext y) ltac:(left))).
  - destruct H2 as [|y l2 Hs2 Hall2].
    { destruct (proj1 (elem_of_nil x) (proj1 (Hext x) ltac:(left))). }
    rewrite Forall_forall in Hall1, Hall2.
    assert (x = y) as ->.
    { pose proof (proj1 (Hext x) ltac:(left)) as Hx.
      pose proof (proj2 (Hext y) ltac:(left)) as Hy.
      apply elem_of_cons in Hx as [?|Hx]; [done|].
      apply elem_of_cons in Hy as [?|Hy]; [done|].
      apply Hall2 in Hx. apply Hall1 in Hy. lia. }
    f_equal. apply IH; [done|]. intros z. split; intros Hz.
    + pose proof (proj1 (Hext z) ltac:(by right)) as Hz'.
      apply elem_of_cons in Hz' as [->|?]; [|done]. apply Hall1 in Hz. lia.
    + pose proof (proj2 (Hext z) ltac:(by right)) as Hz'.
      apply elem_of_cons in Hz' as [->|?]; [|done]. apply Hall2 in Hz. lia.
Qed.

Lemma elem_of_union1d x a b : x ∈ Np.union1d a b ↔ x ∈ a ∨ x ∈ b.
Proof. unfold Np.union1d. by rewrite elem_of_unique, elem_of_app. Qed.

Lemma union1d_sorted a b : StronglySorted lt (Np.union1d a b).
Proof. apply unique_sorted. Qed.

Lemma union1d_comm a b : Np.union1d a b = Np.union1d b a.
Proof.
  apply sorted_ext; try apply union1d_sorted.
  intros x. rewrite !elem_of_union1d. tauto.
Qed.

Lemma union1d_assoc a b c :
  Np.union1d (Np.union1d a b) c = Np.union1d a (Np.union1d b c).
Proof.
  apply sorted_ext; try apply union1d_sorted.
  intros x. rewrite !elem_of_union1d. tauto.
Qed.

Lemma sorted_lt_NoDup l : StronglySorted lt l → NoDup l.
Proof.
  induction 1 as [|x l Hs IH Hall]; constructor; [|done].
  intros Hx. rewrite Forall_forall in Hall. apply Hall in Hx. lia.
Qed.

Lemma mem_true x l : Np.mem x l = true ↔ x ∈ l.
Proof.
  unfold Np.mem. rewrite existsb_exists. split.
  - intros (y & Hy & Heq). apply Nat.eqb_eq in Heq. subst. by apply list_elem_of_In.
  - intros Hx. exists x. split; [by apply list_elem_of_In|apply Nat.eqb_refl].
Qed.

Lemma elem_of_intersect1d x a b : x ∈ Np.intersect1d a b ↔ x ∈ a ∧ x ∈ b.
Proof.
  unfold Np.intersect1d. rewrite list_elem_of_In, filter_In, <- list_elem_of_In.
  by rewrite elem_of_unique, mem_true.
Qed.

Lemma intersect1d_NoDup a b : NoDup (Np.intersect1d a b).
Proof.
  unfold Np.intersect1d. apply NoDup_ListNoDup, List.NoDup_filter, NoDup_ListNoDup.
  apply sorted_lt_NoDup, unique_sorted.
Qed.

Lemma intersect1d_length a b : length (Np.intersect1d a b) ≤ length b.
Proof.
  apply NoDup_incl_length.
  - apply NoDup_ListNoDup, intersect1d_NoDup.
  - intros x Hx. apply list_elem_of_In. apply list_elem_of_In in Hx.
    by apply elem_of_intersect1d in Hx as [_ ?].
Qed.

End IndexSets.

(** ** Merging biclusters *)

Section Merge.

Import Common.

Implicit Types (x : nat) (l : list Concept) (A B C : Concept).

Lemma merge_fold l e i :
  fold_left
    (fun acc bicluster =>
       (Np.union1d (fst acc) (extent bicluster), Np.union1d (snd acc) (intent bicluster)))
    l (e, i)
  = (union_of extent l e, union_of intent l i).
Proof. revert e i. induction l as [|b l IH]; intros e i; simpl; [done|apply IH]. Qed.

Lemma merge_biclusters_eq l :
  merge_biclusters l = mkConcept (union_of extent l []) (union_of intent l []).
Proof. unfold merge_biclusters. by rewrite merge_fold. Qed.

Lemma elem_of_union_of side l acc x :
  x ∈ union_of side l acc ↔ x ∈ acc ∨ ∃ b, b ∈ l ∧ x ∈ side b.
Proof.
  unfold union_of. revert acc. induction l as [|b l IH]; intros acc; simpl.
  - split; [by left|]. intros [?|(b & Hb & _)]; [done|]. by apply elem_of_nil in Hb.
  - rewrite IH, elem_of_union1d. split.
    + intros [[?|?]|(b' & Hb' & ?)]; [by left|right..].
      * exists b. split; [by left|done].
      * exists b'. split; [by right|done].
    + intros [?|(b' & Hb' & ?)]; [by left; left|].
      apply elem_of_cons in Hb' as [->|?]; [by left; right|].
      right. by exists b'.
Qed.

Lemma union_of_sorted side l acc :
  StronglySorted lt acc → StronglySorted lt (union_of side l acc).
Proof.
  unfold union_of. revert acc. induction l as [|b l IH]; intros acc Hacc; simpl; [done|].
  apply IH, union1d_sorted.
Qed.

Lemma concept_ext A B :
  StronglySorted lt (extent A) → StronglySorted lt (intent A) →
  StronglySorted lt (extent B) → StronglySorted lt (intent B) →
  (∀ x, x ∈ extent A ↔ x ∈ extent B) → (∀ x, x ∈ intent A ↔ x ∈ intent B) →
  A = B.
Proof.
  destruct A as [eA iA], B as [eB iB]. simpl. intros.
  f_equal; by apply sorted_ext.
Qed.

Lemma merge_sorted l :
  StronglySorted lt (extent (merge_biclusters l))
  ∧ StronglySorted lt (intent (merge_biclusters l)).
Proof.
  rewrite merge_biclusters_eq. simpl. split; apply union_of_sorted; constructor.
Qed.

Lemma elem_of_merge_extent l x :
  x ∈ extent (merge_biclusters l) ↔ ∃ b, b ∈ l ∧ x ∈ extent b.
Proof.
  rewrite merge_biclusters_eq. simpl. rewrite elem_of_union_of.
  split; [intros [H|?]; [by apply elem_of_nil in H|done]|by right].
Qed.

Lemma elem_of_merge_intent l x :
  x ∈ intent (merge_biclusters l) ↔ ∃ b, b ∈ l ∧ x ∈ intent b.
Proof.
  rewrite merge_biclusters_eq. simpl. rewrite elem_of_union_of.
  split; [intros [H|?]; [by apply elem_of_nil in H|done]|by right].
Qed.

Lemma merge_ext l1 l2 :
  (∀ x, (∃ b, b ∈ l1 ∧ x ∈ extent b) ↔ (∃ b, b ∈ l2 ∧ x ∈ extent b)) →
  (∀ x, (∃ b, b ∈ l1 ∧ x ∈ intent b) ↔ (∃ b, b ∈ l2 ∧ x ∈ intent b)) →
  merge_biclusters l1 = merge_biclusters l2.
Proof.
  intros He Hi. apply concept_ext; try apply merge_sorted.
  - intros x. by rewrite !elem_of_merge_extent.
  - intros x. by rewrite !elem_of_merge_intent.
Qed.











(** The caller in [BBCF._generate_neighborhood] special-cases an empty
    selection: without a selected bicluster the neighbourhood is the
    empty bicluster and nothing is merged. *)
Lemma generate_neighborhood_for_no_selection dataset biclusters k threshold
    strategy force user_id :
  get_top_k_biclusters_for_user biclusters
    (get_indices_above_threshold (nth user_id dataset []) threshold) k strategy = [] →
  Bbcf.generate_neighborhood_for dataset biclusters k threshold strategy force user_id
  = mkConcept [] [].
Proof.
  intros Hsel. unfold Bbcf.generate_neighborhood_for. rewrite Hsel.
  destruct (negb _ && negb _); reflexivity.
Qed.

End Merge.

(** ** User/pattern scores *)

Section Scores.

Import Common.

Lemma Zpos_of_nat (n : nat) : n ≠ 0 → Zpos (Pos.of_nat n) = Z.of_nat n.
Proof. intros Hn. by rewrite <- positive_nat_Z, Nat2Pos.id. Qed.

Lemma user_pattern_similarity_range user pattern :
  (0 <= user_pattern_similarity user pattern
   ∧ user_pattern_similarity user pattern <= 1)%Q.
Proof.
  unfold user_pattern_similarity.
  destruct (length (intent pattern) =? 0) eqn:Hlen; [done|].
  apply Nat.eqb_neq in Hlen.
  pose proof (intersect1d_length user (intent pattern)) as Hle.
  unfold Qle. simpl. rewrite Zpos_of_nat by done. lia.
Qed.

(** C10.  [user_pattern_similarity] is a ratio in [0, 1]; an empty
    intent is answered by the guard with [0.0]; [weight_frequency] is
    the extent size times that ratio, [4.0] on the documented example. *)
Theorem user_pattern_similarity_unit_interval :
  (∀ user pattern,
     (0 <= user_pattern_similarity user pattern
      ∧ user_pattern_similarity user pattern <= 1)%Q)
  ∧ (∀ user extent, user_pattern_similarity user (mkConcept extent []) = 0%Q)
  ∧ (∀ user pattern,
       weight_frequency user pattern
       = (inject_Z (Z.of_nat (length (extent pattern)))
          * user_pattern_similarity user pattern)%Q)
  ∧ weight_frequency [1] (mkConcept [1; 2; 3; 4] [1]) = 4%Q.
Proof.
  split; [apply user_pattern_similarity_range|].
  split; [done|]. split; [done|]. reflexivity.
Qed.

End Scores.

(** ** The order on binary64 floats *)

Section FloatOrder.

Lemma SFcompare_antisym x y :
  SFcompare y x = option_map CompOpp (SFcompare x y).
Proof.
  destruct x as [sx|sx| |sx mx ex], y as [sy|sy| |sy my ey]; simpl; try done;
    try (by destruct sx); try (by destruct sy); try (by destruct sx, sy).
  destruct sx, sy; simpl; try done.
  - rewrite (Z.compare_antisym ey ex). destruct (ey ?= ex)%Z; simpl; try done.
    pose proof (Pos.compare_cont_antisym mx my Eq) as H. simpl in H.
    by rewrite <- H.
  - rewrite (Z.compare_antisym ey ex). destruct (ey ?= ex)%Z; simpl; try done.
    pose proof (Pos.compare_cont_antisym mx my Eq) as H. simpl in H.
    by rewrite <- H.
Qed.


Lemma isnan_spec x : Np.isnan x = true ↔ Prim2SF x = S754_nan.
Proof.
  unfold Np.isnan, is_nan. rewrite FloatAxioms.eqb_spec. unfold SFeqb.
  destruct (Prim2SF x) as [s|s| |s m e] eqn:Hx; simpl.
  - done.
  - by destruct s.
  - done.
  - rewrite Z.compare_refl, Pos.compare_cont_refl. by destruct s.
Qed.


Lemma ltb_false_leb x y :
  PrimFloat.ltb x y = false → Np.isnan x = false → Np.isnan y = false →
  PrimFloat.leb y x = true.
Proof.
  rewrite FloatAxioms.ltb_spec, FloatAxioms.leb_spec. unfold SFltb, SFleb. intros Hlt Hx Hy.
  rewrite SFcompare_antisym.
  assert (Prim2SF x ≠ S754_nan) as Hx' by (intros H; apply isnan_spec in H; congruence).
  assert (Prim2SF y ≠ S754_nan) as Hy' by (intros H; apply isnan_spec in H; congruence).
  destruct (SFcompare (Prim2SF x) (Prim2SF y)) as [[]|] eqn:Hc; simpl; try done.
  destruct (Prim2SF x), (Prim2SF y); simpl in Hc; try done.
Qed.


End FloatOrder.

(** ** In-place updates of a matrix *)

Section Set2.

Context {A : Type}.

Implicit Types (a : list (list A)) (x d : A).

Lemma length_set2 a i j x : length (Np.set2 a i j x) = length a.
Proof. unfold Np.set2. destruct (a !! i); [apply length_insert|done]. Qed.

Lemma row_set2 a i j x i' :
  nth i' (Np.set2 a i j x) []
  = if decide (i' = i) then <[j := x]> (nth i a []) else nth i' a [].
Proof.
  unfold Np.set2. destruct (a !! i) as [row|] eqn:Hrow.
  - rewrite (nth_lookup_Some a i [] row) by done.
    rewrite nth_lookup. case_decide as Hi.
    + subst. rewrite list_lookup_insert_eq; [done|by eapply lookup_lt_Some].
    + rewrite list_lookup_insert_ne by done. by rewrite <- nth_lookup.
  - case_decide as Hi; [|done]. subst.
    rewrite nth_lookup, Hrow. simpl. by destruct j.
Qed.

Lemma length_row_set2 a i j x i' :
  length (nth i' (Np.set2 a i j x) []) = length (nth i' a []).
Proof.
  rewrite row_set2. case_decide; [|done]. subst. apply length_insert.
Qed.

Lemma nth_set2_eq a i j x d :
  j < length (nth i a []) → nth j (nth i (Np.set2 a i j x) []) d = x.
Proof.
  intros Hj. rewrite row_set2. rewrite decide_True by done.
  rewrite nth_lookup, list_lookup_insert_eq; done.
Qed.

Lemma nth_set2_ne a i j x d i' j' :
  i' ≠ i ∨ j' ≠ j → nth j' (nth i' (Np.set2 a i j x) []) d = nth j' (nth i' a []) d.
Proof.
  intros Hne. rewrite row_set2. case_decide as Hi; [|done]. subst.
  destruct Hne as [?|Hj]; [done|].
  by rewrite !nth_lookup, list_lookup_insert_ne.
Qed.

End Set2.

(** ** The cached similarity lookup *)

Section Similarity.

Import Common.

Implicit Types (m dataset : fmatrix) (means : list float) (f : strategy).

Lemma get_similarity_hit i j dataset means m f :
  Np.isnan (Np.fget m i j) = false →
  get_similarity i j dataset means (Some m) f = mkLookup (Np.fget m i j) (Some m) [].
Proof. intros Hhit. unfold get_similarity. by rewrite Hhit. Qed.

Lemma get_similarity_identity_miss i dataset means m f :
  Np.isnan (Np.fget m i i) = true →
  get_similarity i i dataset means (Some m) f
  = mkLookup 1%float (Some (Np.set2 (Np.set2 m i i 1%float) i i 1%float)) [].
Proof. intros Hmiss. unfold get_similarity. by rewrite Hmiss, Nat.eqb_refl. Qed.

Lemma get_similarity_identity_uncached i dataset means f :
  get_similarity i i dataset means None f = mkLookup 1%float None [].
Proof. unfold get_similarity. by rewrite Nat.eqb_refl. Qed.

Lemma get_similarity_miss i j dataset means m f :
  i ≠ j → Np.isnan (Np.fget m i j) = true →
  get_similarity i j dataset means (Some m) f
  = mkLookup (f dataset i j means)
             (Some (Np.set2 (Np.set2 m i j (f dataset i j means)) j i
                            (f dataset i j means)))
             [(i, j)].
Proof.
  intros Hij Hmiss. unfold get_similarity. rewrite Hmiss.
  apply Nat.eqb_neq in Hij. by rewrite Hij.
Qed.

Lemma get_similarity_uncached i j dataset means f :
  i ≠ j →
  get_similarity i j dataset means None f = mkLookup (f dataset i j means) None [(i, j)].
Proof. intros Hij. unfold get_similarity. apply Nat.eqb_neq in Hij. by rewrite Hij. Qed.

(** The symmetric fill: after [m[i, j] = s; m[j, i] = s] both entries
    hold [s] and every other entry is the old one. *)
Lemma symmetric_fill m i j s :
  i < length m → j < length m → Forall (fun row => length row = length m) m →
  Np.fget (Np.set2 (Np.set2 m i j s) j i s) i j = s
  ∧ Np.fget (Np.set2 (Np.set2 m i j s) j i s) j i = s
  ∧ ∀ a b, (a ≠ i ∨ b ≠ j) → (a ≠ j ∨ b ≠ i) →
      Np.fget (Np.set2 (Np.set2 m i j s) j i s) a b = Np.fget m a b.
Proof.
  intros Hi Hj Hsq. unfold Np.fget.
  assert (∀ r, r < length m → length (nth r m []) = length m) as Hrow.
  { intros r Hr. rewrite Forall_forall in Hsq. apply Hsq.
    destruct (nth_lookup_or_length m r []) as [Hl|?]; [|lia].
    by eapply list_elem_of_lookup_2. }
  split; [|split].
  - destruct (decide (i = j)) as [->|Hne].
    + apply nth_set2_eq. rewrite length_row_set2, Hrow; done.
    + rewrite nth_set2_ne by (by left). apply nth_set2_eq. by rewrite Hrow.
  - apply nth_set2_eq. rewrite length_row_set2, Hrow; done.
  - intros a b Hab Hba. by rewrite !nth_set2_ne.
Qed.

(** C2, as the code has it.  [get_similarity] consults the cache first:
    with a cache whose entry [(i, j)] is a number it returns that entry,
    also for [i = j], and neither calls the strategy nor writes.
    Otherwise the value is [1.0] for [i = j], without a call of the
    strategy, and the strategy's value (one call) for [i <> j]; when a
    cache was passed the value is written at [(i, j)] and [(j, i)], for
    [i = j] too. *)
Theorem get_similarity_cache_or_compute i j dataset means f :
  let computed := if i =? j then 1%float else f dataset i j means in
  let calls := if i =? j then [] else [(i, j)] in
  get_similarity i j dataset means None f = mkLookup computed None calls
  ∧ ∀ m,
      (Np.isnan (Np.fget m i j) = false →
       get_similarity i j dataset means (Some m) f
       = mkLookup (Np.fget m i j) (Some m) [])
      ∧ (Np.isnan (Np.fget m i j) = true →
         get_similarity i j dataset means (Some m) f
         = mkLookup computed
                    (Some (Np.set2 (Np.set2 m i j computed) j i computed)) calls)
      ∧ (i < length m → j < length m →
         Forall (fun row => length row = length m) m →
         Np.fget (Np.set2 (Np.set2 m i j computed) j i computed) i j = computed
         ∧ Np.fget (Np.set2 (Np.set2 m i j computed) j i computed) j i = computed).
Proof.
  intros computed calls. subst computed calls. destruct (i =? j) eqn:Hij.
  - apply Nat.eqb_eq in Hij. subst j. split; [apply get_similarity_identity_uncached|].
    intros m. split; [apply get_similarity_hit|].
    split; [apply get_similarity_identity_miss|].
    intros Hi _ Hsq. by destruct (symmetric_fill m i i 1%float Hi Hi Hsq) as (? & ? & _).
  - apply Nat.eqb_neq in Hij. split; [by apply get_similarity_uncached|].
    intros m. split; [apply get_similarity_hit|].
    split; [by apply get_similarity_miss|].
    intros Hi Hj Hsq.
    by destruct (symmetric_fill m i j (f dataset i j means) Hi Hj Hsq) as (? & ? & _).
Qed.

(** On the fixtures of [TestGetSimilarity]: a miss on [(0, 1)] calls the
    strategy once and fills both entries; a hit returns the cached
    [0.2] untouched. *)
Lemma get_similarity_cache_or_compute_on_tests :
  strategy_calls (get_similarity 0 1 Data.similarity_dataset [] (Some Data.empty_cache)
                                 cosine_similarity) = [(0, 1)]
  ∧ (∃ m, similarity_matrix
            (get_similarity 0 1 Data.similarity_dataset [] (Some Data.empty_cache)
                            cosine_similarity) = Some m
          ∧ Np.fget m 0 1 = cosine_similarity Data.similarity_dataset 0 1 []
          ∧ Np.fget m 1 0 = cosine_similarity Data.similarity_dataset 0 1 [])
  ∧ get_similarity 0 1 Data.similarity_dataset [] (Some Data.computed_cache)
                   cosine_similarity
    = mkLookup 0.2%float (Some Data.computed_cache) [].
Proof.
  destruct (get_similarity_cache_or_compute 0 1 Data.similarity_dataset []
              cosine_similarity) as [_ Hcached].
  split; [|split].
  - destruct (Hcached Data.empty_cache) as (_ & Hmiss & _).
    rewrite Hmiss; reflexivity.
  - destruct (Hcached Data.empty_cache) as (_ & Hmiss & Hfill).
    eexists. split; [rewrite Hmiss; reflexivity|].
    apply Hfill; [simpl; lia|simpl; lia|].
    repeat constructor.
  - destruct (Hcached Data.computed_cache) as (Hhit & _).
    rewrite Hhit; reflexivity.
Defined.

(** C2 as stated fails twice on the tests' own fixtures: with a cached
    [0.1] at [(0, 0)] the call for [i = j = 0] returns [0.1], not
    [1.0]; and with that entry missing the call writes [1.0] into the
    cache instead of leaving it alone. *)
Lemma get_similarity_identity_goes_through_cache :
  similarity (get_similarity 0 0 Data.similarity_dataset [] (Some Data.computed_cache)
                             pearson_similarity) = 0.1%float
  ∧ PrimFloat.eqb 0.1 1 = false
  ∧ similarity_matrix
      (get_similarity 0 0 Data.similarity_dataset [] (Some Data.diagonal_missing_cache)
                      pearson_similarity)
    = Some [[1; 0.2; 0.3]; [0.4; nan; 0.6]; [0.7; 0.8; nan]]%float
  ∧ Np.isnan (Np.fget Data.diagonal_missing_cache 0 0) = true.
Proof. repeat split; vm_compute; reflexivity. Qed.

End Similarity.

(** ** The three similarities *)

Section Overlap.

Import Common.

Implicit Types (dataset : fmatrix) (means : list float).

Lemma cosine_similarity_eps_eq dataset u v means e :
  cosine_similarity_eps dataset u v means e
  = if length (overlap dataset u v) =? 0 then nan
    else
      let common_u := Np.take (nth u dataset []) (overlap dataset u v) in
      let common_v := Np.take (nth v dataset []) (overlap dataset u v) in
      (Np.dot common_u common_v
       / Np.max (PrimFloat.sqrt (Np.dot common_u common_u * Np.dot common_v common_v)) e)%float.
Proof. reflexivity. Qed.

Lemma pearson_similarity_eps_eq dataset u v means e :
  pearson_similarity_eps dataset u v means e
  = if length (overlap dataset u v) =? 0 then nan
    else
      let common_u :=
        Np.sub_scalar (Np.take (nth u dataset []) (overlap dataset u v)) (nth u means nan) in
      let common_v :=
        Np.sub_scalar (Np.take (nth v dataset []) (overlap dataset u v)) (nth v means nan) in
      (Np.dot common_u common_v
       / Np.max (PrimFloat.sqrt (Np.dot common_u common_u * Np.dot common_v common_v)) e)%float.
Proof. reflexivity. Qed.

Lemma adjusted_cosine_similarity_eps_eq dataset u v means e :
  adjusted_cosine_similarity_eps dataset u v means e
  = if length (overlap dataset u v) =? 0 then nan
    else
      let common_means := Np.take means (overlap dataset u v) in
      let common_u :=
        Np.sub_vec (Np.take (nth u dataset []) (overlap dataset u v)) common_means in
      let common_v :=
        Np.sub_vec (Np.take (nth v dataset []) (overlap dataset u v)) common_means in
      (Np.dot common_u common_v
       / Np.max (PrimFloat.sqrt (Np.dot common_u common_u * Np.dot common_v common_v)) e)%float.
Proof. reflexivity. Qed.










End Overlap.

(** ** The estimators *)

Section Estimators.

Import Common.

Lemma only_raises_bind {A B : Type} (P : Py.exn → Prop) (m : result A)
    (k : A → result B) :
  Py.only_raises P m → (∀ a, Py.only_raises P (k a)) → Py.only_raises P (m ≫= k).
Proof. destruct m; simpl; auto. Qed.

Lemma only_raises_weaken {A : Type} (P Q : Py.exn → Prop) (r : result A) :
  (∀ e, P e → Q e) → Py.only_raises P r → Py.only_raises Q r.
Proof. destruct r; simpl; auto. Qed.

Lemma index_only_raises {A : Type} (l : list A) i :
  Py.only_raises (fun e => e = Py.IndexError) (Py.index l i).
Proof. unfold Py.index. by destruct (l !! i). Qed.

Lemma take_checked_only_raises {A : Type} (a : list A) idx :
  Py.only_raises (fun e => e = Py.IndexError) (Np.take_checked a idx).
Proof.
  induction idx as [|p idx IH]; simpl; [done|].
  apply only_raises_bind; [apply index_only_raises|]. intros x.
  apply only_raises_bind; [apply IH|]. by intros xs.
Qed.

Lemma mapM_only_raises {A B : Type} (P : Py.exn → Prop) (g : A → result B) l :
  (∀ a, Py.only_raises P (g a)) → Py.only_raises P (mapM g l).
Proof.
  intros Hg. induction l as [|a l IH]; simpl; [done|].
  apply only_raises_bind; [apply Hg|]. intros b.
  apply only_raises_bind; [apply IH|]. by intros bs.
Qed.

(** The weighted rating of [BBCF.estimate] can only fail on an index:
    the quotient of the two sums never raises, so the handler that
    turns a [ZeroDivisionError] into "Sum of similarities is zero."
    never runs. *)
Lemma estimate_weighted_only_raises self s ratings similarities means :
  Py.only_raises (fun e => e = Py.IndexError)
    (Bbcf.estimate_weighted self s ratings similarities means).
Proof.
  unfold Bbcf.estimate_weighted.
  repeat (apply only_raises_bind;
          [first [apply take_checked_only_raises|apply index_only_raises]|intros ?]).
  simpl. done.
Qed.

Lemma estimate_never_reports_zero_sum self user item :
  Py.only_raises (fun e => e ≠ Bbcf.zero_sum_failure) (fst (Bbcf.estimate self user item)).
Proof.
  unfold Bbcf.estimate.
  destruct (Bbcf.estimate_slices self user item) as [s|e|] eqn:Hs; simpl; [| |done].
  - unfold Bbcf.estimate_prediction.
    apply only_raises_bind; [|intros valid].
    + unfold Bbcf.estimate_valid_neighbors.
      apply only_raises_bind; [by destruct (_ !! user)|intros m].
      apply only_raises_bind;
        [eapply only_raises_weaken, index_only_raises; by intros ? ->|intros sims].
      apply only_raises_bind;
        [eapply only_raises_weaken;
         [|apply mapM_only_raises; intros row; apply index_only_raises];
         by intros ? ->|intros rs].
      apply only_raises_bind;
        [eapply only_raises_weaken, take_checked_only_raises; by intros ? ->|intros ms].
      by destruct (negb _).
    + eapply only_raises_weaken, estimate_weighted_only_raises. by intros ? ->.
  - revert Hs. unfold Bbcf.estimate_slices.
    destruct (negb _); [intros [= <-]; done|].
    destruct (_ !! user) as [c|]; [|intros [= <-]; done].
    destruct (_ || _); [intros [= <-]; done|].
    destruct (_ || _); [intros [= <-]; done|].
    intros Hs.
    assert (Py.only_raises (fun e => e = Py.IndexError)
              (Raise e : result Bbcf.slices)) as He; [|by rewrite He].
    rewrite <- Hs.
    repeat (apply only_raises_bind;
            [first [apply take_checked_only_raises|apply index_only_raises
                   |apply mapM_only_raises; intros ?; apply take_checked_only_raises]
            |intros ?]).
    done.
Qed.

Lemma estimate_not_enough_neighbors self user item c :
  Trainset.knows_user (Bbcf.trainset self) user = true →
  Trainset.knows_item (Bbcf.trainset self) item = true →
  Bbcf.neighborhood self !! user = Some c →
  Np.any_nonzero (extent c) = false ∨ Np.any_nonzero (intent c) = false →
  Bbcf.estimate self user item = (Raise Bbcf.not_enough_neighbors, self).
Proof.
  intros Hu Hi Hc Hany. unfold Bbcf.estimate, Bbcf.estimate_slices.
  rewrite Hu, Hi, Hc. simpl.
  by destruct Hany as [-> | ->]; [|rewrite orb_true_r].
Qed.





(** C9.  [BBCF.estimate] tests emptiness by [extent.any()] and
    [intent.any()], which ask for a nonzero entry.  A neighbourhood
    whose extent is exactly [0], or whose intent is exactly [0], is
    taken for empty: the call fails with "Not enough neighbors."
    although index 0 is a member.  A fitted model shows it: over the
    single bicluster ({0}, {1, 2}), user 0 and item 1 lie in user 0's
    neighbourhood, and the estimate fails. *)
Theorem estimate_takes_index_zero_for_empty :
  (∃ self user item c,
     Trainset.knows_user (Bbcf.trainset self) user = true
     ∧ Trainset.knows_item (Bbcf.trainset self) item = true
     ∧ Bbcf.neighborhood self !! user = Some c
     ∧ user ∈ extent c ∧ item ∈ intent c
     ∧ Bbcf.estimate self user item = (Raise Bbcf.not_enough_neighbors, self))
  ∧ (∀ self user item c,
       Trainset.knows_user (Bbcf.trainset self) user = true →
       Trainset.knows_item (Bbcf.trainset self) item = true →
       Bbcf.neighborhood self !! user = Some c →
       extent c = [0] ∨ intent c = [0] →
       Bbcf.estimate self user item = (Raise Bbcf.not_enough_neighbors, self)).
Proof.
  assert (∀ self user item c,
            Trainset.knows_user (Bbcf.trainset self) user = true →
            Trainset.knows_item (Bbcf.trainset self) item = true →
            Bbcf.neighborhood self !! user = Some c →
            extent c = [0] ∨ intent c = [0] →
            Bbcf.estimate self user item = (Raise Bbcf.not_enough_neighbors, self))
    as Hzero.
  { intros self user item c Hu Hi Hc Hz.
    apply (estimate_not_enough_neighbors self user item c Hu Hi Hc).
    by destruct Hz as [-> | ->]; [left|right]. }
  split; [|exact Hzero].
  exists Data.single_bicluster_model, 0, 1, (mkConcept [0] [1; 2]).
  split; [reflexivity|]. split; [reflexivity|]. split; [reflexivity|].
  split; [by left|]. split; [by left|].
  apply (Hzero _ _ _ (mkConcept [0] [1; 2])); [reflexivity..|by left].
Qed.

Lemma estimate_takes_index_zero_for_empty_model :
  Bbcf.neighborhood Data.single_bicluster_model !! 0 = Some (mkConcept [0] [1; 2])
  ∧ Bbcf.estimate Data.single_bicluster_model 0 1
    = (Raise Bbcf.not_enough_neighbors, Data.single_bicluster_model).
Proof.
  split; [reflexivity|].
  apply (proj2 estimate_takes_index_zero_for_empty _ _ _ (mkConcept [0] [1; 2]));
    [reflexivity..|by left].
Defined.

(** C3 on the code.  In [Data.cancelling_model] the two neighbours of
    user 0 that rated item 0 have the opposite Pearson similarities
    [0.7071...] and [-0.7071...]: both pass the validity filter and
    their sum is exactly zero.  [BBCF.estimate] divides by that sum and
    returns infinity as the prediction; it does not fail. *)
Lemma estimate_divides_by_zero_sum :
  (∃ m, Bbcf.similarity_matrix (snd (Bbcf.estimate Data.cancelling_model 0 0)) !! 0
        = Some m
        ∧ nth 0 m [] = [1; 0.70710678118654746; -0.70710678118654746]%float)
  ∧ Knn.weighted_sums [1; 5]%float [-0.70710678118654746; 0.70710678118654746]%float
                      [3; 3]%float
    = (0%float, 2.8284271247461898%float)
  ∧ fst (Bbcf.estimate Data.cancelling_model 0 0) = Ok (infinity, ∅).
Proof.
  split; [eexists; split; vm_compute; reflexivity|].
  split; vm_compute; reflexivity.
Qed.

End Estimators.

(** ** Binary matrices *)

Section BinaryMatrices.

Import Fca.

Implicit Types (M U : bmatrix) (r c : nat) (rows cols Y D : list nat).

(** *** Reading cells *)

Lemma bget_true_in_range M r c :
  bget M r c = true → r < shape0 M ∧ c < length (nth r M []).
Proof.
  unfold bget, shape0. intros H. split.
  - destruct (decide (r < length M)) as [|Hr]; [done|].
    rewrite (nth_overflow M) in H by lia. by destruct c.
  - destruct (decide (c < length (nth r M []))) as [|Hc]; [done|].
    rewrite (nth_overflow (nth r M [])) in H by lia. done.
Qed.

Lemma ndim2_row M r : ndim2 M = true → r < shape0 M → length (nth r M []) = shape1 M.
Proof.
  unfold ndim2, shape0. rewrite forallb_forall. intros Hrect Hr.
  apply Nat.eqb_eq, Hrect, nth_In, Hr.
Qed.

Lemma bget_true_in_shape M r c :
  ndim2 M = true → bget M r c = true → r < shape0 M ∧ c < shape1 M.
Proof.
  intros Hrect H. apply bget_true_in_range in H as [Hr Hc].
  by rewrite ndim2_row in Hc.
Qed.

(** *** The transpose *)

Lemma shape0_T M : shape0 (T M) = shape1 M.
Proof. unfold T, Np.transpose, shape0. by rewrite length_map, length_seq. Qed.

Lemma nth_map_default {A B : Type} (g : A → B) (l : list A) n (d : A) (e : B) :
  g d = e → nth n (map g l) e = g (nth n l d).
Proof. intros <-. apply map_nth. Qed.

Lemma nth_map_seq {B : Type} (g : nat → B) n k (d : B) :
  k < n → nth k (map g (seq 0 n)) d = g k.
Proof.
  intros Hk. rewrite (nth_indep _ d (g 0)) by (by rewrite length_map, length_seq).
  by rewrite map_nth, seq_nth.
Qed.

Lemma bget_T M r c : c < shape1 M → bget (T M) c r = bget M r c.
Proof.
  intros Hc. unfold bget, T, Np.transpose. rewrite nth_map_seq by done.
  apply (nth_map_default (fun row => nth c row false) M r []). by destruct c.
Qed.

(** *** The closure kernel *)

Lemma elem_of_it M Y r :
  r ∈ _it M Y ↔ r < shape0 M ∧ ∀ c, c ∈ Y → bget M r c = true.
Proof.
  unfold _it. rewrite list_elem_of_In, filter_In, in_seq, forallb_forall.
  setoid_rewrite <- list_elem_of_In. split; intros [? ?]; (split; [lia|done]).
Qed.

Lemma it_NoDup M Y : NoDup (_it M Y).
Proof. unfold _it. apply NoDup_ListNoDup, List.NoDup_filter, seq_NoDup. Qed.

Lemma length_filter_le {A : Type} (p : A → bool) (l : list A) :
  length (List.filter p l) ≤ length l.
Proof. induction l as [|x l IH]; simpl; [done|]. destruct (p x); simpl; lia. Qed.

Lemma it_length M Y : length (_it M Y) ≤ shape0 M.
Proof.
  unfold _it. etrans; [apply length_filter_le|]. by rewrite length_seq.
Qed.

(** *** Counting the uncovered cells of a rectangle *)

Lemma count_loop {A : Type} (p : A → bool) (l : list A) (acc : nat) :
  fold_left (fun n x => if p x then S n else n) l acc
  = acc + length (List.filter p l).
Proof.
  revert acc. induction l as [|x l IH]; intros acc; simpl; [lia|].
  rewrite IH. destruct (p x); simpl; lia.
Qed.

Lemma submatrix_intersection_size_eq rows cols U :
  submatrix_intersection_size rows cols U
  = list_sum (map (fun r => length (List.filter (bget U r) cols)) rows).
Proof.
  unfold submatrix_intersection_size.
  assert (∀ acc,
            fold_left
              (fun n row =>
                 fold_left (fun n column => if bget U row column then S n else n) cols n)
              rows acc
            = acc + list_sum (map (fun r => length (List.filter (bget U r) cols)) rows))
    as Hloop; [|apply Hloop].
  induction rows as [|r rows IH]; intros acc; simpl; [lia|].
  rewrite IH, count_loop. lia.
Qed.

Lemma submatrix_intersection_size_le rows cols U :
  submatrix_intersection_size rows cols U ≤ length rows * length cols.
Proof.
  rewrite submatrix_intersection_size_eq.
  induction rows as [|r rows IH]; simpl; [done|].
  pose proof (length_filter_le (bget U r) cols). lia.
Qed.

Lemma submatrix_intersection_size_pos rows cols U :
  0 < submatrix_intersection_size rows cols U
  ↔ ∃ r c, r ∈ rows ∧ c ∈ cols ∧ bget U r c = true.
Proof.
  rewrite submatrix_intersection_size_eq. induction rows as [|r rows IH]; simpl.
  - split; [lia|]. intros (r & c & Hr & _). by apply elem_of_nil in Hr.
  - split.
    + intros Hpos.
      destruct (List.filter (bget U r) cols) as [|c cs] eqn:Hf.
      * simpl in Hpos. apply IH in Hpos as (r' & c & ? & ? & ?).
        exists r', c. split; [by right|done].
      * assert (In c (List.filter (bget U r) cols)) as Hc by (rewrite Hf; by left).
        apply filter_In in Hc as [Hc ?]. exists r, c.
        split; [by left|]. split; [by apply list_elem_of_In|done].
    + intros (r' & c & Hr & Hc & Hcell). apply elem_of_cons in Hr as [->|Hr].
      * assert (In c (List.filter (bget U r) cols)) as Hin.
        { apply filter_In. split; [by apply list_elem_of_In|done]. }
        destruct (List.filter (bget U r) cols); [done|simpl; lia].
      * assert (0 < list_sum (map (fun r => length (List.filter (bget U r) cols)) rows))
          by (apply IH; eauto).
        lia.
Qed.

(** *** Erasing a rectangle *)

Lemma nth_insert_false (row : list bool) c0 c :
  nth c (<[c0 := false]> row) false = nth c row false && negb (c =? c0).
Proof.
  destruct (decide (c = c0)) as [->|Hne].
  - rewrite Nat.eqb_refl, andb_false_r.
    destruct (decide (c0 < length row)) as [Hlt|Hge].
    + by rewrite nth_lookup, list_lookup_insert_eq.
    + apply nth_overflow. rewrite length_insert. lia.
  - apply Nat.eqb_neq in Hne as Hne'. rewrite Hne', andb_true_r.
    by rewrite !nth_lookup, list_lookup_insert_ne.
Qed.

Lemma bget_set2_false U r0 c0 r c :
  bget (Np.set2 U r0 c0 false) r c = bget U r c && negb ((r =? r0) && (c =? c0)).
Proof.
  unfold bget. rewrite row_set2. case_decide as Hr.
  - subst. rewrite Nat.eqb_refl. simpl. apply nth_insert_false.
  - apply Nat.eqb_neq in Hr. rewrite Hr. simpl. by rewrite andb_true_r.
Qed.

Lemma bget_erase_row U r0 cols r c :
  bget (fold_left (fun U column => Np.set2 U r0 column false) cols U) r c
  = bget U r c && negb ((r =? r0) && Np.mem c cols).
Proof.
  revert U. induction cols as [|c0 cols IH]; intros U; simpl.
  - by rewrite andb_false_r, andb_true_r.
  - rewrite IH, bget_set2_false. unfold Np.mem. simpl.
    destruct (bget U r c), (r =? r0), (c =? c0), (existsb _ cols); done.
Qed.

Lemma bget_erase rows cols U r c :
  bget (erase_submatrix_values rows cols U) r c
  = bget U r c && negb (Np.mem r rows && Np.mem c cols).
Proof.
  unfold erase_submatrix_values. revert U.
  induction rows as [|r0 rows IH]; intros U; simpl.
  - by rewrite andb_true_r.
  - rewrite IH, bget_erase_row.
    change (Np.mem r (r0 :: rows)) with ((r =? r0) || Np.mem r rows).
    destruct (bget U r c), (r =? r0), (Np.mem c cols), (Np.mem r rows); done.
Qed.

Lemma same_shape_refl M : same_shape M M.
Proof. by split. Qed.

Lemma same_shape_trans U V M : same_shape U V → same_shape V M → same_shape U M.
Proof.
  intros [Hl Hr] [Hl' Hr']. split; [congruence|]. intros r. by rewrite Hr.
Qed.

Lemma same_shape_erase rows cols U : same_shape (erase_submatrix_values rows cols U) U.
Proof.
  unfold erase_submatrix_values. revert U.
  induction rows as [|r0 rows IH]; intros U; simpl; [apply same_shape_refl|].
  eapply same_shape_trans; [apply IH|]. clear IH.
  revert U. induction cols as [|c0 cols IH]; intros U; simpl; [apply same_shape_refl|].
  eapply same_shape_trans; [apply IH|]. split; [apply length_set2|].
  intros r. apply length_row_set2.
Qed.

Lemma same_shape_shapes U M :
  same_shape U M → shape0 U = shape0 M ∧ shape1 U = shape1 M ∧ size U = size M.
Proof.
  intros [Hl Hr]. unfold size, shape0, shape1.
  assert (length (hd [] U) = length (hd [] M)) as Hh.
  { specialize (Hr 0). by destruct U, M. }
  rewrite Hl, Hh. done.
Qed.

Lemma same_shape_ndim2 U M : same_shape U M → ndim2 M = true → ndim2 U = true.
Proof.
  intros Hs Hrect. pose proof (same_shape_shapes U M Hs) as (H0 & H1 & _).
  unfold ndim2. apply forallb_forall. intros row Hin.
  apply (In_nth _ _ []) in Hin as (r & Hr & <-). apply Nat.eqb_eq.
  destruct Hs as [Hl Hrows]. rewrite Hrows, H1. apply ndim2_row; [done|].
  unfold shape0. lia.
Qed.

(** *** Counting true cells *)

Lemma count_row_le (row' row : list bool) :
  length row' = length row →
  (∀ c, nth c row' false = true → nth c row false = true) →
  length (List.filter id row') ≤ length (List.filter id row).
Proof.
  revert row. induction row' as [|b' row' IH]; intros [|b row] Hlen Hle;
    simpl in *; try lia.
  assert (length (List.filter id row') ≤ length (List.filter id row)) as Hrest.
  { apply IH; [lia|]. intros c. apply (Hle (S c)). }
  pose proof (Hle 0) as H0. simpl in H0.
  destruct b', b; simpl; first [lia|by specialize (H0 eq_refl)].
Qed.

Lemma count_row_lt (row' row : list bool) c0 :
  length row' = length row →
  (∀ c, nth c row' false = true → nth c row false = true) →
  nth c0 row false = true → nth c0 row' false = false →
  length (List.filter id row') < length (List.filter id row).
Proof.
  revert row c0. induction row' as [|b' row' IH]; intros [|b row] c0 Hlen Hle Ht Hf;
    simpl in *; try lia.
  - by destruct c0.
  - assert (length (List.filter id row') ≤ length (List.filter id row)) as Hrest.
    { apply count_row_le; [lia|]. intros c. apply (Hle (S c)). }
    pose proof (Hle 0) as H0. simpl in H0.
    destruct c0 as [|c0].
    + subst. simpl. lia.
    + assert (length (List.filter id row') < length (List.filter id row)) as Hlt.
      { apply (IH row c0); [lia| |done..]. intros c. apply (Hle (S c)). }
      destruct b', b; simpl; first [lia|by specialize (H0 eq_refl)].
Qed.

Lemma count_nonzero_le U M :
  same_shape U M → below U M → count_nonzero U ≤ count_nonzero M.
Proof.
  unfold count_nonzero, below, bget.
  revert M. induction U as [|row' U IH]; intros [|row M] [Hl Hr] Hle; simpl in *;
    try lia.
  assert (length (List.filter id row') ≤ length (List.filter id row)).
  { apply count_row_le; [apply (Hr 0)|]. intros c. apply (Hle 0). }
  assert (list_sum (map (fun row => length (List.filter id row)) U)
          ≤ list_sum (map (fun row => length (List.filter id row)) M)).
  { apply IH; [split; [lia|intros r; apply (Hr (S r))]|].
    intros r c. apply (Hle (S r)). }
  lia.
Qed.

Lemma count_nonzero_lt U M r0 c0 :
  same_shape U M → below U M →
  bget M r0 c0 = true → bget U r0 c0 = false →
  count_nonzero U < count_nonzero M.
Proof.
  unfold count_nonzero, below, bget.
  revert M r0. induction U as [|row' U IH]; intros [|row M] r0 [Hl Hr] Hle Ht Hf;
    simpl in *; try lia.
  - by destruct r0, c0.
  - assert (length (List.filter id row') ≤ length (List.filter id row)) as Hrow.
    { apply count_row_le; [apply (Hr 0)|]. intros c. apply (Hle 0). }
    assert (list_sum (map (fun row => length (List.filter id row)) U)
            ≤ list_sum (map (fun row => length (List.filter id row)) M)) as Hrest.
    { apply (count_nonzero_le U M); [split; [lia|intros r; apply (Hr (S r))]|].
      intros r c. apply (Hle (S r)). }
    destruct r0 as [|r0].
    + assert (length (List.filter id row') < length (List.filter id row)).
      { apply (count_row_lt row' row c0); [apply (Hr 0)| |done..].
        intros c. apply (Hle 0). }
      lia.
    + assert (list_sum (map (fun row => length (List.filter id row)) U)
              < list_sum (map (fun row => length (List.filter id row)) M)).
      { apply (IH M r0); [split; [lia|intros r; apply (Hr (S r))]| |done..].
        intros r c. apply (Hle (S r)). }
      lia.
Qed.

Lemma count_nonzero_zero U : count_nonzero U = 0 ↔ ∀ r c, bget U r c = false.
Proof.
  unfold count_nonzero, bget. induction U as [|row U IH]; simpl.
  - split; [|done]. intros _ r c. by destruct r, c.
  - split.
    + intros Hz. assert (length (List.filter id row) = 0) as Hrow by lia.
      assert (list_sum (map (fun row => length (List.filter id row)) U) = 0) as Hrest
        by lia.
      intros [|r] c; [|by apply IH].
      destruct (nth c row false) eqn:Hc; [|done].
      assert (In true (List.filter id row)) as Hin.
      { apply filter_In. split; [|done]. rewrite <- Hc. apply nth_In.
        destruct (decide (c < length row)); [done|].
        rewrite nth_overflow in Hc by lia. done. }
      by destruct (List.filter id row).
    + intros Hall.
      assert (list_sum (map (fun row => length (List.filter id row)) U) = 0) as ->.
      { apply IH. intros r c. apply (Hall (S r) c). }
      assert (List.filter id row = []) as ->; [|done].
      destruct (List.filter id row) as [|b bs] eqn:Hf; [done|].
      assert (In b (List.filter id row)) as Hin by (rewrite Hf; by left).
      apply filter_In in Hin as [Hin Hb]. destruct b; [|done].
      apply (In_nth _ _ false) in Hin as (c & _ & Hc).
      specialize (Hall 0 c). simpl in Hall. congruence.
Qed.

Lemma count_nonzero_pos U : 0 < count_nonzero U → ∃ r c, bget U r c = true.
Proof.
  unfold count_nonzero, bget. induction U as [|row U IH]; simpl; [lia|].
  intros Hpos. destruct (List.filter id row) as [|b bs] eqn:Hf.
  - simpl in Hpos. destruct (IH Hpos) as (r & c & Hc). by exists (S r), c.
  - assert (In b (List.filter id row)) as Hin by (rewrite Hf; by left).
    apply filter_In in Hin as [Hin Hb]. destruct b; [|done].
    apply (In_nth _ _ false) in Hin as (c & _ & Hc). by exists 0, c.
Qed.

End BinaryMatrices.

(** ** GreConD *)

Section GreConD.

Import Fca.

Variable M : bmatrix.
Hypothesis M_ndim2 : ndim2 M = true.

Implicit Types (U : bmatrix) (F : list Concept) (D : list nat) (V fuel : nat).

Local Arguments candidate : simpl never.
Local Arguments best_candidate : simpl never.

Lemma candidate_useful U D j D' V :
  candidate M (T M) U D j = (D', V) → 0 < V →
  useful M U D' ∧ columns_of M D' ∧ V ≤ size M.
Proof.
  unfold candidate. intros [= <- <-] Hpos.
  set (ext := _it M (D ++ [j])) in *. set (int := _it (T M) ext) in *.
  assert (columns_of M int) as Hcols.
  { intros c Hc. apply elem_of_it in Hc as [Hc _]. by rewrite shape0_T in Hc. }
  split; [|split; [done|]].
  - apply submatrix_intersection_size_pos in Hpos as (r & c & Hr & Hc & Hcell).
    exists r, c. split; [done|]. apply elem_of_it in Hr as Hr'. destruct Hr' as [Hr' _].
    split; [done|]. split; [|done].
    intros c' Hc'. pose proof (Hcols c' Hc') as Hlt.
    apply elem_of_it in Hc' as [_ Hc']. rewrite <- bget_T by done. by apply Hc'.
  - etrans; [apply submatrix_intersection_size_le|]. unfold size.
    apply Nat.mul_le_mono; [apply it_length|].
    etrans; [apply it_length|]. by rewrite shape0_T.
Qed.

Lemma candidate_seed U r c :
  below U M → bget U r c = true → 0 < snd (candidate M (T M) U [] c).
Proof.
  intros Hbelow Hcell. unfold candidate. simpl.
  apply submatrix_intersection_size_pos. exists r, c.
  pose proof (Hbelow r c Hcell) as HM.
  destruct (bget_true_in_shape M r c M_ndim2 HM) as [Hr Hc].
  assert (r ∈ _it M [c]) as Hext.
  { apply elem_of_it. split; [done|]. intros c' Hc'.
    apply list_elem_of_singleton in Hc'. by subst. }
  split; [done|]. split; [|done].
  apply elem_of_it. rewrite shape0_T. split; [done|].
  intros r' Hr'. rewrite bget_T by done.
  apply elem_of_it in Hr' as [_ Hr']. apply Hr'. by left.
Qed.

(** The scan of the candidate columns: the running best only grows,
    dominates every candidate, and is either the initial one or a
    candidate's that improved on it. *)
Lemma best_candidate_fold U D js (acc : option (list nat) * nat) :
  let step :=
    fun (best : option (list nat) * nat) j =>
      let '(D_u_j_closed_intent, D_u_j_V) := candidate M (T M) U D j in
      if snd best <? D_u_j_V then (Some D_u_j_closed_intent, D_u_j_V) else best in
  let res := fold_left step js acc in
  snd acc ≤ snd res
  ∧ (∀ j, j ∈ js → snd (candidate M (T M) U D j) ≤ snd res)
  ∧ (res = acc
     ∨ ∃ j, j ∈ js ∧ res = (Some (fst (candidate M (T M) U D j)),
                            snd (candidate M (T M) U D j))
            ∧ snd acc < snd res).
Proof.
  intros step. revert acc. induction js as [|j js IH]; intros acc; simpl.
  - split; [done|]. split; [|by left]. intros j Hj. by apply elem_of_nil in Hj.
  - destruct (IH (step acc j)) as (Hle & Hall & Hres). clear IH.
    assert (snd acc ≤ snd (step acc j) ∧ snd (candidate M (T M) U D j) ≤ snd (step acc j)
            ∧ (step acc j = acc
               ∨ step acc j = (Some (fst (candidate M (T M) U D j)),
                               snd (candidate M (T M) U D j))
                 ∧ snd acc < snd (candidate M (T M) U D j))) as (H1 & H2 & H3).
    { unfold step. destruct (candidate M (T M) U D j) as [int V]. simpl.
      destruct (snd acc <? V) eqn:Hlt.
      - apply Nat.ltb_lt in Hlt. simpl. split; [lia|]. split; [lia|]. by right.
      - apply Nat.ltb_ge in Hlt. split; [lia|]. split; [lia|]. by left. }
    split; [etrans; [exact H1|exact Hle]|]. split.
    + intros j' Hj'. apply elem_of_cons in Hj' as [->|Hj'];
        [etrans; [exact H2|exact Hle]|by apply Hall].
    + destruct Hres as [Hres|(j' & Hj' & Hres & Hlt)].
      * rewrite Hres. destruct H3 as [->|[-> Hlt]]; [by left|].
        right. exists j. split; [by left|]. split; [done|]. exact Hlt.
      * right. exists j'. split; [by right|]. split; [done|].
        eapply Nat.le_lt_trans; [exact H1|exact Hlt].
Qed.

Lemma best_candidate_spec U D js :
  (∀ j, j ∈ js → snd (candidate M (T M) U D j) ≤ snd (best_candidate M (T M) U D js))
  ∧ (best_candidate M (T M) U D js = (None, 0)
     ∨ ∃ j, j ∈ js
            ∧ best_candidate M (T M) U D js
              = (Some (fst (candidate M (T M) U D j)), snd (candidate M (T M) U D j))
            ∧ 0 < snd (best_candidate M (T M) U D js)).
Proof.
  destruct (best_candidate_fold U D js (None, 0)) as (_ & Hall & Hres).
  split; [exact Hall|exact Hres].
Qed.

(** The inner [while searching] loop ends, and with a positive [V]
    when an uncovered cell is left: its result is a useful intent. *)
Lemma search_spec U fuel D V :
  below U M → (∃ r c, bget U r c = true) →
  V ≤ size M → (V = 0 → D = []) → (0 < V → useful M U D ∧ columns_of M D) →
  size M - V < fuel →
  ∃ D' V', search fuel M (T M) U (seq 0 (shape1 M)) D V = Ok (D', V')
           ∧ useful M U D' ∧ columns_of M D'.
Proof.
  intros Hbelow (r0 & c0 & Hcell). revert D V.
  induction fuel as [|fuel IH]; intros D V HV Hzero Hpos Hfuel; [lia|].
  simpl. destruct (best_candidate_spec U D (seq 0 (shape1 M))) as [Hall Hres].
  destruct (best_candidate M (T M) U D (seq 0 (shape1 M))) as [bi bV] eqn:Hbest.
  cbn [fst snd] in Hall, Hres. destruct (V <? bV) eqn:Hlt.
  - apply Nat.ltb_lt in Hlt.
    destruct Hres as [[= -> ->]|(j & Hj & Heq & Hbpos)]; [lia|].
    destruct (candidate M (T M) U D j) as [D' V'] eqn:Hcand.
    cbn [fst snd] in Heq, Hbpos. injection Heq as -> ->.
    destruct (candidate_useful U D j D' V' Hcand Hbpos) as (Huse & Hcols & Hsize).
    apply IH; [done|lia|done|lia].
  - apply Nat.ltb_ge in Hlt. exists D, V. split; [done|].
    apply Hpos. destruct (decide (V = 0)) as [->|]; [|lia].
    rewrite (Hzero eq_refl) in Hall.
    pose proof (candidate_seed U r0 c0 Hbelow Hcell) as Hseed.
    assert (c0 ∈ seq 0 (shape1 M)) as Hc0.
    { apply list_elem_of_In, in_seq.
      destruct (bget_true_in_shape M r0 c0 M_ndim2 (Hbelow r0 c0 Hcell)). lia. }
    specialize (Hall c0 Hc0). lia.
Qed.

Lemma no_column_excluded (Y : list nat) :
  List.filter (fun j => negb (Np.mem j [])) Y = Y.
Proof. induction Y as [|j Y IH]; [done|]. cbn. by f_equal. Qed.

Lemma coverage_of_ratio U initial :
  0 < initial → coverage_of U initial = Ok (ratio U initial).
Proof. unfold coverage_of, Py.int_truediv, ratio. by destruct initial; [lia|]. Qed.

Lemma not_mem_false x (l : list nat) : Np.mem x l = false ↔ x ∉ l.
Proof. rewrite <- mem_true. by destruct (Np.mem x l). Qed.

(** One pass of the outer loop: it succeeds, the concept it emits is a
    rectangle of [M], and erasing it from [U] removes an uncovered
    cell. *)
Lemma mine_one_spec U F initial :
  same_shape U M → below U M → 0 < count_nonzero U → 0 < initial →
  ∃ D, let concept := mkConcept (_it M D) D in
       let U' := erase_submatrix_values (_it M D) D U in
       mine_one M (T M) (seq 0 (shape1 M)) initial U F
       = Ok (U', F ++ [concept], ratio U' initial)
       ∧ rectangle_of M concept
       ∧ same_shape U' M ∧ below U' M ∧ below U' U
       ∧ count_nonzero U' < count_nonzero U
       ∧ ∀ r c, bget U r c = bget U' r c || covered [concept] r c && bget U r c.
Proof.
  intros Hshape Hbelow Hcount Hinit.
  destruct (count_nonzero_pos U Hcount) as (r0 & c0 & Hcell).
  destruct (same_shape_shapes U M Hshape) as (_ & _ & Hsize).
  destruct (search_spec U (S (size U)) [] 0 Hbelow) as (D & V & Hsearch & Huse & Hcols);
    [by exists r0, c0|lia|done|lia|lia|].
  exists D. cbn zeta. unfold mine_one. rewrite coverage_of_ratio by done.
  cbn [mbind result_bind Py.bind]. rewrite no_column_excluded, Hsearch.
  cbn [mbind result_bind Py.bind extent intent create_concept].
  assert (same_shape (erase_submatrix_values (_it M D) D U) M) as Hshape'.
  { eapply same_shape_trans; [apply same_shape_erase|done]. }
  assert (below (erase_submatrix_values (_it M D) D U) U) as Hbelow'.
  { intros r c. rewrite bget_erase. by intros [? _]%andb_true_iff. }
  rewrite coverage_of_ratio by done. cbn [mbind result_bind Py.bind].
  split; [done|]. split.
  { split; [|split]; simpl.
    - intros r Hr. by apply elem_of_it in Hr as [? _].
    - exact Hcols.
    - intros r c Hr Hc. apply elem_of_it in Hr as [_ Hr]. by apply Hr. }
  split; [done|]. split; [intros r c Hc; by apply Hbelow, Hbelow'|].
  split; [done|]. split.
  - destruct Huse as (r & c & Hc & Hr & Hrow & Hcell').
    apply (count_nonzero_lt _ _ r c); [apply same_shape_erase|done|done|].
    rewrite bget_erase, Hcell'. simpl.
    assert (Np.mem r (_it M D) = true) as -> by (apply mem_true, elem_of_it; done).
    by assert (Np.mem c D = true) as -> by (by apply mem_true).
  - intros r c. rewrite bget_erase. unfold covered. simpl.
    destruct (bget U r c), (Np.mem r (_it M D)), (Np.mem c D); done.
Qed.

(** *** The outer loop *)

Variable initial : nat.
Hypothesis initial_pos : 0 < initial.

Lemma covered_app F G r c : covered (F ++ G) r c = covered F r c || covered G r c.
Proof. unfold covered. apply existsb_app. Qed.

Lemma covered_rectangle concept r c :
  rectangle_of M concept → covered [concept] r c = true → bget M r c = true.
Proof.
  intros (_ & _ & Hrect). unfold covered. simpl. rewrite orb_false_r.
  intros [Hr Hc]%andb_true_iff. apply Hrect; by apply mem_true.
Qed.

Lemma fraction_le (a b : nat) (p : positive) :
  a ≤ b → (Z.of_nat a # p <= Z.of_nat b # p)%Q.
Proof. intros Hab. unfold Qle. simpl. apply Z.mul_le_mono_nonneg_r; lia. Qed.

Lemma fraction_pos (a : nat) (p : positive) : 0 < a → (0 < Z.of_nat a # p)%Q.
Proof. intros Ha. unfold Qlt. simpl. lia. Qed.

Lemma fraction_zero (p : positive) : (0 # p == 0)%Q.
Proof. done. Qed.

Lemma ratio_mono U U' :
  count_nonzero U' ≤ count_nonzero U → (ratio U initial <= ratio U' initial)%Q.
Proof.
  intros Hle. unfold ratio.
  pose proof (fraction_le _ _ (Pos.of_nat initial) Hle). lra.
Qed.

Lemma ratio_lt_1 U : (ratio U initial < 1)%Q → 0 < count_nonzero U.
Proof.
  unfold ratio. intros Hlt.
  destruct (count_nonzero U) as [|n] eqn:Hn; [|lia].
  pose proof (fraction_zero (Pos.of_nat initial)) as Hz.
  change (Z.of_nat 0) with 0%Z in Hlt.
  set (x := (0 # Pos.of_nat initial)%Q) in *. clearbody x. lra.
Qed.

Lemma ratio_ge_1 U :
  (1 <= ratio U initial)%Q → count_nonzero U = 0 ∧ (ratio U initial == 1)%Q.
Proof.
  unfold ratio. intros Hge.
  destruct (count_nonzero U) as [|n] eqn:Hn.
  - split; [done|]. pose proof (fraction_zero (Pos.of_nat initial)) as Hz.
    change (Z.of_nat 0) with 0%Z.
    set (x := (0 # Pos.of_nat initial)%Q) in *. clearbody x. lra.
  - pose proof (fraction_pos (S n) (Pos.of_nat initial) ltac:(lia)) as Hp.
    set (x := (Z.of_nat (S n) # Pos.of_nat initial)%Q) in *. clearbody x. lra.
Qed.

Lemma mining_step U F cc concept U' :
  mining M initial U F cc → rectangle_of M concept →
  same_shape U' M → below U' M →
  (∀ r c, bget U r c = bget U' r c || covered [concept] r c && bget U r c) →
  mining M initial U' (F ++ [concept]) (ratio U' initial).
Proof.
  intros (_ & _ & Hcells & Hrects & _) Hrect Hshape Hbelow Hstep.
  split; [done|]. split; [done|]. split; [|split; [|done]].
  - intros r c. rewrite covered_app.
    destruct (covered [concept] r c) eqn:Hk.
    + rewrite (covered_rectangle concept r c Hrect Hk).
      by rewrite orb_true_r, orb_true_r.
    + rewrite orb_false_r, Hcells, Hstep, Hk. by rewrite andb_false_l, orb_false_r.
  - apply Forall_app. split; [done|by constructor].
Qed.

Local Arguments mine_one : simpl never.

(** The outer loop ends within [count_nonzero U + 1] tests of its
    condition, in a state that meets the coverage asked for. *)
Lemma mine_spec fuel coverage U F cc :
  (coverage <= 1)%Q → mining M initial U F cc → count_nonzero U < fuel →
  ∃ U' F' cc',
    mine fuel M (T M) (seq 0 (shape1 M)) initial coverage U F cc = Ok (F', cc')
    ∧ mining M initial U' F' cc' ∧ (coverage <= cc')%Q
    ∧ length F ≤ length F' ∧ (cc <= cc')%Q.
Proof.
  intros Hcov. revert U F cc.
  induction fuel as [|fuel IH]; intros U F cc Hinv Hfuel; [lia|].
  simpl. destruct (Qle_bool coverage cc) eqn:Htest.
  - apply Qle_bool_iff in Htest. exists U, F, cc.
    split; [done|]. split; [done|]. split; [done|]. split; [lia|apply Qle_refl].
  - assert (cc < coverage)%Q as Hlt.
    { apply Qnot_le_lt. intros Hle. apply Qle_bool_iff in Hle. congruence. }
    pose proof Hinv as (Hshape & Hbelow & _ & _ & Hcc).
    assert (0 < count_nonzero U) as Hcount by (apply ratio_lt_1; lra).
    destruct (mine_one_spec U F initial Hshape Hbelow Hcount initial_pos)
      as (D & Hone & Hrect & Hshape' & Hbelow' & HbelowU & Hless & Hcells).
    simpl in Hone. rewrite Hone. cbn [mbind result_bind Py.bind].
    set (U' := erase_submatrix_values (_it M D) D U) in *.
    set (concept := mkConcept (_it M D) D) in *.
    assert (mining M initial U' (F ++ [concept]) (ratio U' initial)) as Hinv'
      by (by eapply mining_step).
    destruct (IH U' (F ++ [concept]) (ratio U' initial) Hinv' ltac:(lia))
      as (U'' & F' & cc' & Hrun & Hinv'' & Hge & Hlen & Hmono).
    exists U'', F', cc'. split; [done|]. split; [done|]. split; [done|].
    rewrite length_app in Hlen. simpl in Hlen. split; [lia|].
    pose proof (ratio_mono U U' ltac:(lia)). lra.
Qed.


End GreConD.

(** ** The factor matrices of a concept list *)

Section FactorMatrices.

Import Fca.

Implicit Types (A B M : bmatrix) (F : list Concept) (r c k : nat).

Lemma bmatrix_ext A B :
  same_shape A B → (∀ r c, bget A r c = bget B r c) → A = B.
Proof.
  intros [Hlen Hrows] Hcells. apply (nth_ext A B [] []); [done|].
  intros r _. apply (nth_ext _ _ false false); [apply Hrows|].
  intros c _. apply Hcells.
Qed.

Lemma same_shape_set2 A r c (x : bool) : same_shape (Np.set2 A r c x) A.
Proof. split; [apply length_set2|]. intros r'. apply length_row_set2. Qed.

Lemma bget_set2_true A r0 c0 r c :
  bget (Np.set2 A r0 c0 true) r c
  = bget A r c || ((r =? r0) && (c =? c0) && (c0 <? length (nth r0 A []))).
Proof.
  unfold bget. destruct (decide (r = r0 ∧ c = c0)) as [[-> ->]|Hne].
  - rewrite !Nat.eqb_refl. simpl.
    destruct (c0 <? length (nth r0 A [])) eqn:Hc.
    + apply Nat.ltb_lt in Hc. rewrite nth_set2_eq by done. by rewrite orb_true_r.
    + apply Nat.ltb_ge in Hc. rewrite orb_false_r.
      rewrite (nth_overflow (nth r0 A [])) by done.
      apply nth_overflow. by rewrite length_row_set2.
  - rewrite nth_set2_ne by (destruct (decide (r = r0)); [right|left]; naive_solver).
    destruct (r =? r0) eqn:Hr, (c =? c0) eqn:Hc; simpl; rewrite ?orb_false_r; try done.
    apply Nat.eqb_eq in Hr, Hc. naive_solver.
Qed.

(** Marking the rows of one concept in its column of [Af]. *)
Lemma bget_mark_extent A k ext r c :
  bget (fold_left (fun A item => Np.set2 A item k true) ext A) r c
  = bget A r c || ((c =? k) && Np.mem r ext && (k <? length (nth r A []))).
Proof.
  revert A. induction ext as [|r0 ext IH]; intros A; simpl.
  - by rewrite andb_false_r, orb_false_r.
  - rewrite IH, bget_set2_true, length_row_set2.
    change (Np.mem r (r0 :: ext)) with ((r =? r0) || Np.mem r ext).
    destruct (r =? r0) eqn:Hr.
    + apply Nat.eqb_eq in Hr. subst.
      destruct (bget A r0 c), (c =? k), (Np.mem r0 ext), (k <? length (nth r0 A []));
        done.
    + destruct (bget A r c), (c =? k), (Np.mem r ext), (k <? length (nth r A []));
        done.
Qed.

Lemma same_shape_mark_extent A k ext :
  same_shape (fold_left (fun A item => Np.set2 A item k true) ext A) A.
Proof.
  revert A. induction ext as [|r0 ext IH]; intros A; simpl; [apply same_shape_refl|].
  eapply same_shape_trans; [apply IH|apply same_shape_set2].
Qed.

(** Marking the columns of one concept in its row of [Bf]. *)
Lemma bget_mark_intent B k int r c :
  bget (fold_left (fun B item => Np.set2 B k item true) int B) r c
  = bget B r c || ((r =? k) && Np.mem c int && (c <? length (nth k B []))).
Proof.
  revert B. induction int as [|c0 int IH]; intros B; simpl.
  - by rewrite andb_false_r, orb_false_r.
  - rewrite IH, bget_set2_true, length_row_set2.
    change (Np.mem c (c0 :: int)) with ((c =? c0) || Np.mem c int).
    destruct (c =? c0) eqn:Hc.
    + apply Nat.eqb_eq in Hc. subst.
      destruct (bget B r c0), (r =? k), (Np.mem c0 int), (c0 <? length (nth k B []));
        done.
    + destruct (bget B r c), (r =? k), (Np.mem c int), (c <? length (nth k B []));
        simpl; rewrite ?andb_false_r; done.
Qed.

Lemma same_shape_mark_intent B k int :
  same_shape (fold_left (fun B item => Np.set2 B k item true) int B) B.
Proof.
  revert B. induction int as [|c0 int IH]; intros B; simpl; [apply same_shape_refl|].
  eapply same_shape_trans; [apply IH|apply same_shape_set2].
Qed.

Lemma existsb_pointwise {X : Type} (f g : X → bool) (l : list X) :
  (∀ x, f x = g x) → existsb f l = existsb g l.
Proof. intros Hfg. induction l as [|x l IH]; simpl; [done|]. by rewrite Hfg, IH. Qed.

(** The loop of [_get_matrices] over the enumerated concepts. *)
Lemma get_matrices_fold (l : list (nat * Concept)) A0 B0 :
  let res :=
    fold_left
      (fun AB ic =>
         let '(concept_index, concept) := ic in
         (fold_left (fun Af item => Np.set2 Af item concept_index true)
                    (extent concept) (fst AB),
          fold_left (fun Bf item => Np.set2 Bf concept_index item true)
                    (intent concept) (snd AB)))
      l (A0, B0) in
  same_shape (fst res) A0 ∧ same_shape (snd res) B0
  ∧ (∀ r c, bget (fst res) r c
            = bget A0 r c
              || existsb (fun ic => (c =? fst ic) && Np.mem r (extent (snd ic))
                                    && (fst ic <? length (nth r A0 []))) l)
  ∧ (∀ r c, bget (snd res) r c
            = bget B0 r c
              || existsb (fun ic => (r =? fst ic) && Np.mem c (intent (snd ic))
                                    && (c <? length (nth (fst ic) B0 []))) l).
Proof.
  revert A0 B0. induction l as [|[k concept] l IH]; intros A0 B0; simpl.
  - split; [apply same_shape_refl|]. split; [apply same_shape_refl|].
    split; intros r c; by rewrite orb_false_r.
  - pose proof (same_shape_mark_extent A0 k (extent concept)) as HsA.
    pose proof (same_shape_mark_intent B0 k (intent concept)) as HsB.
    destruct (IH (fold_left (fun Af item => Np.set2 Af item k true) (extent concept) A0)
                 (fold_left (fun Bf item => Np.set2 Bf k item true) (intent concept) B0))
      as (HA & HB & HcA & HcB).
    split; [by eapply same_shape_trans|]. split; [by eapply same_shape_trans|].
    split; intros r c.
    + rewrite HcA, bget_mark_extent, <- orb_assoc. f_equal. f_equal.
      apply existsb_pointwise. intros [k' concept']. cbn [fst snd].
      do 2 f_equal. exact (proj2 HsA r).
    + rewrite HcB, bget_mark_intent, <- orb_assoc. f_equal. f_equal.
      apply existsb_pointwise. intros [k' concept']. cbn [fst snd].
      do 2 f_equal. exact (proj2 HsB k').
Qed.

Lemma existsb_enumerate F (g : nat → Concept → bool) :
  existsb (fun ic => g (fst ic) (snd ic))
          (imap (fun concept_index concept => (concept_index, concept)) F) = true
  ↔ ∃ k concept, F !! k = Some concept ∧ g k concept = true.
Proof.
  rewrite existsb_exists. split.
  - intros ([k concept] & Hin & Hg). apply list_elem_of_In, elem_of_lookup_imap in Hin
      as (i & y & [= -> ->] & Hl). by exists i, y.
  - intros (k & concept & Hl & Hg). exists (k, concept). split; [|done].
    apply list_elem_of_In, elem_of_lookup_imap. by exists k, concept.
Qed.

Lemma bget_full_false n m r c : bget (Np.full n m false) r c = false.
Proof.
  unfold bget, Np.full. rewrite !nth_lookup.
  destruct (replicate n (replicate m false) !! r) as [row|] eqn:Hrow; simpl.
  - apply lookup_replicate in Hrow as [-> _].
    destruct (replicate m false !! c) as [b|] eqn:Hb; [|done].
    by apply lookup_replicate in Hb as [-> _].
  - by destruct c.
Qed.

Lemma row_full {X : Type} n m (x : X) r :
  length (nth r (Np.full n m x) []) = if r <? n then m else 0.
Proof.
  unfold Np.full. rewrite nth_lookup. destruct (r <? n) eqn:Hr.
  - apply Nat.ltb_lt in Hr. rewrite lookup_replicate_2 by done. simpl.
    apply length_replicate.
  - apply Nat.ltb_ge in Hr.
    by rewrite (proj1 (lookup_replicate_None n (replicate m x) r) Hr).
Qed.

(** The cells of the factor matrices: [Af[r][k]] says that row [r] is
    in the extent of concept [k], [Bf[k][c]] that column [c] is in its
    intent. *)
Lemma get_matrices_cells F rows cols :
  let Af := fst (_get_matrices F rows cols) in
  let Bf := snd (_get_matrices F rows cols) in
  same_shape Af (Np.full rows (length F) false)
  ∧ same_shape Bf (Np.full (length F) cols false)
  ∧ (∀ r k, bget Af r k = true
            ↔ r < rows ∧ ∃ concept, F !! k = Some concept ∧ r ∈ extent concept)
  ∧ (∀ k c, bget Bf k c = true
            ↔ c < cols ∧ ∃ concept, F !! k = Some concept ∧ c ∈ intent concept).
Proof.
  unfold _get_matrices.
  destruct (get_matrices_fold
              (imap (fun concept_index concept => (concept_index, concept)) F)
              (Np.full rows (length F) false) (Np.full (length F) cols false))
    as (HA & HB & HcA & HcB).
  split; [exact HA|]. split; [exact HB|]. split.
  - intros r k. rewrite HcA, bget_full_false. simpl.
    rewrite (existsb_enumerate F
               (fun k' concept => (k =? k') && Np.mem r (extent concept)
                                  && (k' <? length (nth r (Np.full rows (length F) false) [])))).
    split.
    + intros (k' & concept & Hl & Hg).
      apply andb_true_iff in Hg as [[Hk Hr]%andb_true_iff Hlt].
      apply Nat.eqb_eq in Hk. subst k'. rewrite row_full in Hlt.
      destruct (r <? rows) eqn:Hrr; [|by apply Nat.ltb_lt in Hlt; lia].
      apply Nat.ltb_lt in Hrr. split; [done|]. exists concept. split; [done|].
      by apply mem_true.
    + intros (Hr & concept & Hl & Hin). exists k, concept. split; [done|].
      rewrite Nat.eqb_refl, (proj2 (mem_true _ _) Hin), row_full.
      rewrite (proj2 (Nat.ltb_lt r rows) Hr). simpl.
      apply Nat.ltb_lt. by eapply lookup_lt_Some.
  - intros k c. rewrite HcB, bget_full_false. simpl.
    rewrite (existsb_enumerate F
               (fun k' concept => (k =? k') && Np.mem c (intent concept)
                                  && (c <? length (nth k' (Np.full (length F) cols false) [])))).
    split.
    + intros (k' & concept & Hl & Hg).
      apply andb_true_iff in Hg as [[Hk Hc]%andb_true_iff Hlt].
      apply Nat.eqb_eq in Hk. subst k'. rewrite row_full in Hlt.
      apply lookup_lt_Some in Hl as Hk. rewrite (proj2 (Nat.ltb_lt _ _) Hk) in Hlt.
      apply Nat.ltb_lt in Hlt. split; [done|]. exists concept. split; [done|].
      by apply mem_true.
    + intros (Hc & concept & Hl & Hin). exists k, concept. split; [done|].
      rewrite Nat.eqb_refl, (proj2 (mem_true _ _) Hin), row_full.
      apply lookup_lt_Some in Hl as Hk. rewrite (proj2 (Nat.ltb_lt _ _) Hk). simpl.
      by apply Nat.ltb_lt.
Qed.

(** The boolean product, cell by cell. *)
Lemma matmul_shape A B :
  length (matmul A B) = length A
  ∧ ∀ r, r < length A → length (nth r (matmul A B) []) = shape1 B.
Proof.
  unfold matmul. split; [apply length_map|]. intros r Hr.
  set (f := fun row : list bool =>
              map (fun c => existsb (fun k => nth k row false && bget B k c)
                                    (seq 0 (shape0 B)))
                  (seq 0 (shape1 B))).
  rewrite (nth_indep _ [] (f [])) by (by rewrite length_map).
  rewrite (map_nth f A [] r). unfold f. by rewrite length_map, length_seq.
Qed.

Lemma bget_matmul A B r c :
  r < length A → c < shape1 B →
  bget (matmul A B) r c
  = existsb (fun k => bget A r k && bget B k c) (seq 0 (shape0 B)).
Proof.
  intros Hr Hc. unfold matmul, bget at 1.
  set (f := fun row : list bool =>
              map (fun c => existsb (fun k => nth k row false && bget B k c)
                                    (seq 0 (shape0 B)))
                  (seq 0 (shape1 B))).
  rewrite (nth_indep _ [] (f [])) by (by rewrite length_map).
  rewrite (map_nth f A [] r). unfold f. by rewrite nth_map_seq.
Qed.

Lemma covered_true F r c :
  covered F r c = true
  ↔ ∃ concept, concept ∈ F ∧ r ∈ extent concept ∧ c ∈ intent concept.
Proof.
  unfold covered. rewrite existsb_exists. split.
  - intros (concept & Hin & [Hr Hc]%andb_true_iff). exists concept.
    split; [by apply list_elem_of_In|]. split; by apply mem_true.
  - intros (concept & Hin & Hr & Hc). exists concept.
    split; [by apply list_elem_of_In|].
    apply andb_true_iff. split; by apply mem_true.
Qed.

(** The product of the factor matrices of [F] is the union of the
    rectangles of [F]. *)
Lemma factor_product_covered F rows cols r c :
  0 < length F → r < rows → c < cols →
  bget (matmul (fst (_get_matrices F rows cols)) (snd (_get_matrices F rows cols))) r c
  = covered F r c.
Proof.
  intros HF Hr Hc.
  destruct (get_matrices_cells F rows cols) as ([HlA HrA] & [HlB HrB] & HcA & HcB).
  cbn zeta in *.
  set (Af := fst (_get_matrices F rows cols)) in *.
  set (Bf := snd (_get_matrices F rows cols)) in *.
  assert (length Af = rows) as HAf.
  { rewrite HlA. unfold Np.full. apply length_replicate. }
  assert (shape0 Bf = length F) as HBf0.
  { unfold shape0. rewrite HlB. unfold Np.full. apply length_replicate. }
  assert (shape1 Bf = cols) as HBf1.
  { unfold shape1. replace (hd [] Bf) with (nth 0 Bf []) by (by destruct Bf).
    rewrite HrB, row_full. by rewrite (proj2 (Nat.ltb_lt 0 (length F)) HF). }
  rewrite bget_matmul by lia. rewrite HBf0.
  apply eq_true_iff_eq. rewrite covered_true, existsb_exists. split.
  - intros (k & _ & [HA HB]%andb_true_iff).
    apply HcA in HA as (_ & concept & Hl & Hin).
    apply HcB in HB as (_ & concept' & Hl' & Hin').
    assert (concept' = concept) as -> by congruence.
    exists concept. split; [by eapply list_elem_of_lookup_2|done].
  - intros (concept & Hin & Hre & Hci).
    apply list_elem_of_lookup_1 in Hin as [k Hl]. exists k. split.
    + apply in_seq. apply lookup_lt_Some in Hl. lia.
    + apply andb_true_iff. split; [apply HcA|apply HcB]; (split; [done|]);
        by exists concept.
Qed.

Lemma factor_product_reconstructs M F :
  ndim2 M = true → 0 < length F → 0 < size M →
  (∀ r c, bget M r c = covered F r c) →
  ∃ Af Bf,
    get_factor_matrices_from_concepts F (shape0 M) (shape1 M) = Ok (Af, Bf)
    ∧ matmul Af Bf = M.
Proof.
  intros Hrect HF Hsize Hcells. unfold size in Hsize.
  assert (0 < shape0 M ∧ 0 < shape1 M) as [H0 H1] by nia.
  exists (fst (_get_matrices F (shape0 M) (shape1 M))),
         (snd (_get_matrices F (shape0 M) (shape1 M))).
  split.
  { unfold get_factor_matrices_from_concepts.
    rewrite (proj2 (Nat.ltb_lt 0 _) HF), (proj2 (Nat.ltb_lt 0 _) H0),
      (proj2 (Nat.ltb_lt 0 _) H1). cbn [Py.assert mbind result_bind Py.bind].
    by destruct (_get_matrices F (shape0 M) (shape1 M)). }
  destruct (get_matrices_cells F (shape0 M) (shape1 M))
    as ([HlA HrA] & [HlB HrB] & _ & _). cbn zeta in *.
  set (Af := fst (_get_matrices F (shape0 M) (shape1 M))) in *.
  set (Bf := snd (_get_matrices F (shape0 M) (shape1 M))) in *.
  assert (length Af = shape0 M) as HAf.
  { rewrite HlA. unfold Np.full. apply length_replicate. }
  assert (shape1 Bf = shape1 M) as HBf1.
  { unfold shape1 at 1. replace (hd [] Bf) with (nth 0 Bf []) by (by destruct Bf).
    rewrite HrB, row_full. by rewrite (proj2 (Nat.ltb_lt 0 (length F)) HF). }
  destruct (matmul_shape Af Bf) as [Hlen Hrows].
  apply (nth_ext _ _ [] []); [by rewrite Hlen, HAf|].
  intros r Hr. rewrite Hlen, HAf in Hr.
  apply (nth_ext _ _ false false).
  { rewrite Hrows by lia. rewrite HBf1. symmetry. by apply ndim2_row. }
  intros c Hc. rewrite Hrows, HBf1 in Hc by lia.
  change (bget (matmul Af Bf) r c = bget M r c).
  rewrite Hcells. by apply factor_product_covered.
Qed.

End FactorMatrices.

(** ** The claims on GreConD *)

Section Grecond.

Import Fca.

Implicit Types (M : bmatrix) (coverage : Q).

Lemma coverage_asserted coverage :
  (0 < coverage)%Q → (coverage <= 1)%Q →
  negb (Qle_bool coverage 0) && Qle_bool coverage 1 = true.
Proof.
  intros Hpos Hle. apply andb_true_iff. split.
  - apply negb_true_iff. destruct (Qle_bool coverage 0) eqn:H0; [|done].
    apply Qle_bool_iff in H0. lra.
  - by apply Qle_bool_iff.
Qed.

Lemma true_cell_size M : ndim2 M = true → 0 < count_nonzero M → 0 < size M.
Proof.
  intros Hrect Hcount. destruct (count_nonzero_pos M Hcount) as (r & c & Hcell).
  destruct (bget_true_in_shape M r c Hrect Hcell). unfold size. nia.
Qed.

Lemma initial_ratio M : 0 < count_nonzero M → (0 == ratio M (count_nonzero M))%Q.
Proof.
  intros Hpos. unfold ratio, Qeq, Qminus, Qplus, Qopp. simpl.
  rewrite Zpos_of_nat by lia. lia.
Qed.

Lemma initial_mining M :
  0 < count_nonzero M → mining M (count_nonzero M) M [] 0.
Proof.
  intros Hpos. split; [apply same_shape_refl|]. split; [by intros r c|].
  split; [intros r c; by rewrite orb_false_r|].
  split; [constructor|by apply initial_ratio].
Qed.

(** On a valid input [grecond] is its outer loop from the initial state. *)
Lemma grecond_unfold M coverage :
  ndim2 M = true → 0 < count_nonzero M → (0 < coverage)%Q → (coverage <= 1)%Q →
  grecond M coverage
  = mine (S (count_nonzero M)) M (T M) (seq 0 (shape1 M)) (count_nonzero M)
         coverage M [] 0.
Proof.
  intros Hrect Hcount Hpos Hle. unfold grecond.
  rewrite Hrect, (proj2 (Nat.ltb_lt 0 _) (true_cell_size M Hrect Hcount)),
    coverage_asserted by done.
  reflexivity.
Qed.

(** C4, as the code has it.  GreConD has no guard for a matrix without
    a true cell: on such a matrix, otherwise valid, the first pass of
    the loop divides zero uncovered cells by zero initial ones, and the
    call ends at once in that [ZeroDivisionError].  No concept is mined
    and nothing loops. *)
Theorem grecond_all_false_divides_by_zero M coverage :
  ndim2 M = true → 0 < size M → (∀ r c, bget M r c = false) →
  (0 < coverage)%Q → (coverage <= 1)%Q →
  grecond M coverage = Raise Py.ZeroDivisionError.
Proof.
  intros Hrect Hsize Hfalse Hpos Hle.
  assert (count_nonzero M = 0) as Hzero by (by apply count_nonzero_zero).
  unfold grecond.
  rewrite Hrect, (proj2 (Nat.ltb_lt 0 _) Hsize), coverage_asserted by done.
  cbn [Py.assert mbind result_bind Py.bind]. rewrite Hzero.
  cbn [mine]. destruct (Qle_bool coverage 0) eqn:H0.
  - apply Qle_bool_iff in H0. lra.
  - unfold mine_one, coverage_of. by rewrite Hzero.
Qed.

Lemma grecond_all_false_2x2 :
  grecond [[false; false]; [false; false]] 1 = Raise Py.ZeroDivisionError.
Proof.
  apply (grecond_all_false_divides_by_zero [[false; false]; [false; false]] 1);
    [reflexivity|vm_compute; lia| |reflexivity|discriminate].
  by apply count_nonzero_zero.
Defined.

(** C4 as stated fails: on the all-False 2x2 matrix [grecond] does
    perform the division by zero, and what ends the call is that
    [ZeroDivisionError], not the [AssertionError] of a checked
    precondition. *)
Lemma grecond_all_false_is_a_division_by_zero :
  count_nonzero [[false; false]; [false; false]] = 0
  ∧ Py.int_truediv (count_nonzero [[false; false]; [false; false]]) 0
    = Raise Py.ZeroDivisionError
  ∧ grecond [[false; false]; [false; false]] 1 = Raise Py.ZeroDivisionError.
Proof. repeat split. Qed.

(** C5.  On every binary matrix with a true cell, [grecond] at coverage
    1.0 returns concepts whose factor matrices multiply back to the
    matrix, together with the coverage 1. *)
Theorem grecond_full_coverage_reconstructs M :
  ndim2 M = true → 0 < count_nonzero M →
  ∃ F a Af Bf,
    grecond M 1 = Ok (F, a) ∧ (a == 1)%Q
    ∧ get_factor_matrices_from_concepts F (shape0 M) (shape1 M) = Ok (Af, Bf)
    ∧ matmul Af Bf = M.
Proof.
  intros Hrect Hcount.
  rewrite grecond_unfold by (done || lra).
  destruct (mine_spec M Hrect (count_nonzero M) Hcount (S (count_nonzero M)) 1 M [] 0)
    as (U & F & a & Hrun & Hinv & Hge & _ & _);
    [apply Qle_refl|by apply initial_mining|lia|].
  destruct Hinv as (_ & _ & Hcells & _ & Ha).
  destruct (ratio_ge_1 (count_nonzero M) Hcount U) as [Hzero Hone]; [by rewrite <- Ha|].
  assert (∀ r c, bget M r c = covered F r c) as Hcov.
  { intros r c. rewrite Hcells. by rewrite (proj1 (count_nonzero_zero U) Hzero). }
  assert (0 < length F) as HF.
  { destruct (count_nonzero_pos M Hcount) as (r & c & Hcell).
    rewrite Hcov in Hcell. destruct F; [done|simpl; lia]. }
  destruct (factor_product_reconstructs M F Hrect HF (true_cell_size M Hrect Hcount) Hcov)
    as (Af & Bf & Hfactors & Hproduct).
  exists F, a, Af, Bf. split; [done|]. split; [by rewrite Ha|]. done.
Qed.

(** The scenario of the specification: the 3x3 matrix is mined into two
    concepts, with coverage 7/7, and their factor matrices multiply
    back to it. *)
Lemma grecond_scenario_reconstructs :
  grecond Data.scenario 1
  = Ok ([mkConcept [0; 1] [0; 1]; mkConcept [1; 2] [1; 2]], 7 # 7)
  ∧ ∃ F a Af Bf,
      grecond Data.scenario 1 = Ok (F, a) ∧ (a == 1)%Q
      ∧ get_factor_matrices_from_concepts F 3 3 = Ok (Af, Bf)
      ∧ matmul Af Bf = Data.scenario.
Proof.
  split; [reflexivity|].
  apply (grecond_full_coverage_reconstructs Data.scenario);
    [reflexivity|vm_compute; lia].
Defined.



End Grecond.

(** * Further properties of the code *)

(** ** GreConD: what it mines *)

Section Closure.

Import Fca.

Implicit Types (M U : bmatrix) (F : list Concept) (D X Y : list nat).

Lemma filter_seq_sorted (p : nat → bool) a n :
  StronglySorted lt (List.filter p (seq a n)).
Proof.
  revert a. induction n as [|n IH]; intros a; simpl; [constructor|].
  destruct (p a); [|apply IH]. constructor; [apply IH|].
  apply Forall_forall. intros x Hx. apply list_elem_of_In, filter_In in Hx as [Hx _].
  apply in_seq in Hx. lia.
Qed.

Lemma it_sorted M Y : StronglySorted lt (_it M Y).
Proof. apply filter_seq_sorted. Qed.

Lemma elem_of_it_T M Y c :
  c ∈ _it (T M) Y ↔ c < shape1 M ∧ ∀ r, r ∈ Y → bget M r c = true.
Proof.
  rewrite elem_of_it, shape0_T. split; intros [Hc Hall]; (split; [done|]);
    intros r Hr; [rewrite <- (bget_T M r c Hc)|rewrite (bget_T M r c Hc)]; by apply Hall.
Qed.

(** Closing twice closes once: [i(t(i(t(X)))) = i(t(X))]. *)
Lemma it_closure M X :
  _it (T M) (_it M (_it (T M) (_it M X))) = _it (T M) (_it M X).
Proof.
  apply sorted_ext; [apply it_sorted..|]. intros c.
  rewrite !elem_of_it_T. split; intros [Hc Hall]; (split; [done|]); intros r Hr.
  - apply Hall. apply elem_of_it. split; [by apply elem_of_it in Hr as [? _]|].
    intros c' Hc'. apply elem_of_it_T in Hc' as [_ Hc']. by apply Hc'.
  - apply elem_of_it in Hr as [_ Hr]. apply Hr. by apply elem_of_it_T.
Qed.

Lemma closed_formal M X :
  formal_concept M (mkConcept (_it M (_it (T M) (_it M X))) (_it (T M) (_it M X))).
Proof. split; simpl; [done|]. by rewrite it_closure. Qed.

Lemma erase_no_columns rows U : erase_submatrix_values rows [] U = U.
Proof. unfold erase_submatrix_values. induction rows as [|r rows IH]; [done|]. simpl. exact IH. Qed.

End Closure.

Section Mined.

Import Fca.

Variable M : bmatrix.
Hypothesis M_ndim2 : ndim2 M = true.

Implicit Types (U : bmatrix) (F : list Concept) (D : list nat) (V fuel : nat).

Lemma search_closed fuel U js D V D' V' :
  search fuel M (T M) U js D V = Ok (D', V') →
  (D = [] ∨ ∃ X, D = _it (T M) (_it M X)) →
  D' = [] ∨ ∃ X, D' = _it (T M) (_it M X).
Proof.
  revert D V. induction fuel as [|fuel IH]; intros D V; [done|].
  cbn [search].
  destruct (best_candidate_spec M U D js) as [_ Hres].
  destruct (best_candidate M (T M) U D js) as [bi bV] eqn:Hbest.
  destruct (V <? bV) eqn:Hlt.
  - destruct Hres as [[= -> ->]|(j & _ & Heq & _)]; [done|].
    injection Heq as -> ->. intros Hrun _. apply (IH _ _ Hrun).
    right. by exists (D ++ [j]).
  - by intros [= -> ->].
Qed.

Lemma mine_one_formal U F initial :
  same_shape U M → below U M → 0 < count_nonzero U → 0 < initial →
  ∃ U' concept,
    mine_one M (T M) (seq 0 (shape1 M)) initial U F
    = Ok (U', F ++ [concept], ratio U' initial)
    ∧ formal_concept M concept ∧ rectangle_of M concept
    ∧ same_shape U' M ∧ below U' M ∧ below U' U
    ∧ count_nonzero U' < count_nonzero U
    ∧ (∀ r c, bget U r c = bget U' r c || covered [concept] r c && bget U r c)
    ∧ (∀ r c, covered [concept] r c = true → bget U' r c = false).
Proof.
  intros Hshape Hbelow Hcount Hinit.
  destruct (mine_one_spec M M_ndim2 U F initial Hshape Hbelow Hcount Hinit)
    as (D & Hone & Hrect & Hshape' & Hbelow' & HbelowU & Hless & Hcells).
  cbn zeta in *.
  exists (erase_submatrix_values (_it M D) D U), (mkConcept (_it M D) D).
  split; [done|].
  assert (D = [] ∨ ∃ X, D = _it (T M) (_it M X)) as Hclosed.
  { unfold mine_one in Hone. rewrite coverage_of_ratio in Hone by done.
    cbn [mbind result_bind Py.bind] in Hone. rewrite no_column_excluded in Hone.
    destruct (search (S (size U)) M (T M) U (seq 0 (shape1 M)) [] 0)
      as [[D0 V0]| |] eqn:Hsearch; [|done..].
    cbn [mbind result_bind Py.bind extent intent create_concept] in Hone.
    rewrite coverage_of_ratio in Hone by done.
    cbn [mbind result_bind Py.bind] in Hone.
    injection Hone as _ HF. apply app_inv_head in HF. injection HF as _ ->.
    apply (search_closed _ _ _ _ _ _ _ Hsearch). by left. }
  split.
  { destruct Hclosed as [->|[X ->]]; [|apply closed_formal].
    rewrite erase_no_columns in Hless. lia. }
  do 6 (split; [done|]).
  intros r c. rewrite bget_erase. unfold covered. simpl. rewrite orb_false_r.
  intros ->. by rewrite andb_false_r.
Qed.

Variable initial : nat.
Hypothesis initial_pos : 0 < initial.

Local Arguments mine_one : simpl never.

(** The outer loop, with all it keeps true: the concepts are formal
    concepts, no cell of a mined rectangle is left in [U], and every
    pass trades at least one uncovered cell for its concept. *)
Lemma mine_report fuel coverage U F cc :
  (coverage <= 1)%Q → mining M initial U F cc → count_nonzero U < fuel →
  Forall (formal_concept M) F →
  (∀ r c, covered F r c = true → bget U r c = false) →
  ∃ U' F' cc',
    mine fuel M (T M) (seq 0 (shape1 M)) initial coverage U F cc = Ok (F', cc')
    ∧ mining M initial U' F' cc' ∧ (coverage <= cc')%Q
    ∧ Forall (formal_concept M) F'
    ∧ (∀ r c, covered F' r c = true → bget U' r c = false)
    ∧ length F' + count_nonzero U' ≤ length F + count_nonzero U
    ∧ length F ≤ length F'
    ∧ ((cc < coverage)%Q → length F < length F').
Proof.
  intros Hcov. revert U F cc.
  induction fuel as [|fuel IH]; intros U F cc Hinv Hfuel Hformal Hdisj; [lia|].
  simpl. destruct (Qle_bool coverage cc) eqn:Htest.
  - apply Qle_bool_iff in Htest. exists U, F, cc.
    do 5 (split; [done|]). split; [lia|]. split; [lia|]. intros Hlt.
    destruct (Qlt_not_le _ _ Hlt Htest).
  - assert (cc < coverage)%Q as Hlt.
    { apply Qnot_le_lt. intros Hle. apply Qle_bool_iff in Hle. congruence. }
    pose proof Hinv as (Hshape & Hbelow & _ & _ & Hcc).
    assert (0 < count_nonzero U) as Hcount by (apply (ratio_lt_1 initial initial_pos); lra).
    destruct (mine_one_formal U F initial Hshape Hbelow Hcount initial_pos)
      as (U' & concept & Hone & Hclosed & Hrect & Hshape' & Hbelow' & HbelowU
          & Hless & Hcells & Hgone).
    rewrite Hone. cbn [mbind result_bind Py.bind].
    assert (mining M initial U' (F ++ [concept]) (ratio U' initial)) as Hinv'
      by (by eapply mining_step).
    destruct (IH U' (F ++ [concept]) (ratio U' initial) Hinv' ltac:(lia))
      as (U'' & F' & cc' & Hrun & Hinv'' & Hge & HF & Hdisj' & Hlen & Hlen' & _).
    { apply Forall_app. split; [done|by constructor]. }
    { intros r c. rewrite covered_app. intros [HcF|Hc1]%orb_true_iff; [|by apply Hgone].
      specialize (Hdisj r c HcF). destruct (bget U' r c) eqn:HU'; [|done].
      by rewrite (HbelowU r c HU') in Hdisj. }
    exists U'', F', cc'. do 5 (split; [done|]).
    rewrite length_app in Hlen, Hlen'. simpl in Hlen, Hlen'.
    split; [lia|]. split; [lia|]. intros _. lia.
Qed.

End Mined.

Section GrecondReport.

Import Fca.

Implicit Types (M U : bmatrix) (F : list Concept) (coverage : Q).

Lemma nth_imap {A B : Type} (g : nat → A → B) (l : list A) n (d : A) (e : B) :
  n < length l → nth n (imap g l) e = g n (nth n l d).
Proof.
  revert g n. induction l as [|x l IH]; intros g n Hn; simpl in *; [lia|].
  destruct n as [|n]; [done|]. apply (IH (g ∘ S)). lia.
Qed.

Lemma same_shape_uncovered M F : same_shape (uncovered M F) M.
Proof.
  unfold uncovered. split; [by rewrite length_imap|]. intros r.
  destruct (decide (r < length M)) as [Hr|Hr].
  - rewrite (nth_imap _ _ _ [] []) by done. by rewrite length_imap.
  - rewrite !nth_overflow; [done|lia|rewrite length_imap; lia].
Qed.

Lemma bget_uncovered M F r c :
  bget (uncovered M F) r c = bget M r c && negb (covered F r c).
Proof.
  unfold bget, uncovered.
  destruct (decide (r < length M)) as [Hr|Hr].
  - rewrite (nth_imap _ _ _ [] []) by done.
    destruct (decide (c < length (nth r M []))) as [Hc|Hc].
    + by rewrite (nth_imap _ _ _ false false).
    + rewrite !nth_overflow; [done|lia|rewrite length_imap; lia].
  - rewrite (nth_overflow (imap _ _)) by (rewrite length_imap; lia).
    rewrite (nth_overflow M) by lia. by destruct c.
Qed.

(** What [grecond] does on a valid matrix with a true cell. *)
Lemma grecond_report M coverage :
  ndim2 M = true → 0 < count_nonzero M → (0 < coverage)%Q → (coverage <= 1)%Q →
  ∃ F a,
    grecond M coverage = Ok (F, a)
    ∧ Forall (formal_concept M) F ∧ Forall (rectangle_of M) F
    ∧ (coverage <= a)%Q ∧ (a == ratio (uncovered M F) (count_nonzero M))%Q
    ∧ 0 < length F
    ∧ length F + count_nonzero (uncovered M F) ≤ count_nonzero M.
Proof.
  intros Hrect Hcount Hpos Hle.
  rewrite grecond_unfold by done.
  destruct (mine_report M Hrect (count_nonzero M) Hcount (S (count_nonzero M))
              coverage M [] 0 Hle (initial_mining M Hcount))
    as (U & F & a & Hrun & Hinv & Hge & Hformal & Hdisj & Hlen & _ & Hmore);
    [lia|constructor|done|].
  destruct Hinv as (Hshape & Hbelow & Hcells & Hrects & Ha).
  assert (U = uncovered M F) as ->.
  { apply bmatrix_ext.
    - eapply same_shape_trans; [done|]. split; [|intros r]; symmetry;
        apply same_shape_uncovered.
    - intros r c. rewrite bget_uncovered, Hcells.
      destruct (covered F r c) eqn:Hc; [rewrite (Hdisj r c Hc); done|].
      by rewrite orb_false_r, andb_true_r. }
  exists F, a. do 5 (split; [done|]). simpl in Hlen, Hmore. split; [|lia].
  specialize (Hmore Hpos). lia.
Qed.

End GrecondReport.

Section GrecondExtras.

Import Fca.

Implicit Types (M U : bmatrix) (F : list Concept) (coverage : Q).


(** X1.  [grecond] ends in an [AssertionError] exactly when the matrix
    is not a non-empty 2-D array or the coverage asked for lies outside
    (0, 1]: a valid call never fails one of its assertions. *)
Theorem grecond_assertion_error M coverage :
  grecond M coverage = Raise Py.AssertionError
  ↔ ndim2 M = false ∨ size M = 0 ∨ (coverage <= 0)%Q ∨ (1 < coverage)%Q.
Proof.
  split.
  - intros Hrun.
    destruct (ndim2 M) eqn:Hrect; [|by left].
    destruct (decide (size M = 0)) as [|Hsize]; [by right; left|].
    destruct (Qlt_le_dec 0 coverage) as [Hpos|]; [|by right; right; left].
    destruct (Qlt_le_dec 1 coverage) as [|Hle]; [by right; right; right|].
    exfalso. destruct (decide (count_nonzero M = 0)) as [Hzero|Hcount].
    + unfold grecond in Hrun.
      assert (0 < size M) as Hsize' by lia.
      rewrite Hrect, (proj2 (Nat.ltb_lt 0 _) Hsize'), coverage_asserted in Hrun by done.
      cbn [Py.assert mbind result_bind Py.bind] in Hrun. rewrite Hzero in Hrun.
      cbn [mine] in Hrun. destruct (Qle_bool coverage 0) eqn:H0.
      * apply Qle_bool_iff in H0. lra.
      * unfold mine_one, coverage_of in Hrun. by rewrite Hzero in Hrun.
    + destruct (grecond_report M coverage Hrect ltac:(lia) Hpos Hle) as (F & a & Hok & _).
      congruence.
  - unfold grecond. intros [Hrect|[Hsize|[Hle|Hlt]]].
    + by rewrite Hrect.
    + rewrite Hsize. by destruct (ndim2 M).
    + assert (Qle_bool coverage 0 = true) as -> by (by apply Qle_bool_iff).
      by destruct (ndim2 M), (0 <? size M).
    + assert (Qle_bool coverage 1 = false) as ->.
      { destruct (Qle_bool coverage 1) eqn:H1; [|done]. apply Qle_bool_iff in H1. lra. }
      rewrite andb_false_r. by destruct (ndim2 M), (0 <? size M).
Qed.

(** X2.  On a valid matrix with a true cell, whatever the coverage asked
    for, every concept [grecond] returns is a formal concept of the
    matrix (each side is the closure of the other) and a rectangle of
    true cells within its bounds. *)
Theorem grecond_mines_formal_concepts M coverage :
  ndim2 M = true → 0 < count_nonzero M → (0 < coverage)%Q → (coverage <= 1)%Q →
  ∃ F a, grecond M coverage = Ok (F, a)
         ∧ Forall (formal_concept M) F ∧ Forall (rectangle_of M) F.
Proof.
  intros Hrect Hcount Hpos Hle.
  destruct (grecond_report M coverage Hrect Hcount Hpos Hle)
    as (F & a & Hrun & Hformal & Hrects & _).
  by exists F, a.
Qed.

Lemma grecond_mines_formal_concepts_scenario :
  ∃ F a, grecond Data.scenario (1 # 2) = Ok (F, a)
         ∧ Forall (formal_concept Data.scenario) F
         ∧ Forall (rectangle_of Data.scenario) F.
Proof.
  apply (grecond_mines_formal_concepts Data.scenario (1 # 2));
    [reflexivity|vm_compute; lia|reflexivity|discriminate].
Defined.



(** X4.  [grecond] returns at least one concept and never more
    concepts than the matrix has true cells: every concept adds a cell
    no earlier concept covered. *)
Theorem grecond_concept_count M coverage :
  ndim2 M = true → 0 < count_nonzero M → (0 < coverage)%Q → (coverage <= 1)%Q →
  ∃ F a, grecond M coverage = Ok (F, a)
         ∧ 0 < length F
         ∧ length F + count_nonzero (uncovered M F) ≤ count_nonzero M.
Proof.
  intros Hrect Hcount Hpos Hle.
  destruct (grecond_report M coverage Hrect Hcount Hpos Hle)
    as (F & a & Hrun & _ & _ & _ & _ & Hone & Hlen).
  by exists F, a.
Qed.

Lemma grecond_concept_count_scenario :
  ∃ F a, grecond Data.scenario 1 = Ok (F, a)
         ∧ 0 < length F
         ∧ length F + count_nonzero (uncovered Data.scenario F)
           ≤ count_nonzero Data.scenario.
Proof.
  apply (grecond_concept_count Data.scenario 1);
    [reflexivity|vm_compute; lia|reflexivity|discriminate].
Defined.

End GrecondExtras.

(** ** Counting cells *)

Section Counting.

Import Fca.

Implicit Types (A B M U : bmatrix) (F : list Concept) (r c k : nat) (rows cols : list nat).

Lemma count_row_positions (row : list bool) a :
  length (List.filter (fun c => nth (c - a) row false) (seq a (length row)))
  = length (List.filter id row).
Proof.
  revert a. induction row as [|b row IH]; intros a; [done|].
  assert (List.filter (fun c => nth (c - a) (b :: row) false) (seq (S a) (length row))
          = List.filter (fun c => nth (c - S a) row false) (seq (S a) (length row)))
    as Htail.
  { apply filter_ext_in. intros c Hc. apply in_seq in Hc.
    by replace (c - a) with (S (c - S a)) by lia. }
  cbn [length seq List.filter]. rewrite Nat.sub_diag, Htail.
  change (nth 0 (b :: row) false) with b. destruct b; cbn [length id]; by rewrite IH.
Qed.

Lemma map_nth_seq {X Y : Type} (g : list X → Y) (l : list (list X)) :
  map (fun r => g (nth r l [])) (seq 0 (length l)) = map g l.
Proof.
  apply (nth_ext _ _ (g []) (g [])); [by rewrite !length_map, length_seq|].
  intros n Hn. rewrite length_map, length_seq in Hn.
  rewrite (nth_map_seq _ _ _ _ Hn).
  by rewrite (nth_map_default g l n [] (g [])).
Qed.

(** [np.count_nonzero] row by row, through the cells. *)
Lemma count_nonzero_cells U :
  ndim2 U = true →
  count_nonzero U
  = list_sum (map (fun r => length (List.filter (bget U r) (seq 0 (shape1 U))))
                  (seq 0 (shape0 U))).
Proof.
  intros Hrect. unfold count_nonzero, shape0.
  rewrite <- (map_nth_seq (fun row => length (List.filter id row)) U).
  f_equal. apply map_ext_in. intros r Hr. apply in_seq in Hr.
  rewrite <- (count_row_positions (nth r U []) 0).
  rewrite (ndim2_row U r Hrect) by (unfold shape0; lia).
  f_equal. apply filter_ext. intros c. unfold bget. by rewrite Nat.sub_0_r.
Qed.

Lemma filter_length_split {X : Type} (p q : X → bool) (l : list X) :
  length (List.filter p l)
  = length (List.filter (fun x => p x && negb (q x)) l)
    + length (List.filter (fun x => p x && q x) l).
Proof.
  induction l as [|x l IH]; [done|]. simpl.
  destruct (p x), (q x); simpl; lia.
Qed.

Lemma filter_selected_length (p : nat → bool) cols m :
  NoDup cols → (∀ c, c ∈ cols → c < m) →
  length (List.filter (fun c => p c && Np.mem c cols) (seq 0 m))
  = length (List.filter p cols).
Proof.
  intros Hnd Hin. apply Permutation_length, NoDup_Permutation.
  - apply NoDup_ListNoDup, List.NoDup_filter, List.seq_NoDup.
  - apply NoDup_ListNoDup, List.NoDup_filter. by apply NoDup_ListNoDup.
  - intros c. rewrite !list_elem_of_In, !filter_In, andb_true_iff, in_seq, mem_true.
    rewrite <- !list_elem_of_In. split; [by intros (_ & ? & ?)|].
    intros [Hc Hp]. specialize (Hin c Hc). split; [lia|done].
Qed.

Lemma list_sum_selected (g : nat → nat) rows n :
  NoDup rows → (∀ r, r ∈ rows → r < n) →
  list_sum (map (fun r => if Np.mem r rows then g r else 0) (seq 0 n))
  = list_sum (map g rows).
Proof.
  intros Hnd Hin.
  transitivity (list_sum (map g (List.filter (fun r => Np.mem r rows) (seq 0 n)))).
  - induction (seq 0 n) as [|r l IH]; [done|]. simpl.
    destruct (Np.mem r rows); simpl; lia.
  - apply Permutation_list_sum, Permutation_map, NoDup_Permutation.
    + apply NoDup_ListNoDup, List.NoDup_filter, List.seq_NoDup.
    + done.
    + intros r. rewrite list_elem_of_In, filter_In, in_seq, mem_true.
      split; [by intros [_ ?]|]. intros Hr. specialize (Hin r Hr). split; [lia|done].
Qed.

Lemma list_sum_map_add {X : Type} (f g : X → nat) (l : list X) :
  list_sum (map (fun x => f x + g x) l) = list_sum (map f l) + list_sum (map g l).
Proof. induction l as [|x l IH]; [done|]. simpl. lia. Qed.

(** X8.  Counted over all rows and all columns of a 2-D array,
    [submatrix_intersection_size] is [np.count_nonzero]. *)
Theorem submatrix_intersection_size_of_whole U :
  ndim2 U = true →
  submatrix_intersection_size (seq 0 (shape0 U)) (seq 0 (shape1 U)) U = count_nonzero U.
Proof.
  intros Hrect. by rewrite submatrix_intersection_size_eq, count_nonzero_cells.
Qed.

Lemma submatrix_intersection_size_of_whole_scenario :
  submatrix_intersection_size (seq 0 3) (seq 0 3) Data.scenario
  = count_nonzero Data.scenario.
Proof. exact (submatrix_intersection_size_of_whole Data.scenario eq_refl). Defined.

(** X7.  Erasing a rectangle given by distinct rows and columns of a
    2-D array leaves no true cell in it, changes no cell outside it,
    and lowers [np.count_nonzero] by exactly the
    [submatrix_intersection_size] the rectangle had. *)
Theorem erase_submatrix_values_accounts rows cols U :
  ndim2 U = true → NoDup rows → NoDup cols →
  (∀ r, r ∈ rows → r < shape0 U) → (∀ c, c ∈ cols → c < shape1 U) →
  let U' := erase_submatrix_values rows cols U in
  submatrix_intersection_size rows cols U' = 0
  ∧ (∀ r c, bget U' r c = bget U r c && negb (Np.mem r rows && Np.mem c cols))
  ∧ count_nonzero U = count_nonzero U' + submatrix_intersection_size rows cols U.
Proof.
  intros Hrect Hnr Hnc Hr Hc U'.
  assert (∀ r c, bget U' r c = bget U r c && negb (Np.mem r rows && Np.mem c cols))
    as Hcells by (intros r c; apply bget_erase).
  split; [|split; [done|]].
  - destruct (submatrix_intersection_size rows cols U') eqn:Hsize; [done|].
    assert (0 < submatrix_intersection_size rows cols U') as Hpos by lia.
    apply submatrix_intersection_size_pos in Hpos as (r & c & Hr' & Hc' & Hcell).
    rewrite Hcells in Hcell. apply mem_true in Hr', Hc'.
    rewrite Hr', Hc' in Hcell. by rewrite andb_false_r in Hcell.
  - pose proof (same_shape_erase rows cols U) as Hshape. fold U' in Hshape.
    destruct (same_shape_shapes U' U Hshape) as (H0 & H1 & _).
    rewrite (count_nonzero_cells U Hrect).
    rewrite (count_nonzero_cells U' (same_shape_ndim2 U' U Hshape Hrect)), H0, H1.
    rewrite submatrix_intersection_size_eq.
    rewrite <- (list_sum_selected _ rows (shape0 U) Hnr Hr).
    rewrite <- list_sum_map_add. f_equal. apply map_ext. intros r.
    rewrite (filter_length_split (bget U r) (fun c => Np.mem r rows && Np.mem c cols)).
    f_equal.
    + f_equal. apply filter_ext. intros c. by rewrite Hcells.
    + destruct (Np.mem r rows) eqn:Hmem.
      * rewrite <- (filter_selected_length (bget U r) cols (shape1 U) Hnc Hc).
        done.
      * simpl. induction (seq 0 (shape1 U)) as [|c l IH]; [done|]. simpl.
        by rewrite andb_false_r.
Qed.

Lemma erase_submatrix_values_accounts_scenario :
  let U' := erase_submatrix_values [0; 1] [0; 1] Data.scenario in
  submatrix_intersection_size [0; 1] [0; 1] U' = 0
  ∧ (∀ r c, bget U' r c
            = bget Data.scenario r c && negb (Np.mem r [0; 1] && Np.mem c [0; 1]))
  ∧ count_nonzero Data.scenario
    = count_nonzero U' + submatrix_intersection_size [0; 1] [0; 1] Data.scenario.
Proof.
  apply (erase_submatrix_values_accounts [0; 1] [0; 1] Data.scenario);
    [reflexivity
    |by apply (bool_decide_unpack _)
    |by apply (bool_decide_unpack _)
    |intros i Hi; vm_compute; by_members Hi
    |intros i Hi; vm_compute; by_members Hi].
Defined.

End Counting.

(** ** Factor matrices *)

Section FactorExtras.

Import Fca.

Implicit Types (A B M U : bmatrix) (F : list Concept) (r c k : nat).

(** X5.  For a non-empty list of concepts whose indices fit the
    dataset, [get_factor_matrices_from_concepts] returns an [rows] x
    [len(concepts)] matrix [Af] and a [len(concepts)] x [cols] matrix
    [Bf]: [Af[r][k]] is set exactly when row [r] is in the extent of
    concept [k], and [Bf[k][c]] exactly when column [c] is in its
    intent. *)
Theorem factor_matrices_mark_members F rows cols :
  0 < length F → 0 < rows → 0 < cols → Forall (indices_in rows cols) F →
  ∃ Af Bf,
    get_factor_matrices_from_concepts F rows cols = Ok (Af, Bf)
    ∧ length Af = rows ∧ (∀ r, r < rows → length (nth r Af []) = length F)
    ∧ length Bf = length F ∧ (∀ k, k < length F → length (nth k Bf []) = cols)
    ∧ (∀ r k, bget Af r k = true
              ↔ ∃ concept, F !! k = Some concept ∧ r ∈ extent concept)
    ∧ (∀ k c, bget Bf k c = true
              ↔ ∃ concept, F !! k = Some concept ∧ c ∈ intent concept).
Proof.
  intros HF Hrows Hcols Hin.
  exists (fst (_get_matrices F rows cols)), (snd (_get_matrices F rows cols)).
  destruct (get_matrices_cells F rows cols) as ([HlA HrA] & [HlB HrB] & HA & HB).
  split.
  { unfold get_factor_matrices_from_concepts.
    rewrite !(proj2 (Nat.ltb_lt 0 _)) by done. simpl.
    by destruct (_get_matrices F rows cols). }
  unfold Np.full in HlA, HlB. rewrite length_replicate in HlA, HlB.
  split; [done|]. split.
  { intros r Hr. rewrite HrA, row_full. by rewrite (proj2 (Nat.ltb_lt _ _) Hr). }
  split; [done|]. split.
  { intros k Hk. rewrite HrB, row_full. by rewrite (proj2 (Nat.ltb_lt _ _) Hk). }
  split.
  - intros r k. rewrite HA. split; [by intros [_ ?]|].
    intros (concept & Hk & Hr). split; [|by exists concept].
    rewrite Forall_forall in Hin. apply (Hin concept); [|done].
    by eapply list_elem_of_lookup_2.
  - intros k c. rewrite HB. split; [by intros [_ ?]|].
    intros (concept & Hk & Hc). split; [|by exists concept].
    rewrite Forall_forall in Hin. apply (Hin concept); [|done].
    by eapply list_elem_of_lookup_2.
Qed.

Lemma factor_matrices_mark_members_scenario :
  ∃ Af Bf,
    get_factor_matrices_from_concepts Data.scenario_concepts 3 3 = Ok (Af, Bf)
    ∧ length Af = 3 ∧ length Bf = 2
    ∧ (bget Af 2 1 = true
       ↔ ∃ concept, Data.scenario_concepts !! 1 = Some concept ∧ 2 ∈ extent concept).
Proof.
  destruct (factor_matrices_mark_members Data.scenario_concepts 3 3)
    as (Af & Bf & Hrun & HlA & _ & HlB & _ & HA & _).
  - vm_compute. lia.
  - lia.
  - lia.
  - apply Forall_cons; split; [|apply Forall_cons; split; [|apply Forall_nil]];
      (split; simpl; intros i Hi; by_members Hi).
  - exists Af, Bf. split; [exact Hrun|]. split; [exact HlA|]. split; [exact HlB|].
    exact (HA 2 1).
Defined.

(** X6.  The boolean product of the factor matrices of a list of
    concepts is true exactly on the cells that lie in the rectangle of
    one of the concepts. *)
Theorem factor_product_marks_cover F (rows cols : nat) Af Bf :
  get_factor_matrices_from_concepts F rows cols = Ok (Af, Bf) →
  Forall (indices_in rows cols) F →
  ∀ r c, r < rows → c < cols →
    bget (matmul Af Bf) r c = true
    ↔ ∃ concept, concept ∈ F ∧ r ∈ extent concept ∧ c ∈ intent concept.
Proof.
  unfold get_factor_matrices_from_concepts. intros Hrun _ r c Hr Hc.
  destruct (0 <? length F) eqn:HF; [|done]. apply Nat.ltb_lt in HF.
  destruct (0 <? rows); [|done]. destruct (0 <? cols); [|done].
  simpl in Hrun. injection Hrun as Hrun.
  pose proof (factor_product_covered F rows cols r c HF Hr Hc) as Hprod.
  rewrite Hrun in Hprod. simpl in Hprod. rewrite Hprod. apply covered_true.
Qed.

Lemma factor_product_marks_cover_scenario :
  bget (matmul [[true; false]; [true; true]; [false; true]]
               [[true; true; false]; [false; true; true]]) 0 2 = true
  ↔ ∃ concept, concept ∈ Data.scenario_concepts
               ∧ 0 ∈ extent concept ∧ 2 ∈ intent concept.
Proof.
  apply (factor_product_marks_cover Data.scenario_concepts 3 3); [reflexivity| |lia|lia].
  apply Forall_cons; split; [|apply Forall_cons; split; [|apply Forall_nil]];
    (split; simpl; intros i Hi; by_members Hi).
Defined.

End FactorExtras.

(** ** Similarities *)

Section Symmetry.

Import Common.

Implicit Types (dataset : fmatrix) (means : list float) (a b : list float).

Lemma float_mul_comm (x y : float) : (x * y = y * x)%float.
Proof.
  apply Prim2SF_inj. rewrite !FloatAxioms.mul_spec. unfold SF64mul, SFmul.
  destruct (Prim2SF x) as [sx|sx| |sx mx ex], (Prim2SF y) as [sy|sy| |sy my ey];
    try reflexivity; rewrite (xorb_comm sx sy); try reflexivity.
  by rewrite (Pos.mul_comm mx my), (Z.add_comm ex ey).
Qed.

Lemma dot_comm a b : Np.dot a b = Np.dot b a.
Proof.
  unfold Np.dot. generalize 0%float as acc. revert b.
  induction a as [|x a IH]; intros [|y b] acc; try done.
  simpl. rewrite (float_mul_comm x y). apply IH.
Qed.

Lemma filter_strongly_sorted {X : Type} (R : X → X → Prop) (p : X → bool) (l : list X) :
  StronglySorted R l → StronglySorted R (List.filter p l).
Proof.
  induction 1 as [|x l Hl IH Hx]; simpl; [constructor|].
  destruct (p x); [|done]. constructor; [done|].
  apply Forall_forall. intros y Hy. apply list_elem_of_In, filter_In in Hy as [Hy _].
  rewrite Forall_forall in Hx. by apply Hx, list_elem_of_In.
Qed.

Lemma intersect1d_sorted (x y : list nat) : StronglySorted lt (Np.intersect1d x y).
Proof. apply filter_strongly_sorted, unique_sorted. Qed.

Lemma intersect1d_comm (x y : list nat) : Np.intersect1d x y = Np.intersect1d y x.
Proof.
  apply sorted_ext; [apply intersect1d_sorted..|].
  intros p. rewrite !elem_of_intersect1d. tauto.
Qed.

Lemma overlap_comm dataset u v : overlap dataset u v = overlap dataset v u.
Proof. apply intersect1d_comm. Qed.

Lemma cosine_similarity_comm dataset u v means :
  cosine_similarity dataset u v means = cosine_similarity dataset v u means.
Proof.
  unfold cosine_similarity. rewrite !cosine_similarity_eps_eq, (overlap_comm dataset v u).
  destruct (length (overlap dataset u v) =? 0); [done|]. cbn zeta.
  set (cu := Np.take (nth u dataset []) _). set (cv := Np.take (nth v dataset []) _).
  by rewrite (dot_comm cv cu), (float_mul_comm (Np.dot cv cv)).
Qed.

Lemma pearson_similarity_comm dataset u v means :
  pearson_similarity dataset u v means = pearson_similarity dataset v u means.
Proof.
  unfold pearson_similarity. rewrite !pearson_similarity_eps_eq, (overlap_comm dataset v u).
  destruct (length (overlap dataset u v) =? 0); [done|]. cbn zeta.
  set (cu := Np.sub_scalar (Np.take (nth u dataset []) _) _).
  set (cv := Np.sub_scalar (Np.take (nth v dataset []) _) _).
  by rewrite (dot_comm cv cu), (float_mul_comm (Np.dot cv cv)).
Qed.

Lemma adjusted_cosine_similarity_comm dataset u v means :
  adjusted_cosine_similarity dataset u v means
  = adjusted_cosine_similarity dataset v u means.
Proof.
  unfold adjusted_cosine_similarity.
  rewrite !adjusted_cosine_similarity_eps_eq, (overlap_comm dataset v u).
  destruct (length (overlap dataset u v) =? 0); [done|]. cbn zeta.
  set (cu := Np.sub_vec (Np.take (nth u dataset []) _) _).
  set (cv := Np.sub_vec (Np.take (nth v dataset []) _) _).
  by rewrite (dot_comm cv cu), (float_mul_comm (Np.dot cv cv)).
Qed.

(** X9.  The three similarities are symmetric in the two rows they
    compare, bit for bit: swapping the rows gives the same float. *)
Theorem similarity_symmetric dataset u v means :
  cosine_similarity dataset u v means = cosine_similarity dataset v u means
  ∧ pearson_similarity dataset u v means = pearson_similarity dataset v u means
  ∧ adjusted_cosine_similarity dataset u v means
    = adjusted_cosine_similarity dataset v u means.
Proof.
  split; [apply cosine_similarity_comm|].
  split; [apply pearson_similarity_comm|apply adjusted_cosine_similarity_comm].
Qed.

End Symmetry.

(** ** The similarity matrix *)

Section Loops.

Lemma fold_seq_from {St : Type} (P : nat → St → Prop) (step : St → nat → St) a n s0 :
  P a s0 → (∀ k s, a ≤ k < a + n → P k s → P (S k) (step s k)) →
  P (a + n) (fold_left step (seq a n) s0).
Proof.
  revert a s0. induction n as [|n IH]; intros a s0 H0 Hstep.
  - by rewrite Nat.add_0_r.
  - simpl. replace (a + S n) with (S a + n) by lia. apply IH.
    + apply Hstep; [lia|done].
    + intros k s Hk. apply Hstep. lia.
Qed.

Lemma fold_seq_invariant {St : Type} (P : nat → St → Prop) (step : St → nat → St) n s0 :
  P 0 s0 → (∀ k s, k < n → P k s → P (S k) (step s k)) →
  P n (fold_left step (seq 0 n) s0).
Proof.
  intros H0 Hstep. apply (fold_seq_from P step 0 n s0 H0).
  intros k s Hk. apply Hstep. lia.
Qed.

End Loops.

Section SimilarityMatrix.

Import Common.

Variables (dataset : fmatrix) (means : list float) (f : strategy).

Local Abbreviation filled := (Common.filled dataset means f).
Local Abbreviation val := (pair_value dataset means f).

Lemma filled_ext (V V' : nat → nat → Prop) m :
  (∀ a b, a ≤ b → b < (length dataset) → (V a b ↔ V' a b)) → filled V m → filled V' m.
Proof.
  intros Hext (Hlen & Hrows & Hcells). split; [done|]. split; [done|].
  intros a b Hab Hb. destruct (Hcells a b Hab Hb) as [Hin Hout].
  specialize (Hext a b Hab Hb). split; intros HV; [apply Hin|apply Hout]; tauto.
Qed.

Lemma square_Forall (m : fmatrix) :
  length m = (length dataset) → (∀ r, r < (length dataset) → length (nth r m []) = (length dataset)) →
  Forall (fun row => length row = length m) m.
Proof.
  intros Hlen Hrows. apply Forall_forall. intros row Hrow.
  apply list_elem_of_In, (In_nth _ _ []) in Hrow as (r & Hr & <-).
  rewrite Hlen. apply Hrows. lia.
Qed.

Lemma filled_initial : filled (fun _ _ => False) (Np.full (length dataset) (length dataset) nan).
Proof.
  unfold Np.full. split; [by rewrite length_replicate|]. split.
  - intros r Hr. rewrite (nth_lookup_Some _ _ _ (replicate (length dataset) nan)).
    + by rewrite length_replicate.
    + by apply lookup_replicate_2.
  - intros a b _ Hb. split; [done|]. intros _.
    assert (∀ x y, Np.fget (replicate (length dataset) (replicate (length dataset) nan)) x y = nan) as Hnan.
    { intros x y. unfold Np.fget.
      destruct (decide (x < (length dataset))) as [Hx|Hx].
      - rewrite (nth_lookup_Some _ _ _ (replicate (length dataset) nan)) by (by apply lookup_replicate_2).
        destruct (decide (y < (length dataset))) as [Hy|Hy].
        + by rewrite (nth_lookup_Some _ _ _ nan) by (by apply lookup_replicate_2).
        + rewrite nth_overflow; [done|rewrite length_replicate; lia].
      - rewrite (nth_overflow (replicate _ _)) by (rewrite length_replicate; lia).
        by destruct y. }
    by rewrite !Hnan.
Qed.

Lemma filled_step i j m :
  i < (length dataset) → j < (length dataset) →
  filled (fun a b => a < i ∨ (a = i ∧ b < j)) m →
  filled (fun a b => a < i ∨ (a = i ∧ b < S j))
    (if i <=? j then
       match similarity_matrix (get_similarity i j dataset means (Some m) f) with
       | Some m' => m'
       | None => m
       end
     else m).
Proof.
  intros Hi Hj Hm. destruct (i <=? j) eqn:Hij.
  - apply Nat.leb_le in Hij. pose proof Hm as (Hlen & Hrows & Hcells).
    destruct (Hcells i j Hij Hj) as [_ Hnan].
    destruct Hnan as [Hnan _]; [lia|].
    assert (similarity_matrix (get_similarity i j dataset means (Some m) f)
            = Some (Np.set2 (Np.set2 m i j (val i j)) j i (val i j))) as ->.
    { unfold pair_value. destruct (i =? j) eqn:Heq.
      - apply Nat.eqb_eq in Heq. subst j.
        by rewrite get_similarity_identity_miss by (by rewrite Hnan).
      - apply Nat.eqb_neq in Heq.
        by rewrite get_similarity_miss by (done || by rewrite Hnan). }
    destruct (symmetric_fill m i j (val i j)) as (Hij' & Hji' & Hother);
      [lia|lia|by apply square_Forall|].
    split; [by rewrite !length_set2|]. split.
    { intros r Hr. rewrite !length_row_set2. by apply Hrows. }
    intros a b Hab Hb. destruct (decide (a = i ∧ b = j)) as [[-> ->]|Hne].
    + split; [done|]. intros HV. exfalso. apply HV. lia.
    + rewrite (Hother a b) by lia. rewrite (Hother b a) by lia.
      destruct (Hcells a b Hab Hb) as [Hin Hout].
      split; intros HV; [apply Hin|apply Hout]; lia.
  - apply Nat.leb_gt in Hij. revert Hm. apply filled_ext. intros a b Hab Hb. lia.
Qed.

Lemma filled_final :
  filled (fun a _ => a < (length dataset)) (get_similarity_matrix dataset means f).
Proof.
  unfold get_similarity_matrix.
  apply (fold_seq_invariant (fun i m => filled (fun a _ => a < i) m)).
  - eapply filled_ext; [|apply filled_initial]. intros a b _ _. simpl. lia.
  - intros i m Hi Hm.
    eapply filled_ext;
      [|apply (fold_seq_invariant
                 (fun j m => filled (fun a b => a < i ∨ (a = i ∧ b < j)) m))].
    + intros a b Hab Hb. simpl. lia.
    + revert Hm. apply filled_ext. intros a b _ _. lia.
    + intros j m' Hj Hm'. by apply filled_step.
Qed.

End SimilarityMatrix.

Section SimilarityMatrixEntries.

Import Common.

(** X10.  [get_similarity_matrix] returns a square matrix over the rows
    of the dataset with 1.0 on the diagonal and, at [(i, j)] and at
    [(j, i)] alike, the value of the strategy on the pair taken with
    the smaller index first: the strategy is only ever asked about
    pairs [i < j] and the matrix is symmetric whatever it answers. *)
Theorem get_similarity_matrix_entries dataset means (f : strategy) i j :
  i < length dataset → j < length dataset →
  let m := get_similarity_matrix dataset means f in
  length m = length dataset
  ∧ length (nth i m []) = length dataset
  ∧ Np.fget m i j
    = if i =? j then 1%float else f dataset (Nat.min i j) (Nat.max i j) means.
Proof.
  intros Hi Hj m.
  destruct (filled_final dataset means f) as (Hlen & Hrows & Hcells).
  split; [done|]. split; [by apply Hrows|].
  destruct (Nat.le_gt_cases i j) as [Hij|Hji].
  - destruct (Hcells i j Hij Hj) as [[Hval _] _]; [done|].
    by rewrite Nat.min_l, Nat.max_r by lia.
  - destruct (Hcells j i ltac:(lia) Hi) as [[_ Hval] _]; [done|].
    rewrite Nat.min_r, Nat.max_l by lia. fold m in Hval. rewrite Hval.
    rewrite (Nat.eqb_sym i j). done.
Qed.

Lemma get_similarity_matrix_entries_tests :
  let m := get_similarity_matrix Data.similarity_dataset [] cosine_similarity in
  length m = 3 ∧ length (nth 2 m []) = 3
  ∧ Np.fget m 2 0 = cosine_similarity Data.similarity_dataset 0 2 [].
Proof.
  apply (get_similarity_matrix_entries Data.similarity_dataset [] cosine_similarity 2 0);
    vm_compute; lia.
Defined.

End SimilarityMatrixEntries.

(** ** Sorting and slicing *)

Section Sorting.

Context {X : Type} (le : X → X → bool).

Implicit Types (x y : X) (l acc : list X).

Lemma insert_by_perm x l : Np.insert_by le x l ≡ₚ x :: l.
Proof.
  induction l as [|y l IH]; [done|]. simpl. destruct (le y x); [|done].
  rewrite IH. apply Permutation_swap.
Qed.

Lemma sort_by_fold_perm l acc :
  fold_left (fun acc x => Np.insert_by le x acc) l acc ≡ₚ l ++ acc.
Proof.
  revert acc. induction l as [|x l IH]; intros acc; [done|]. simpl.
  rewrite IH, insert_by_perm. by rewrite Permutation_middle.
Qed.

Lemma sort_by_perm l : Np.sort_by le l ≡ₚ l.
Proof. unfold Np.sort_by. by rewrite sort_by_fold_perm, app_nil_r. Qed.

Hypothesis le_total : ∀ x y, le x y = true ∨ le y x = true.
Hypothesis le_trans : ∀ x y z, le x y = true → le y z = true → le x z = true.

Lemma insert_by_sorted x l :
  StronglySorted (fun a b => le a b = true) l →
  StronglySorted (fun a b => le a b = true) (Np.insert_by le x l).
Proof.
  induction 1 as [|y l Hl IH Hy]; simpl; [repeat constructor|].
  destruct (le y x) eqn:Hyx.
  - constructor; [done|]. rewrite insert_by_perm. by constructor.
  - assert (le x y = true) as Hxy by (destruct (le_total x y); congruence).
    constructor; [by constructor|]. constructor; [done|].
    eapply Forall_impl; [exact Hy|]. intros z Hz. by eapply le_trans.
Qed.

Lemma sort_by_sorted l : StronglySorted (fun a b => le a b = true) (Np.sort_by le l).
Proof.
  unfold Np.sort_by.
  assert (StronglySorted (fun a b => le a b = true) []) as Hacc by constructor.
  revert Hacc. generalize (@nil X) as acc.
  induction l as [|x l IH]; intros acc Hacc; [done|]. simpl.
  by apply IH, insert_by_sorted.
Qed.

End Sorting.

Section LastK.

Context {X : Type}.

Implicit Types (l : list X) (k : nat).

Lemma last_k_length k l :
  length (Np.last_k k l) = if k =? 0 then length l else Nat.min k (length l).
Proof. unfold Np.last_k. destruct (k =? 0); [done|]. rewrite length_drop. lia. Qed.

Lemma last_k_split k l : ∃ rest, l = rest ++ Np.last_k k l.
Proof.
  unfold Np.last_k. destruct (k =? 0); [by exists []|].
  exists (take (length l - k) l). by rewrite take_drop.
Qed.

Lemma sorted_app_order (R : X → X → Prop) (l1 l2 : list X) :
  StronglySorted R (l1 ++ l2) →
  StronglySorted R l2 ∧ Forall (fun x => Forall (R x) l2) l1.
Proof.
  induction l1 as [|x l1 IH]; simpl; [by split|].
  intros Hs. apply StronglySorted_inv in Hs as [Hs Hx].
  destruct (IH Hs) as [H2 H1]. split; [done|]. constructor; [|done].
  apply Forall_app in Hx. by destruct Hx.
Qed.

End LastK.

Section FloatTotalOrder.

Lemma SFleb_trans (x y z : spec_float) :
  SFleb x y = true → SFleb y z = true → SFleb x z = true.
Proof.
  unfold SFleb.
  destruct x as [sx|sx| |sx mx ex], y as [sy|sy| |sy my ey], z as [sz|sz| |sz mz ez];
    simpl; try done;
    repeat match goal with s : bool |- _ => destruct s end; simpl; try done.
  all: repeat match goal with
       | |- context [PosDef.Pos.compare_cont Eq ?a ?b] =>
           change (PosDef.Pos.compare_cont Eq a b) with (Pos.compare a b)
       end;
    destruct (Z.compare_spec ex ey), (Z.compare_spec ey ez), (Z.compare_spec ex ez);
    try lia; try done; subst;
    destruct (Pos.compare_spec mx my), (Pos.compare_spec my mz), (Pos.compare_spec mx mz);
    simpl; try lia; try done.
Qed.

Lemma ltb_leb (x y : float) : PrimFloat.ltb x y = true → PrimFloat.leb x y = true.
Proof.
  rewrite FloatAxioms.ltb_spec, FloatAxioms.leb_spec. unfold SFltb, SFleb.
  by destruct (SFcompare (Prim2SF x) (Prim2SF y)) as [[]|].
Qed.

Lemma float_le_total (x y : float) : Np.float_le x y = true ∨ Np.float_le y x = true.
Proof.
  unfold Np.float_le.
  destruct (Np.isnan y) eqn:Hy; [by left|]. destruct (Np.isnan x) eqn:Hx; [by right|].
  destruct (PrimFloat.ltb y x) eqn:Hlt.
  - right. by apply ltb_leb.
  - left. by apply ltb_false_leb.
Qed.

Lemma float_le_trans (x y z : float) :
  Np.float_le x y = true → Np.float_le y z = true → Np.float_le x z = true.
Proof.
  unfold Np.float_le.
  destruct (Np.isnan z) eqn:Hz; [done|]. destruct (Np.isnan y) eqn:Hy; [done|].
  destruct (Np.isnan x) eqn:Hx; [done|].
  rewrite !FloatAxioms.leb_spec. apply SFleb_trans.
Qed.

Lemma rev_sorted {X : Type} (R : X → X → Prop) (l : list X) :
  StronglySorted R l → StronglySorted (fun a b => R b a) (rev l).
Proof.
  induction 1 as [|x l Hl IH Hx]; simpl; [constructor|].
  apply StronglySorted_app_2; [|done|repeat constructor].
  intros a b Ha ->%list_elem_of_singleton.
  rewrite Forall_forall in Hx. by apply Hx, list_elem_of_In, in_rev, list_elem_of_In.
Qed.

Lemma imap_pairs {X : Type} (a : list X) (d : X) k :
  Forall (fun ix => k ≤ fst ix ∧ snd ix = nth (fst ix - k) a d)
         (imap (fun i x => (k + i, x)) a).
Proof.
  revert k. induction a as [|x a IH]; intros k; [constructor|]. simpl. constructor.
  - simpl. split; [lia|]. by replace (k + 0 - k) with 0 by lia.
  - specialize (IH (S k)).
    rewrite (imap_ext _ (fun i y => (S k + i, y))); last first.
    { intros i y _. simpl. f_equal. lia. }
    eapply Forall_impl; [exact IH|]. intros [i y] [Hi Hy]. simpl in *.
    split; [lia|]. rewrite Hy. by replace (i - k) with (S (i - S k)) by lia.
Qed.

(** [np.argsort] lists the positions by ascending value, NaN last. *)
Lemma argsort_sorted (a : list float) :
  StronglySorted (fun p q => Np.float_le (nth p a nan) (nth q a nan) = true)
                 (Np.argsort a).
Proof.
  unfold Np.argsort.
  set (le := fun p q : nat * float => Np.float_le (snd p) (snd q)).
  pose proof (sort_by_sorted le) as Hs.
  specialize (Hs (fun p q => float_le_total (snd p) (snd q))).
  specialize (Hs (fun p q r => float_le_trans (snd p) (snd q) (snd r))).
  specialize (Hs (imap (fun i x => (i, x)) a)).
  assert (Forall (fun ix : nat * float => snd ix = nth (fst ix) a nan)
                 (Np.sort_by le (imap (fun i x => (i, x)) a))) as Hp.
  { rewrite sort_by_perm. eapply Forall_impl; [apply (imap_pairs a nan 0)|].
    intros [i x] [_ Hx]. simpl in *. by rewrite Nat.sub_0_r in Hx. }
  induction Hs as [|ix l Hl IH Hix]; simpl; [constructor|].
  apply Forall_cons in Hp as [Hi Hp]. constructor; [by apply IH|].
  apply Forall_map. rewrite Forall_forall in Hix, Hp. apply Forall_forall.
  intros jy Hin. specialize (Hix jy Hin). specialize (Hp jy Hin). unfold le in Hix.
  simpl. by rewrite <- Hi, <- Hp.
Qed.

End FloatTotalOrder.

(** ** The top-k biclusters of a user *)

Section TopK.

Import Common.

Variables (biclusters : list Bicluster) (user_as_tidset : list nat)
          (number_of_top_k_patterns : nat)
          (similarity_strategy : list nat → Bicluster → Q).

Local Abbreviation score := (similarity_strategy user_as_tidset).
Local Abbreviation similar := (Common.similar biclusters user_as_tidset similarity_strategy).
Local Abbreviation scored := (Common.scored biclusters user_as_tidset similarity_strategy).
Local Abbreviation top :=
  (get_top_k_biclusters_for_user biclusters user_as_tidset number_of_top_k_patterns
                                 similarity_strategy).

Lemma scored_similar : map fst scored = similar.
Proof.
  unfold Common.scored, Common.similar. induction biclusters as [|b l IH]; [done|]. simpl.
  destruct (negb (Qle_bool (similarity_strategy user_as_tidset b) 0)); simpl;
    by rewrite IH.
Qed.

Lemma scored_scores : Forall (fun bs => snd bs = score (fst bs)) scored.
Proof.
  unfold Common.scored. apply Forall_forall. intros bs Hbs.
  apply list_elem_of_In, filter_In in Hbs as [Hbs _].
  apply in_map_iff in Hbs as (b & <- & _). done.
Qed.

Lemma by_score_total p q : by_score p q = true ∨ by_score q p = true.
Proof.
  unfold by_score. destruct (Qlt_le_dec (snd q) (snd p)) as [Hlt|Hle].
  - right. apply Qle_bool_iff. lra.
  - left. by apply Qle_bool_iff.
Qed.

Lemma by_score_trans p q r :
  by_score p q = true → by_score q r = true → by_score p r = true.
Proof. unfold by_score. rewrite !Qle_bool_iff. lra. Qed.

Lemma sorted_by_score :
  StronglySorted (fun a b => (score a <= score b)%Q)
                 (map fst (Np.sort_by by_score scored)).
Proof.
  pose proof (sort_by_sorted by_score by_score_total by_score_trans scored) as Hs.
  assert (Forall (fun bs => snd bs = score (fst bs)) (Np.sort_by by_score scored)) as Hsc.
  { rewrite sort_by_perm. apply scored_scores. }
  induction Hs as [|bs l Hl IH Hbs]; simpl; [constructor|].
  apply Forall_cons in Hsc as [Hb Hsc]. constructor; [by apply IH|].
  apply Forall_map. rewrite Forall_forall in Hbs, Hsc. apply Forall_forall.
  intros bs' Hin. specialize (Hbs bs' Hin). specialize (Hsc bs' Hin).
  unfold by_score in Hbs. apply Qle_bool_iff in Hbs. simpl. by rewrite <- Hb, <- Hsc.
Qed.

Lemma top_eq : top = Np.last_k number_of_top_k_patterns (map fst (Np.sort_by by_score scored)).
Proof. done. Qed.

Lemma sorted_similar : map fst (Np.sort_by by_score scored) ≡ₚ similar.
Proof. by rewrite sort_by_perm, scored_similar. Qed.

Lemma top_report :
  length top
  = (if number_of_top_k_patterns =? 0 then length similar
     else Nat.min number_of_top_k_patterns (length similar))
  ∧ StronglySorted (fun a b => (score a <= score b)%Q) top
  ∧ ∃ rest, rest ++ top ≡ₚ similar
            ∧ Forall (fun x => Forall (fun y => (score x <= score y)%Q) top) rest.
Proof.
  rewrite top_eq. split.
  { rewrite last_k_length. by rewrite (Permutation_length sorted_similar). }
  destruct (last_k_split number_of_top_k_patterns (map fst (Np.sort_by by_score scored)))
    as [rest Hsplit].
  pose proof sorted_by_score as Hs. rewrite Hsplit in Hs.
  apply sorted_app_order in Hs as [Htop Hrest].
  split; [done|]. exists rest. split; [|done].
  by rewrite <- Hsplit, sorted_similar.
Qed.

End TopK.

Section TopKExtras.

Import Common.

(** X11.  [get_top_k_biclusters_for_user] returns biclusters of the
    given list whose score for the user is positive: the [k] of them
    there are at most, and, since [a[-0:]] is the whole list, all of
    them when [k] is 0. *)
Theorem get_top_k_biclusters_for_user_selects biclusters user_as_tidset k
    (similarity_strategy : list nat → Bicluster → Q) :
  let similar :=
    List.filter (fun b => negb (Qle_bool (similarity_strategy user_as_tidset b) 0))
                biclusters in
  let top := get_top_k_biclusters_for_user biclusters user_as_tidset k
               similarity_strategy in
  length top = (if k =? 0 then length similar else Nat.min k (length similar))
  ∧ Forall (fun b => b ∈ biclusters ∧ (0 < similarity_strategy user_as_tidset b)%Q) top.
Proof.
  intros similar top.
  destruct (top_report biclusters user_as_tidset k similarity_strategy)
    as (Hlen & _ & rest & Hperm & _).
  unfold Common.similar in Hlen, Hperm.
  split; [done|]. fold top in Hperm. fold similar in Hperm.
  apply Forall_forall. intros b Hb.
  assert (b ∈ similar) as Hin by (rewrite <- Hperm; set_solver).
  apply list_elem_of_In, filter_In in Hin as [Hin Hpos]. split; [by apply list_elem_of_In|].
  apply Qnot_le_lt. intros Hle. apply Qle_bool_iff in Hle. by rewrite Hle in Hpos.
Qed.

(** X12.  The biclusters [get_top_k_biclusters_for_user] returns are in
    ascending order of score, and they are the best: the positively
    scored biclusters left out score no higher than any returned
    one. *)
Theorem get_top_k_biclusters_for_user_best biclusters user_as_tidset k
    (similarity_strategy : list nat → Bicluster → Q) :
  let score := similarity_strategy user_as_tidset in
  let top := get_top_k_biclusters_for_user biclusters user_as_tidset k
               similarity_strategy in
  StronglySorted (fun a b => (score a <= score b)%Q) top
  ∧ ∃ rest,
      rest ++ top ≡ₚ List.filter (fun b => negb (Qle_bool (score b) 0)) biclusters
      ∧ Forall (fun x => Forall (fun y => (score x <= score y)%Q) top) rest.
Proof.
  intros score top.
  destruct (top_report biclusters user_as_tidset k similarity_strategy)
    as (_ & Hsorted & Hrest).
  unfold Common.similar in Hrest. by split.
Qed.

End TopKExtras.

(** ** Thresholds, merges and scores *)

Section Threshold.

Import Common.

Lemma leb_nan_r (x y : float) : Np.isnan y = true → PrimFloat.leb x y = false.
Proof.
  intros Hy. apply isnan_spec in Hy.
  rewrite FloatAxioms.leb_spec. unfold SFleb. rewrite Hy.
  by destruct (Prim2SF x).
Qed.

Lemma leb_nan_l (x y : float) : Np.isnan x = true → PrimFloat.leb x y = false.
Proof.
  intros Hx. apply isnan_spec in Hx.
  rewrite FloatAxioms.leb_spec. unfold SFleb. by rewrite Hx.
Qed.

(** X13.  [get_indices_above_threshold] returns, in ascending order, the
    positions whose value is at least the threshold.  A missing rating
    (NaN) is never among them, and a NaN threshold selects nothing. *)
Theorem get_indices_above_threshold_selects subset binarization_threshold :
  let indices := get_indices_above_threshold subset binarization_threshold in
  StronglySorted lt indices
  ∧ (∀ p, p ∈ indices
          ↔ p < length subset
            ∧ PrimFloat.leb binarization_threshold (nth p subset nan) = true)
  ∧ (∀ p, Np.isnan (nth p subset nan) = true → p ∉ indices)
  ∧ (Np.isnan binarization_threshold = true → indices = []).
Proof.
  intros indices.
  assert (∀ p, p ∈ indices
               ↔ p < length subset
                 ∧ PrimFloat.leb binarization_threshold (nth p subset nan) = true) as Hin.
  { intros p. unfold indices, get_indices_above_threshold.
    rewrite list_elem_of_In, filter_In, in_seq. split; intros [? ?]; split; (lia || done). }
  split; [apply filter_seq_sorted|]. split; [done|]. split.
  - intros p Hnan [_ Hle]%Hin. by rewrite leb_nan_r in Hle.
  - intros Hnan. destruct indices as [|p l] eqn:Heq; [done|].
    assert (p ∈ (p :: l)) as [_ Hle]%Hin by (by left). by rewrite leb_nan_l in Hle.
Qed.

Lemma get_indices_above_threshold_selects_ratings :
  get_indices_above_threshold [nan; 1; 3]%float 3%float = [2]
  ∧ (0 ∉ get_indices_above_threshold [nan; 1; 3]%float 3%float)
  ∧ get_indices_above_threshold [nan; 1; 3]%float nan = [].
Proof.
  destruct (get_indices_above_threshold_selects [nan; 1; 3]%float 3%float)
    as (_ & _ & Hnan & _).
  destruct (get_indices_above_threshold_selects [nan; 1; 3]%float nan)
    as (_ & _ & _ & Hempty).
  split; [reflexivity|]. split; [apply Hnan; reflexivity|apply Hempty; reflexivity].
Defined.

End Threshold.

Section MergeExtras.

Import Common.

(** X14.  The merged bicluster has strictly ascending extent and
    intent, merging it again changes nothing, and it depends only on
    which biclusters are given, not on their order or repetition. *)
Theorem merge_biclusters_canonical (l : list Bicluster) :
  StronglySorted lt (extent (merge_biclusters l))
  ∧ StronglySorted lt (intent (merge_biclusters l))
  ∧ merge_biclusters [merge_biclusters l] = merge_biclusters l
  ∧ ∀ l', (∀ b, b ∈ l ↔ b ∈ l') → merge_biclusters l' = merge_biclusters l.
Proof.
  destruct (merge_sorted l) as [He Hi]. split; [done|]. split; [done|]. split.
  - apply concept_ext; try done; try apply merge_sorted.
    + intros x. rewrite elem_of_merge_extent. split; [|by exists (merge_biclusters l); split; [left|]].
      by intros (b & ->%list_elem_of_singleton & Hx).
    + intros x. rewrite elem_of_merge_intent. split; [|by exists (merge_biclusters l); split; [left|]].
      by intros (b & ->%list_elem_of_singleton & Hx).
  - intros l' Hsame. apply merge_ext; intros x; split; intros (b & Hb & Hx);
      exists b; (split; [by apply Hsame|done]).
Qed.

Lemma merge_biclusters_canonical_pair :
  merge_biclusters [mkConcept [3; 1] [2]; mkConcept [1] [5; 2]; mkConcept [3; 1] [2]]
  = merge_biclusters [mkConcept [1] [5; 2]; mkConcept [3; 1] [2]].
Proof.
  destruct (merge_biclusters_canonical [mkConcept [1] [5; 2]; mkConcept [3; 1] [2]])
    as (_ & _ & _ & Hsame).
  apply Hsame. intros b. rewrite !elem_of_cons, elem_of_nil. tauto.
Defined.

End MergeExtras.

Section ScoreExtras.

Import Common.

Lemma intersect_nonempty (user : list nat) (items : list nat) :
  0 < length (Np.intersect1d user items) ↔ ∃ x, x ∈ user ∧ x ∈ items.
Proof.
  split.
  - destruct (Np.intersect1d user items) as [|x l] eqn:Heq; simpl; [lia|]. intros _.
    exists x. apply elem_of_intersect1d. rewrite Heq. by left.
  - intros (x & Hx). apply elem_of_intersect1d in Hx.
    destruct (Np.intersect1d user items); [by apply elem_of_nil in Hx|simpl; lia].
Qed.

Lemma user_pattern_similarity_positive user pattern :
  (0 < user_pattern_similarity user pattern)%Q ↔ ∃ x, x ∈ user ∧ x ∈ intent pattern.
Proof.
  rewrite <- intersect_nonempty. unfold user_pattern_similarity.
  pose proof (intersect1d_length user (intent pattern)) as Hle.
  destruct (length (intent pattern) =? 0) eqn:Hint.
  - apply Nat.eqb_eq in Hint. split; [intros H; by apply Qlt_irrefl in H|lia].
  - unfold Qlt. simpl. lia.
Qed.

(** X15.  [weight_frequency] and [double_weight_frequency] are positive
    exactly when the pattern has a user and shares an item with the
    user's items (so exactly then can the pattern enter a top-k
    selection), and [weight_frequency] never exceeds the number of
    users of the pattern. *)
Theorem weight_frequency_positive user pattern :
  ((0 < weight_frequency user pattern)%Q
   ↔ extent pattern ≠ [] ∧ ∃ x, x ∈ user ∧ x ∈ intent pattern)
  ∧ ((0 < double_weight_frequency user pattern)%Q
     ↔ extent pattern ≠ [] ∧ ∃ x, x ∈ user ∧ x ∈ intent pattern)
  ∧ (weight_frequency user pattern <= inject_Z (Z.of_nat (length (extent pattern))))%Q.
Proof.
  pose proof (user_pattern_similarity_positive user pattern) as Hpos.
  pose proof (user_pattern_similarity_range user pattern) as [H0 H1].
  unfold weight_frequency, double_weight_frequency.
  set (s := user_pattern_similarity user pattern) in *.
  assert (0 <= inject_Z (Z.of_nat (length (extent pattern))))%Q as He.
  { unfold Qle. simpl. lia. }
  assert ((0 < inject_Z (Z.of_nat (length (extent pattern))))%Q ↔ extent pattern ≠ [])
    as Hext.
  { unfold Qlt. simpl. destruct (extent pattern); simpl; split; (lia || done). }
  assert (0 <= inject_Z (Z.of_nat (length (intent pattern))))%Q as Hi.
  { unfold Qle. simpl. lia. }
  assert ((∃ x, x ∈ user ∧ x ∈ intent pattern)
          → (0 < inject_Z (Z.of_nat (length (intent pattern))))%Q) as Hint.
  { intros (x & _ & Hx). unfold Qlt. simpl.
    destruct (intent pattern); [by apply elem_of_nil in Hx|simpl; lia]. }
  set (e := inject_Z (Z.of_nat (length (extent pattern)))) in *.
  set (i := inject_Z (Z.of_nat (length (intent pattern)))) in *.
  clearbody s e i. split; [|split].
  - rewrite <- Hext, <- Hpos. split.
    + intros Hlt. split; apply Qnot_le_lt; intros Hle; nra.
    + intros [? ?]. nra.
  - assert (0 <= e * i)%Q as Hei by nra. rewrite <- Hext. split.
    + intros Hlt. assert (0 < s)%Q as Hs by (apply Qnot_le_lt; intros Hle; nra).
      split; [apply Qnot_le_lt; intros Hle|by apply Hpos].
      assert (e * i <= 0)%Q by nra. nra.
    + intros [? Hs]. specialize (Hint Hs). apply Hpos in Hs.
      assert (0 < e * i)%Q by nra. nra.
  - nra.
Qed.

End ScoreExtras.

(** ** BBCF: the estimator and its neighbourhoods *)

Section BbcfExtras.

Import Common.

Implicit Types (self : Bbcf.BBCF) (user item : nat) (c : Concept).

Lemma estimate_slices_cache self m user item :
  Bbcf.estimate_slices (Bbcf.with_similarity_matrix self m) user item
  = Bbcf.estimate_slices self user item.
Proof. reflexivity. Qed.

Lemma estimate_similarity_frame self user s :
  Bbcf.similarity_matrix self !! user = None
  ∧ Bbcf.estimate_similarity self user s
    = Bbcf.with_similarity_matrix self
        (<[user := get_similarity_matrix (Bbcf.submatrix s)
                     (Bbcf.similarity_strategy_means s)
                     (Bbcf.similarity_strategy (Bbcf.slice_roles s))]>
           (Bbcf.similarity_matrix self))
  ∨ (∃ m, Bbcf.similarity_matrix self !! user = Some m)
    ∧ Bbcf.estimate_similarity self user s = self.
Proof.
  unfold Bbcf.estimate_similarity.
  destruct (Bbcf.similarity_matrix self !! user) as [m|] eqn:Hm.
  - right. split; [by exists m|done].
  - left. by split.
Qed.

Lemma estimate_similarity_idem self user s :
  Bbcf.estimate_similarity (Bbcf.estimate_similarity self user s) user s
  = Bbcf.estimate_similarity self user s.
Proof.
  destruct (estimate_similarity_frame self user s) as [[Hnone ->]|[_ Heq]].
  - unfold Bbcf.estimate_similarity at 1, Bbcf.with_similarity_matrix at 1.
    cbn [Bbcf.similarity_matrix]. by rewrite lookup_insert_eq.
  - by rewrite !Heq.
Qed.

(** X16.  Asking [BBCF.estimate] again gives the same outcome and leaves
    the estimator as the first call left it: the lazily filled
    similarity cache never changes an answer. *)
Theorem estimate_repeatable self user item :
  Bbcf.estimate (snd (Bbcf.estimate self user item)) user item
  = Bbcf.estimate self user item.
Proof.
  unfold Bbcf.estimate.
  destruct (Bbcf.estimate_slices self user item) as [s|e|] eqn:Hs; simpl.
  - assert (Bbcf.estimate_slices (Bbcf.estimate_similarity self user s) user item = Ok s)
      as ->.
    { destruct (estimate_similarity_frame self user s) as [[_ ->]|[_ ->]]; [|done].
      by rewrite estimate_slices_cache. }
    by rewrite estimate_similarity_idem.
  - by rewrite Hs.
  - by rewrite Hs.
Qed.

(** X17.  [BBCF.estimate] changes nothing of the estimator but the
    similarity cache, and the cache only by adding an entry for the
    user asked about: entries already there are kept as they are. *)
Theorem estimate_touches_only_the_cache self user item :
  let self' := snd (Bbcf.estimate self user item) in
  Bbcf.trainset self' = Bbcf.trainset self
  ∧ Bbcf.dataset self' = Bbcf.dataset self
  ∧ Bbcf.neighborhood self' = Bbcf.neighborhood self
  ∧ Bbcf.user_means self' = Bbcf.user_means self
  ∧ Bbcf.item_means self' = Bbcf.item_means self
  ∧ Bbcf.knn_type_ self' = Bbcf.knn_type_ self
  ∧ Bbcf.knn_k self' = Bbcf.knn_k self
  ∧ Bbcf.similarity_matrix self ⊆ Bbcf.similarity_matrix self'
  ∧ dom (Bbcf.similarity_matrix self') ⊆ dom (Bbcf.similarity_matrix self) ∪ {[user]}.
Proof.
  unfold Bbcf.estimate.
  destruct (Bbcf.estimate_slices self user item) as [s|e|]; simpl;
    [|repeat split; try done; apply union_subseteq_l..].
  destruct (estimate_similarity_frame self user s) as [[Hnone ->]|[_ ->]]; simpl;
    [|repeat split; try done; apply union_subseteq_l].
  do 7 (split; [done|]). split.
  - by apply insert_subseteq.
  - rewrite dom_insert. apply union_least; [apply union_subseteq_r|apply union_subseteq_l].
Qed.

(** X18.  [BBCF.estimate] rejects an unknown user or item with "User
    and/or item is unknown."; for known ones, a missing neighbourhood
    is a [KeyError], and a user outside the extent or an item outside
    the intent of a non-empty neighbourhood is rejected with "User
    and/or item is not in the neighborhood.".  The estimator is left
    unchanged. *)
Theorem estimate_rejects_strangers self user item :
  (Trainset.knows_user (Bbcf.trainset self) user
   && Trainset.knows_item (Bbcf.trainset self) item = false →
   Bbcf.estimate self user item
   = (Raise (Py.PredictionImpossible "User and/or item is unknown."), self))
  ∧ (Trainset.knows_user (Bbcf.trainset self) user
     && Trainset.knows_item (Bbcf.trainset self) item = true →
     (Bbcf.neighborhood self !! user = None →
      Bbcf.estimate self user item = (Raise Py.KeyError, self))
     ∧ ∀ c, Bbcf.neighborhood self !! user = Some c →
            Np.any_nonzero (extent c) = true → Np.any_nonzero (intent c) = true →
            user ∉ extent c ∨ item ∉ intent c →
            Bbcf.estimate self user item
            = (Raise (Py.PredictionImpossible
                        "User and/or item is not in the neighborhood."), self)).
Proof.
  unfold Bbcf.estimate, Bbcf.estimate_slices. split; [by intros ->|].
  intros ->. simpl. split; [by intros ->|].
  intros c -> -> ->. simpl. intros Hout.
  assert (negb (Np.mem user (extent c)) || negb (Np.mem item (intent c)) = true) as ->;
    [|done].
  apply orb_true_iff. destruct Hout as [Hout|Hout]; [left|right];
    apply negb_true_iff, not_mem_false; done.
Qed.

Lemma estimate_rejects_strangers_models :
  Bbcf.estimate Data.cancelling_model 3 0
  = (Raise (Py.PredictionImpossible "User and/or item is unknown."),
     Data.cancelling_model)
  ∧ Bbcf.estimate Data.outsider_model 0 1
    = (Raise (Py.PredictionImpossible "User and/or item is not in the neighborhood."),
       Data.outsider_model).
Proof.
  split.
  - apply (proj1 (estimate_rejects_strangers Data.cancelling_model 3 0)). reflexivity.
  - apply (proj2 (proj2 (estimate_rejects_strangers Data.outsider_model 0 1) eq_refl)
             (mkConcept [1; 2] [1; 2])); [reflexivity..|].
    left. simpl. intros Hin. by_members Hin.
Defined.

End BbcfExtras.

Section NeighborhoodExtras.

Import Common.



(** X20.  The neighbourhood of a user is empty when no bicluster is
    selected for them, also under [force_inclusion_of_user]; otherwise
    its extent is the union of the extents of the selected biclusters,
    plus the user under [force_inclusion_of_user], and its intent the
    union of their intents. *)
Theorem generate_neighborhood_for_members dataset biclusters k threshold
    (strategy : list nat → Bicluster → Q) force user_id :
  let top :=
    get_top_k_biclusters_for_user biclusters
      (get_indices_above_threshold (nth user_id dataset []) threshold) k strategy in
  let merged :=
    Bbcf.generate_neighborhood_for dataset biclusters k threshold strategy force user_id in
  (k = 0 ∨ top = [] → merged = mkConcept [] [])
  ∧ (k ≠ 0 → top ≠ [] →
     (∀ x, x ∈ extent merged
           ↔ (∃ b, b ∈ top ∧ x ∈ extent b) ∨ (force = true ∧ x = user_id))
     ∧ (∀ x, x ∈ intent merged ↔ ∃ b, b ∈ top ∧ x ∈ intent b)).
Proof.
  intros top merged. unfold merged, Bbcf.generate_neighborhood_for. fold top.
  unfold Bicluster in *.
  split.
  - intros [->|Htop]; [done|]. rewrite Htop. simpl.
    destruct (negb _ && negb _); reflexivity.
  - intros Hk Htop.
    assert (biclusters ≠ []) as Hb.
    { intros ->. apply Htop. unfold top, get_top_k_biclusters_for_user. simpl.
      unfold Np.last_k. by destruct (k =? 0). }
    rewrite (proj2 (Nat.eqb_neq k 0) Hk).
    replace (@length Concept biclusters =? 0) with false
      by (symmetry; apply Nat.eqb_neq; by destruct biclusters).
    replace (@length Concept top =? 0) with false
      by (symmetry; apply Nat.eqb_neq; by destruct top).
    cbn [negb andb Np.mem existsb extent]. split; intros x.
    + rewrite elem_of_merge_extent. destruct force; cbn [negb andb].
      * split.
        -- intros (b & [Hb'|Hb']%elem_of_app & Hx); [left; by exists b|].
           apply list_elem_of_singleton in Hb' as ->. simpl in Hx.
           apply list_elem_of_singleton in Hx. by right.
        -- intros [(b & Hb' & Hx)|[_ ->]].
           ++ exists b. split; [apply elem_of_app; by left|done].
           ++ exists (mkConcept [user_id] []). split; [apply elem_of_app; right|];
                by apply list_elem_of_singleton.
      * split; [intros H; by left|]. by intros [H|[? _]].
    + rewrite elem_of_merge_intent. destruct force; cbn [negb andb]; [|done].
      split.
      * intros (b & [Hb'|Hb']%elem_of_app & Hx); [by exists b|].
        apply list_elem_of_singleton in Hb' as ->. by apply elem_of_nil in Hx.
      * intros (b & Hb' & Hx). exists b. split; [apply elem_of_app; by left|done].
Qed.

Lemma generate_neighborhood_for_members_model :
  let top :=
    get_top_k_biclusters_for_user [mkConcept [0] [1; 2]]
      (get_indices_above_threshold (nth 0 Data.ratings []) 1%float) 1 weight_frequency in
  let merged :=
    Bbcf.generate_neighborhood_for Data.ratings [mkConcept [0] [1; 2]] 1 1%float
                                   weight_frequency true 0 in
  (∀ x, x ∈ extent merged ↔ (∃ b, b ∈ top ∧ x ∈ extent b) ∨ (true = true ∧ x = 0))
  ∧ (∀ x, x ∈ intent merged ↔ ∃ b, b ∈ top ∧ x ∈ intent b).
Proof.
  apply (proj2 (generate_neighborhood_for_members Data.ratings [mkConcept [0] [1; 2]]
                  1 1%float weight_frequency true 0)); [lia|].
  vm_compute. discriminate.
Defined.

End NeighborhoodExtras.

(** ** kNN over a neighbourhood *)

Section Arrays.

Context {X : Type}.

Implicit Types (a : list X) (idx : list nat) (mask : list bool).

Lemma index_ok a i : i < length a → ∃ x, Py.index a i = Ok x ∧ x ∈ a.
Proof.
  intros Hi. destruct (lookup_lt_is_Some_2 a i Hi) as [x Hx].
  exists x. unfold Py.index. rewrite Hx. split; [done|]. by eapply list_elem_of_lookup_2.
Qed.

Lemma take_checked_ok a idx :
  Forall (fun p => p < length a) idx →
  ∃ xs, Np.take_checked a idx = Ok xs ∧ length xs = length idx
        ∧ Forall (fun x => x ∈ a) xs.
Proof.
  induction 1 as [|p idx Hp _ (xs & Hxs & Hlen & Hin)]; simpl.
  - by exists [].
  - destruct (index_ok a p Hp) as (x & Hx & Hxa). rewrite Hx, Hxs.
    exists (x :: xs). simpl. split; [done|]. split; [by rewrite Hlen|by constructor].
Qed.

Lemma take_checked_map a idx (d : X) :
  Forall (fun p => p < length a) idx →
  Np.take_checked a idx = Ok (map (fun p => nth p a d) idx).
Proof.
  induction 1 as [|p idx Hp _ IH]; simpl; [done|].
  unfold Py.index. destruct (lookup_lt_is_Some_2 a p Hp) as [x Hx]. rewrite Hx.
  cbn [mbind result_bind Py.bind]. rewrite IH. cbn [mbind result_bind Py.bind].
  by rewrite (nth_lookup_Some _ _ d x Hx).
Qed.

Lemma compress_length_le mask a : length (Np.compress mask a) ≤ length a.
Proof.
  revert a. induction mask as [|b mask IH]; intros [|x a]; simpl; try lia.
  destruct b; simpl; specialize (IH a); lia.
Qed.

Lemma compress_length_same {Y : Type} mask a (b : list Y) :
  length a = length b → length (Np.compress mask a) = length (Np.compress mask b).
Proof.
  revert a b. induction mask as [|m mask IH]; intros [|x a] [|y b] Hlen;
    simpl in *; try done.
  destruct m; simpl; by rewrite (IH a b) by lia.
Qed.

Lemma compress_any mask a :
  length mask = length a → Np.any mask = true → 0 < length (Np.compress mask a).
Proof.
  revert a. induction mask as [|m mask IH]; intros [|x a] Hlen; simpl in *; try done.
  destruct m; simpl; [lia|]. intros Hany. apply IH; [lia|done].
Qed.

End Arrays.

Section Argsort.

Lemma imap_fst {X : Type} (a : list X) k :
  map fst (imap (fun i x => (k + i, x)) a) = seq k (length a).
Proof.
  revert k. induction a as [|x a IH]; intros k; [done|]. simpl.
  rewrite Nat.add_0_r. f_equal. rewrite <- (IH (S k)). f_equal.
  apply imap_ext. intros i y _. simpl. f_equal. lia.
Qed.

Lemma argsort_perm (a : list float) : Np.argsort a ≡ₚ seq 0 (length a).
Proof.
  unfold Np.argsort. rewrite sort_by_perm. by rewrite <- (imap_fst a 0).
Qed.

Lemma top_indices_in_range (a : list float) k :
  Forall (fun p => p < length a) (rev (Np.last_k k (Np.argsort a)))
  ∧ length (rev (Np.last_k k (Np.argsort a)))
    = if k =? 0 then length a else Nat.min k (length a).
Proof.
  split.
  - apply Forall_forall. intros p Hp. apply list_elem_of_In, in_rev, list_elem_of_In in Hp.
    destruct (last_k_split k (Np.argsort a)) as [rest Hsplit].
    assert (p ∈ Np.argsort a) as Hin by (rewrite Hsplit; apply elem_of_app; by right).
    rewrite argsort_perm in Hin. apply list_elem_of_In, in_seq in Hin. lia.
  - rewrite length_rev, last_k_length. by rewrite (Permutation_length (argsort_perm a)), length_seq.
Qed.

End Argsort.

Section KnnExtras.

Import Common.

Lemma valid_ratings (ratings similarities : list float) :
  Forall (fun rating => Np.isnan rating = false)
    (Np.compress
       (zip_with (fun rating similarity =>
                    negb (Np.isnan rating) && negb (PrimFloat.eqb similarity 0))
                 ratings similarities)
       ratings).
Proof.
  revert similarities. induction ratings as [|r ratings IH]; intros [|s similarities];
    simpl; try constructor.
  destruct (Np.isnan r) eqn:Hr; simpl; [apply IH|].
  destruct (PrimFloat.eqb s 0); simpl; [apply IH|]. constructor; [done|apply IH].
Qed.

Lemma valid_similarities (ratings similarities : list float) :
  Forall (fun similarity => PrimFloat.eqb similarity 0 = false)
    (Np.compress
       (zip_with (fun rating similarity =>
                    negb (Np.isnan rating) && negb (PrimFloat.eqb similarity 0))
                 ratings similarities)
       similarities).
Proof.
  revert similarities. induction ratings as [|r ratings IH]; intros [|s similarities];
    simpl; try constructor.
  destruct (Np.isnan r) eqn:Hr; simpl; [apply IH|].
  destruct (PrimFloat.eqb s 0) eqn:Hs; simpl; [apply IH|]. constructor; [done|apply IH].
Qed.

Lemma mapM_index_ok (rows : list (list float)) y :
  Forall (fun row => y < length row) rows →
  ∃ xs, mapM (fun row => Py.index row y) rows = Ok xs ∧ length xs = length rows.
Proof.
  induction 1 as [|row rows Hy _ (xs & Hxs & Hlen)]; simpl.
  - by exists [].
  - destruct (index_ok row y Hy) as (x & Hx & _).
    exists (x :: xs). rewrite Hx. cbn [mbind result_bind Py.bind]. rewrite Hxs.
    cbn [mbind result_bind Py.bind]. split; [done|]. simpl. by rewrite Hlen.
Qed.

(** [get_k_top_neighbors] on arguments that pass its validation and
    index within the arrays. *)
Lemma get_k_top_neighbors_report x y (dataset : fmatrix) users_neighborhood
    (similarity_matrix : fmatrix) means knn_k cols :
  (∀ row, row ∈ dataset → length row = cols) →
  length similarity_matrix = length dataset →
  (∀ row, row ∈ similarity_matrix → length row = length dataset) →
  length means = length dataset →
  0 < knn_k → users_neighborhood ≠ [] →
  x < length dataset → y < cols →
  (∀ u, u ∈ users_neighborhood → u < length dataset) →
  ∃ ratings similarities neighbors_means,
    Knn.get_k_top_neighbors x y dataset users_neighborhood similarity_matrix means knn_k
    = Ok (ratings, similarities, neighbors_means)
    ∧ length ratings = length similarities
    ∧ length similarities = length neighbors_means
    ∧ length ratings ≤ knn_k
    ∧ length ratings ≤ length users_neighborhood
    ∧ Forall (fun rating => Np.isnan rating = false) ratings
    ∧ Forall (fun similarity => PrimFloat.eqb similarity 0 = false) similarities
    ∧ StronglySorted (fun s t => Np.float_le t s = true) similarities.
Proof.
  intros Hrect Hsim Hsimrows Hmeans Hk Hnb Hx Hy Hin.
  unfold Knn.get_k_top_neighbors.
  assert (forallb (fun row => length row =? length (hd [] dataset)) dataset = true) as H1.
  { apply forallb_forall. intros row Hrow. apply Nat.eqb_eq.
    rewrite (Hrect row) by (by apply list_elem_of_In).
    destruct dataset as [|row0 rest]; [simpl in Hx; lia|]. simpl.
    symmetry. apply Hrect. by left. }
  step_ok H1.
  assert ((0 <? length users_neighborhood) = true) as H2.
  { apply Nat.ltb_lt. destruct users_neighborhood; [done|simpl; lia]. }
  step_ok H2.
  assert (forallb (fun row => length row =? length similarity_matrix) similarity_matrix
          = true) as H3.
  { apply forallb_forall. intros row Hrow. apply Nat.eqb_eq.
    rewrite Hsim. by apply Hsimrows, list_elem_of_In. }
  step_ok H3.
  step_ok (proj2 (Nat.eqb_eq _ _) Hsim).
  step_ok (proj2 (Nat.eqb_eq _ _) Hmeans).
  step_ok (proj2 (Nat.ltb_lt _ _) Hk).
  destruct (index_ok similarity_matrix x ltac:(lia)) as (row_x & Hrow_x & Hrow_in).
  step_ok Hrow_x.
  destruct (take_checked_ok row_x users_neighborhood)
    as (neighborhood_similarity & Hns & Hns_len & _).
  { apply Forall_forall. intros u Hu. rewrite (Hsimrows row_x Hrow_in). by apply Hin. }
  step_ok Hns.
  destruct (take_checked_ok dataset users_neighborhood)
    as (neighborhood_rows & Hrows & Hrows_len & Hrows_in).
  { apply Forall_forall. intros u Hu. by apply Hin. }
  step_ok Hrows.
  destruct (mapM_index_ok neighborhood_rows y)
    as (neighborhood_ratings & Hnr & Hnr_len).
  { eapply Forall_impl; [exact Hrows_in|]. intros row Hrow. simpl. by rewrite (Hrect row). }
  step_ok Hnr.
  destruct (take_checked_ok means users_neighborhood)
    as (neighborhood_means & Hnm & Hnm_len & _).
  { apply Forall_forall. intros u Hu. rewrite Hmeans. by apply Hin. }
  step_ok Hnm.
  set (valid_mask := zip_with _ neighborhood_ratings neighborhood_similarity).
  destruct (Np.any valid_mask) eqn:Hany; cbn [negb]; last first.
  { exists [], [], []. repeat split; simpl; (done || lia || constructor). }
  pose proof (argsort_sorted (Np.compress valid_mask neighborhood_similarity)) as Hsorted.
  assert (length valid_mask = length neighborhood_similarity) as Hmask.
  { unfold valid_mask. rewrite length_zip_with. lia. }
  pose proof (compress_any valid_mask neighborhood_similarity Hmask Hany) as Hpos.
  pose proof (compress_length_le valid_mask neighborhood_similarity) as Hle.
  set (valid_similarity := Np.compress valid_mask neighborhood_similarity) in *.
  set (k := Nat.min knn_k (length valid_similarity)).
  destruct (top_indices_in_range valid_similarity k) as [Hidx Hidx_len].
  set (indices := rev (Np.last_k k (Np.argsort valid_similarity))) in *.
  assert ((k =? 0) = false) as Hk0 by (apply Nat.eqb_neq; lia).
  rewrite Hk0 in Hidx_len.
  destruct (take_checked_ok (Np.compress valid_mask neighborhood_ratings) indices)
    as (ratings & Hr & Hr_len & Hr_in).
  { rewrite (compress_length_same valid_mask neighborhood_ratings neighborhood_similarity)
      by lia. exact Hidx. }
  step_ok Hr.
  destruct (take_checked_ok valid_similarity indices) as (similarities & Hs & Hs_len & Hs_in);
    [exact Hidx|].
  pose proof (take_checked_map valid_similarity indices nan Hidx) as Hs_map.
  step_ok Hs.
  destruct (take_checked_ok (Np.compress valid_mask neighborhood_means) indices)
    as (top_means & Hm & Hm_len & _).
  { rewrite (compress_length_same valid_mask neighborhood_means neighborhood_similarity)
      by lia. exact Hidx. }
  step_ok Hm.
  exists ratings, similarities, top_means. split; [done|].
  split; [lia|]. split; [lia|]. split; [lia|]. split; [lia|]. split.
  - pose proof (valid_ratings neighborhood_ratings neighborhood_similarity) as Hvalid.
    fold valid_mask in Hvalid. rewrite Forall_forall in Hvalid.
    eapply Forall_impl; [exact Hr_in|]. intros r. apply Hvalid.
  - split.
    + pose proof (valid_similarities neighborhood_ratings neighborhood_similarity) as Hvalid.
      fold valid_mask in Hvalid. rewrite Forall_forall in Hvalid.
      eapply Forall_impl; [exact Hs_in|]. intros r. apply Hvalid.
    + rewrite Hs in Hs_map. injection Hs_map as ->.
      apply (StronglySorted_fmap _
               (fun p q => Np.float_le (nth q valid_similarity nan)
                                       (nth p valid_similarity nan) = true));
        [done|].
      unfold indices. apply rev_sorted.
      destruct (last_k_split k (Np.argsort valid_similarity)) as [rest Hsplit].
      rewrite Hsplit in Hsorted. by apply StronglySorted_app_1_r in Hsorted.
Qed.

(** X22.  On arguments that pass its validation and index within the
    arrays, [get_k_top_neighbors] returns three arrays of one length,
    at most [knn_k] and at most the size of the neighbourhood, of
    neighbours that have rated the target and whose similarity is not
    zero. *)
Theorem get_k_top_neighbors_selects x y (dataset : fmatrix) users_neighborhood
    (similarity_matrix : fmatrix) means knn_k cols :
  (∀ row, row ∈ dataset → length row = cols) →
  length similarity_matrix = length dataset →
  (∀ row, row ∈ similarity_matrix → length row = length dataset) →
  length means = length dataset →
  0 < knn_k → users_neighborhood ≠ [] →
  x < length dataset → y < cols →
  (∀ u, u ∈ users_neighborhood → u < length dataset) →
  ∃ ratings similarities neighbors_means,
    Knn.get_k_top_neighbors x y dataset users_neighborhood similarity_matrix means knn_k
    = Ok (ratings, similarities, neighbors_means)
    ∧ length ratings = length similarities
    ∧ length similarities = length neighbors_means
    ∧ length ratings ≤ knn_k
    ∧ length ratings ≤ length users_neighborhood
    ∧ Forall (fun rating => Np.isnan rating = false) ratings
    ∧ Forall (fun similarity => PrimFloat.eqb similarity 0 = false) similarities.
Proof.
  intros Hrect Hsim Hsimrows Hmeans Hk Hnb Hx Hy Hin.
  destruct (get_k_top_neighbors_report x y dataset users_neighborhood similarity_matrix
              means knn_k cols Hrect Hsim Hsimrows Hmeans Hk Hnb Hx Hy Hin)
    as (ratings & similarities & neighbors_means & Hrun & H1 & H2 & H3 & H4 & H5 & H6 & _).
  by exists ratings, similarities, neighbors_means.
Qed.

Lemma get_k_top_neighbors_selects_ratings :
  ∃ ratings similarities neighbors_means,
    Knn.get_k_top_neighbors 0 0 Data.ratings [1; 2] Data.ratings_similarity
                            Data.ratings_user_means 5
    = Ok (ratings, similarities, neighbors_means)
    ∧ length ratings = length similarities
    ∧ length similarities = length neighbors_means
    ∧ length ratings ≤ 5
    ∧ length ratings ≤ length [1; 2]
    ∧ Forall (fun rating => Np.isnan rating = false) ratings
    ∧ Forall (fun similarity => PrimFloat.eqb similarity 0 = false) similarities.
Proof.
  apply (get_k_top_neighbors_selects 0 0 Data.ratings [1; 2] Data.ratings_similarity
           Data.ratings_user_means 5 3);
    [intros row Hrow; unfold Data.ratings in Hrow; by_members Hrow
    |reflexivity
    |intros row Hrow; unfold Data.ratings_similarity in Hrow; by_members Hrow
    |reflexivity|lia|discriminate|vm_compute; lia|lia
    |intros u Hu; vm_compute; by_members Hu].
Defined.

(** X23.  Under the same conditions the neighbours are returned from
    the most to the least similar, in the order of [np.argsort]
    reversed: a NaN similarity, which the validity mask lets through,
    comes first. *)
Theorem get_k_top_neighbors_descending x y (dataset : fmatrix) users_neighborhood
    (similarity_matrix : fmatrix) means knn_k cols :
  (∀ row, row ∈ dataset → length row = cols) →
  length similarity_matrix = length dataset →
  (∀ row, row ∈ similarity_matrix → length row = length dataset) →
  length means = length dataset →
  0 < knn_k → users_neighborhood ≠ [] →
  x < length dataset → y < cols →
  (∀ u, u ∈ users_neighborhood → u < length dataset) →
  ∃ ratings similarities neighbors_means,
    Knn.get_k_top_neighbors x y dataset users_neighborhood similarity_matrix means knn_k
    = Ok (ratings, similarities, neighbors_means)
    ∧ StronglySorted (fun s t => Np.float_le t s = true) similarities.
Proof.
  intros Hrect Hsim Hsimrows Hmeans Hk Hnb Hx Hy Hin.
  destruct (get_k_top_neighbors_report x y dataset users_neighborhood similarity_matrix
              means knn_k cols Hrect Hsim Hsimrows Hmeans Hk Hnb Hx Hy Hin)
    as (ratings & similarities & neighbors_means & Hrun & _ & _ & _ & _ & _ & _ & Hs).
  by exists ratings, similarities, neighbors_means.
Qed.

Lemma get_k_top_neighbors_descending_ratings :
  Knn.get_k_top_neighbors 0 0 Data.ratings [2; 1] Data.ratings_similarity
                          Data.ratings_user_means 5
  = Ok ([5; 1]%float, [0.5; 0.25]%float, [3; 3]%float)
  ∧ ∃ ratings similarities neighbors_means,
      Knn.get_k_top_neighbors 0 0 Data.ratings [2; 1] Data.ratings_similarity
                              Data.ratings_user_means 5
      = Ok (ratings, similarities, neighbors_means)
      ∧ StronglySorted (fun s t => Np.float_le t s = true) similarities.
Proof.
  split; [reflexivity|].
  apply (get_k_top_neighbors_descending 0 0 Data.ratings [2; 1] Data.ratings_similarity
           Data.ratings_user_means 5 3);
    [intros row Hrow; unfold Data.ratings in Hrow; by_members Hrow
    |reflexivity
    |intros row Hrow; unfold Data.ratings_similarity in Hrow; by_members Hrow
    |reflexivity|lia|discriminate|vm_compute; lia|lia
    |intros u Hu; vm_compute; by_members Hu].
Defined.



End KnnExtras.
